(** * Static CMS proxy server: the local-git backend

    A shallow embedding of the request validator ([joi], [defaultSchema],
    [pathTraversal]), of the filesystem helpers ([utils/fs.ts]), of the
    content-key helpers ([utils/APIUtils.ts]) and of the git middleware
    ([middlewares/localGit/index.ts]), with the properties of the
    specification stated over them. *)

From Stdlib Require Import String Ascii List ZArith Bool Lia DecimalString.
Import ListNotations.
Local Open Scope string_scope.
Set Warnings "-register-all".

(* ===================================================================== *)
(** ** JavaScript strings *)
(* ===================================================================== *)

(** The string methods the sources call.  A string is a sequence of code
    units; indices are integers, as in JavaScript, so that [indexOf] can
    answer [-1] and [slice] can take a negative bound. *)
Module JsString.

Definition len (s : string) : Z := Z.of_nat (String.length s).

(** [s.startsWith(p)] *)
Definition startsWith (s p : string) : bool := String.prefix p s.

(** [s.indexOf(p)], searched from position [i] of the original string. *)
Fixpoint indexOf_from (s p : string) (i : Z) : Z :=
  if String.prefix p s then i
  else match s with
       | EmptyString => (-1)%Z
       | String _ s' => indexOf_from s' p (i + 1)
       end.

Definition indexOf (s p : string) : Z := indexOf_from s p 0.

(** [s.includes(p)] *)
Definition includes (s p : string) : bool := (0 <=? indexOf s p)%Z.

(** A bound of [slice], brought into [0 .. len]: a negative bound counts
    from the end. *)
Definition clamp (n : Z) (i : Z) : Z :=
  if (i <? 0)%Z then Z.max (n + i) 0 else Z.min i n.

(** [s.slice(from, to)]; [to = None] is an omitted second argument. *)
Definition slice (s : string) (from : Z) (to : option Z) : string :=
  let n := len s in
  let a := clamp n from in
  let b := match to with Some t => clamp n t | None => n end in
  String.substring (Z.to_nat a) (Z.to_nat (b - a)) s.

(** [s.endsWith(p)] *)
Definition endsWith (s p : string) : bool :=
  (String.length p <=? String.length s)%nat
  && String.eqb (String.substring (String.length s - String.length p)
                                   (String.length p) s) p.

(** [parts.join(sep)] *)
Definition join (sep : string) (parts : list string) : string :=
  String.concat sep parts.

(** [s.split(c)] for a one-character separator. *)
Fixpoint split_aux (c : ascii) (cur : string) (s : string) : list string :=
  match s with
  | EmptyString => [cur]
  | String a s' =>
      if Ascii.eqb a c then cur :: split_aux c EmptyString s'
      else split_aux c (cur ++ String a EmptyString) s'
  end.

Definition split (c : ascii) (s : string) : list string :=
  split_aux c EmptyString s.

End JsString.

(* ===================================================================== *)
(** ** Node's [path] module (POSIX flavour) *)
(* ===================================================================== *)

(** [path.join], [path.normalize], [path.dirname] and [path.basename] as
    Node documents them for POSIX paths.  Normalisation works on the
    segments between slashes: empty segments and ["."] are dropped, [".."]
    removes the segment before it, and is kept at the front of a relative
    path or dropped at the root of an absolute one. *)
Module NodePath.
Import JsString.

Definition slash : ascii := "/"%char.

Definition isAbsolute (p : string) : bool :=
  match p with String c _ => Ascii.eqb c slash | EmptyString => false end.

Definition hasTrailingSeparator (p : string) : bool := endsWith p "/".

(** One step of [normalizeString]: [acc] holds the segments kept so far,
    last one first. *)
Definition normalizeStep (allowAboveRoot : bool) (acc : list string)
           (seg : string) : list string :=
  if String.eqb seg "" || String.eqb seg "." then acc
  else if String.eqb seg ".." then
    match acc with
    | [] => if allowAboveRoot then [".."] else []
    | last :: before =>
        if String.eqb last ".." then
          (if allowAboveRoot then ".." :: acc else acc)
        else before
    end
  else seg :: acc.

Definition normalizeSegments (allowAboveRoot : bool) (segs : list string)
  : list string :=
  rev (fold_left (normalizeStep allowAboveRoot) segs []).

Definition normalizeString (p : string) (allowAboveRoot : bool) : string :=
  join "/" (normalizeSegments allowAboveRoot (split slash p)).

Definition normalize (p : string) : string :=
  if String.eqb p "" then "."
  else
    let abs := isAbsolute p in
    let trailing := hasTrailingSeparator p in
    let q := normalizeString p (negb abs) in
    if String.eqb q "" then
      (if abs then "/" else if trailing then "./" else ".")
    else
      let q' := if trailing then q ++ "/" else q in
      if abs then "/" ++ q' else q'.

(** [path.join(...parts)]: the non-empty parts, glued with slashes, then
    normalised. *)
Definition join_all (parts : list string) : string :=
  match filter (fun a => negb (String.eqb a "")) parts with
  | [] => "."
  | ps => normalize (JsString.join "/" ps)
  end.

Definition join2 (a b : string) : string := join_all [a; b].

(** The scan of [path.dirname]: from the last character down to the
    second, the position of the last slash that follows a non-slash.
    [rest] holds the characters still to visit, last one first, and [i]
    is the position of its head. *)
Fixpoint dirnameScan (rest : list ascii) (i : nat) (matchedSlash : bool)
  : option nat :=
  match rest with
  | [] => None
  | c :: rest' =>
      if Ascii.eqb c slash then
        (if matchedSlash then dirnameScan rest' (i - 1) true else Some i)
      else dirnameScan rest' (i - 1) false
  end.

Definition dirname (p : string) : string :=
  match p with
  | EmptyString => "."
  | String c0 tl =>
      let hasRoot := Ascii.eqb c0 slash in
      match dirnameScan (rev (list_ascii_of_string tl)) (String.length tl) true with
      | None => if hasRoot then "/" else "."
      | Some e =>
          if hasRoot && Nat.eqb e 1 then "//"
          else String.substring 0 e p
      end
  end.

(** [path.basename(p)]: the last segment, trailing slashes ignored. *)
Definition basename (p : string) : string :=
  last (filter (fun a => negb (String.eqb a "")) (split slash p)) "".

(** The segments of the absolute location a path names, for the
    filesystem: relative paths are taken from the root directory. *)
Definition location (p : string) : list string :=
  normalizeSegments false (split slash p).

End NodePath.

(* ===================================================================== *)
(** ** JSON values *)
(* ===================================================================== *)

(** A request body and a response payload.  [option Json] is a JavaScript
    value read from such a body: [None] is [undefined].  In an object the
    first binding of a key is the one in force.  Of the numbers, [JNum]
    holds the integers. *)
Inductive Json :=
| JNull
| JBool (b : bool)
| JNum (n : Z)
| JStr (s : string)
| JArr (items : list Json)
| JObj (fields : list (string * Json)).

Module JsonOps.

Fixpoint assoc {A : Type} (k : string) (fields : list (string * A)) : option A :=
  match fields with
  | [] => None
  | (k', v) :: rest => if String.eqb k k' then Some v else assoc k rest
  end.

Definition hasKey {A : Type} (k : string) (fields : list (string * A)) : bool :=
  match assoc k fields with Some _ => true | None => false end.

Definition mem (x : string) (l : list string) : bool :=
  existsb (String.eqb x) l.

Definition nat_to_string (n : nat) : string :=
  NilZero.string_of_uint (Nat.to_uint n).

Definition Z_to_string (z : Z) : string :=
  NilZero.string_of_int (Z.to_int z).

(** The double-quote character, which Joi puts around labels. *)
Definition dquote : string := String (ascii_of_nat 34) EmptyString.

End JsonOps.

(* ===================================================================== *)
(** ** Number values *)
(* ===================================================================== *)

(** The Number values a decimal numeral denotes, and their [toString]. *)
Module JsNumber.
Import JsonOps.
Local Open Scope Z_scope.

(** A Number value without its sign: zero, [mant * 2 ^ exp] with a
    significand of at most 53 bits, or infinity. *)
Inductive Magnitude :=
| Zero
| Finite (mant exp : Z)
| Infinite.

(** [num / den] to the nearest integer, a tie to the even one. *)
Definition roundHalfEven (num den : Z) : Z :=
  let q := num / den in
  let r := num mod den in
  if 2 * r <? den then q
  else if den <? 2 * r then q + 1
  else if Z.even q then q else q + 1.

(** [2 ^ e <= num / den] *)
Definition atLeastPow2 (num den e : Z) : bool :=
  if 0 <=? e then den * 2 ^ e <=? num else den <=? num * 2 ^ (- e).

(** The Number value nearest to [num / den], for [0 <= num] and
    [0 < den]: the significand has 53 bits, fewer below [2 ^ -1022],
    and a value of [2 ^ 1024] or more is infinity. *)
Definition nearest (num den : Z) : Magnitude :=
  if num =? 0 then Zero
  else
    let p0 := Z.log2 num - Z.log2 den in
    let p := if atLeastPow2 num den p0 then p0 else p0 - 1 in
    let q := Z.max (p - 52) (-1074) in
    let m := if 0 <=? q then roundHalfEven num (den * 2 ^ q)
             else roundHalfEven (num * 2 ^ (- q)) den in
    if m =? 0 then Zero
    else if 1024 <=? Z.log2 m + q then Infinite
    else Finite m q.

(** [mant * 10 ^ exp10] as a Number value. *)
Definition ofDecimal (mant exp10 : Z) : Magnitude :=
  if 0 <=? exp10 then nearest (mant * 10 ^ exp10) 1
  else nearest mant (10 ^ (- exp10)).

Definition sameMagnitude (a b : Magnitude) : bool :=
  match a, b with
  | Zero, Zero | Infinite, Infinite => true
  | Finite m q, Finite m' q' =>
      let low := Z.min q q' in
      m * 2 ^ (q - low) =? m' * 2 ^ (q' - low)
  | _, _ => false
  end.

(** [mant * 2 ^ exp] as a fraction. *)
Definition fraction (mant exp : Z) : Z * Z :=
  if 0 <=? exp then (mant * 2 ^ exp, 1) else (mant, 2 ^ (- exp)).

Definition digitCount (n : Z) : Z := Z.of_nat (String.length (Z_to_string n)).

(** [n] with [10 ^ (n - 1) <= num / den < 10 ^ n]. *)
Definition decimalExponent (num den : Z) : Z :=
  let e := digitCount num - digitCount den in
  let reaches := if 0 <=? e then den * 10 ^ e <=? num else den <=? num * 10 ^ (- e) in
  if reaches then e + 1 else e.

(** The integer of [k] digits that, [n - k] places up, is nearest to
    [mant * 2 ^ exp], if one of the two around it denotes that Number
    value. *)
Definition digitsOfLength (mant exp n k : Z) : option Z :=
  let (num, den) := fraction mant exp in
  let t := k - n in
  let N := if 0 <=? t then num * 10 ^ t else num in
  let D := if 0 <=? t then den else den * 10 ^ (- t) in
  let lo := N / D in
  let r := N mod D in
  let hi := lo + 1 in
  let denotes := fun s => sameMagnitude (ofDecimal s (- t)) (Finite mant exp) in
  let okLo := denotes lo in
  let okHi := denotes hi in
  if r =? 0 then (if okLo then Some lo else None)
  else if okLo && okHi then
    (if 2 * r <? D then Some lo
     else if D <? 2 * r then Some hi
     else if Z.even lo then Some lo else Some hi)
  else if okLo then Some lo
  else if okHi then Some hi
  else None.

(** The shortest digits that denote the value, and where the point
    falls: [s] of [k] digits and [n] with [s * 10 ^ (n - k)] nearest. *)
Fixpoint shortest (fuel : nat) (mant exp n k : Z) : Z * Z * Z :=
  match fuel with
  | O => (mant, k, n)
  | S fuel' =>
      match digitsOfLength mant exp n k with
      | Some s => if s =? 10 ^ k then (10 ^ (k - 1), k, n + 1) else (s, k, n)
      | None => shortest fuel' mant exp n (k + 1)
      end
  end.

Definition zeros (n : Z) : string :=
  String.concat "" (List.repeat "0" (Z.to_nat n)).

(** [Number.prototype.toString()] of a value with its sign. *)
Definition toString (negative : bool) (v : Magnitude) : string :=
  match v with
  | Zero => "0"
  | Infinite => if negative then "-Infinity" else "Infinity"
  | Finite mant exp =>
      let (num, den) := fraction mant exp in
      let '(s, k, n) := shortest 17 mant exp (decimalExponent num den) 1 in
      let digits := Z_to_string s in
      let body :=
        if (k <=? n) && (n <=? 21) then digits ++ zeros (n - k)
        else if (0 <? n) && (n <=? 21) then
          String.substring 0 (Z.to_nat n) digits ++ "."
          ++ String.substring (Z.to_nat n) (Z.to_nat (k - n)) digits
        else if (-6 <? n) && (n <=? 0) then "0." ++ zeros (- n) ++ digits
        else
          let e := n - 1 in
          let power := (if e <? 0 then "-" else "+") ++ Z_to_string (Z.abs e) in
          if k =? 1 then digits ++ "e" ++ power
          else String.substring 0 1 digits ++ "."
               ++ String.substring 1 (Z.to_nat (k - 1)) digits ++ "e" ++ power in
      if negative then "-" ++ body else body
  end.

(** [Number.MAX_SAFE_INTEGER] *)
Definition MAX_SAFE_INTEGER : Z := 2 ^ 53 - 1.

(** [value > Number.MAX_SAFE_INTEGER], for the value without its sign. *)
Definition beyondSafe (v : Magnitude) : bool :=
  match v with
  | Zero => false
  | Infinite => true
  | Finite mant exp =>
      let (num, den) := fraction mant exp in
      MAX_SAFE_INTEGER * den <? num
  end.

End JsNumber.

(* ===================================================================== *)
(** ** Joi's number type *)
(* ===================================================================== *)

(** What Joi's number type does with a string: it converts the strings
    its [numberRx] matches, and calls the conversion unsafe when the
    number written out has other digits than the string had. *)
Module NumberType.
Import JsonOps.

Definition isDigit (c : ascii) : bool :=
  let n := nat_of_ascii c in (48 <=? n)%nat && (n <=? 57)%nat.

(** The white space of [\s] and of [trim], as far as one byte goes. *)
Definition isSpace (c : ascii) : bool :=
  let n := nat_of_ascii c in
  ((9 <=? n)%nat && (n <=? 13)%nat) || (n =? 32)%nat.

Definition isSign (c : ascii) : bool := Ascii.eqb c "+" || Ascii.eqb c "-".
Definition isE (c : ascii) : bool := Ascii.eqb c "e" || Ascii.eqb c "E".

Fixpoint dropWhile (f : ascii -> bool) (s : string) : string :=
  match s with
  | String c rest => if f c then dropWhile f rest else s
  | EmptyString => EmptyString
  end.

Fixpoint takeWhile (f : ascii -> bool) (s : string) : string :=
  match s with
  | String c rest => if f c then String c (takeWhile f rest) else EmptyString
  | EmptyString => EmptyString
  end.

Definition all (f : ascii -> bool) (s : string) : bool :=
  forallb f (list_ascii_of_string s).

Definition reverse (s : string) : string :=
  string_of_list_ascii (rev (list_ascii_of_string s)).

Definition dropWhileEnd (f : ascii -> bool) (s : string) : string :=
  reverse (dropWhile f (reverse s)).

(** [s.trim()] *)
Definition trim (s : string) : string := dropWhileEnd isSpace (dropWhile isSpace s).

(** What [numberRx] finds in a string it matches: the sign, the digits
    before and after the point, and the exponent with its sign.  The
    expression asks for white space, an optional sign, digits with an
    optional point and optional digits after it, or a point and digits,
    an optional exponent ([e] or [E], an optional sign, digits), and
    white space to the end. *)
Record Numeral := {
  negative : bool;
  whole : string;
  decimals : string;
  exponentNegative : bool;
  exponent : string
}.

Definition signed (s : string) : bool * string :=
  match s with
  | String c rest => if isSign c then (Ascii.eqb c "-", rest) else (false, s)
  | EmptyString => (false, s)
  end.

Definition numberRx (value : string) : option Numeral :=
  let (neg, s1) := signed (dropWhile isSpace value) in
  let int := takeWhile isDigit s1 in
  let s2 := dropWhile isDigit s1 in
  let (point, s3) :=
    match s2 with
    | String "." rest => (true, rest)
    | _ => (false, s2)
    end in
  let frac := if point then takeWhile isDigit s3 else "" in
  let s4 := if point then dropWhile isDigit s3 else s3 in
  if String.eqb int "" && String.eqb frac "" then None
  else
    match s4 with
    | String c rest =>
        if isE c then
          let (eneg, s5) := signed rest in
          let digits := takeWhile isDigit s5 in
          if String.eqb digits "" then None
          else if all isSpace (dropWhile isDigit s5)
               then Some {| negative := neg; whole := int; decimals := frac;
                            exponentNegative := eneg; exponent := digits |}
               else None
        else if all isSpace s4
             then Some {| negative := neg; whole := int; decimals := frac;
                          exponentNegative := false; exponent := "" |}
             else None
    | EmptyString =>
        Some {| negative := neg; whole := int; decimals := frac;
                exponentNegative := false; exponent := "" |}
    end.

Definition digit (c : ascii) : Z := (Z.of_nat (nat_of_ascii c) - 48)%Z.

Definition parseDigits (s : string) : Z :=
  fold_left (fun acc c => (10 * acc + digit c)%Z) (list_ascii_of_string s) 0%Z.

(** The numeral as [mant * 10 ^ exp10], its sign apart. *)
Definition mantissa (n : Numeral) : Z := parseDigits (whole n ++ decimals n).

Definition exp10 (n : Numeral) : Z :=
  ((if exponentNegative n then - parseDigits (exponent n) else parseDigits (exponent n))
   - Z.of_nat (String.length (decimals n)))%Z.

(** [parseFloat] of a string that [numberRx] matches. *)
Definition parseFloat (n : Numeral) : JsNumber.Magnitude :=
  JsNumber.ofDecimal (mantissa n) (exp10 n).

(** [value.match(/e/i)] *)
Definition hasE (s : string) : bool := existsb isE (list_ascii_of_string s).

(** [.replace(/^\+/, '')] *)
Definition dropPlus (s : string) : string :=
  match s with String "+" rest => rest | _ => s end.

(** [.replace(/\.0*$/, '')] *)
Fixpoint dropPointZeros (s : string) : string :=
  match s with
  | String c rest =>
      if Ascii.eqb c "." && all (Ascii.eqb "0") rest then EmptyString
      else String c (dropPointZeros rest)
  | EmptyString => EmptyString
  end.

Definition minus (s : string) : string * string :=
  match s with String "-" rest => ("-", rest) | _ => ("", s) end.

(** The third replacement of [normalizeDecimal]: a zero before a
    leading point, after the minus sign if there is one. *)
Definition leadingZero (s : string) : string :=
  let (sign, rest) := minus s in
  match rest with
  | String "." after =>
      if all (fun c => negb (Ascii.eqb c ".")) after then sign ++ "0." ++ after else s
  | _ => s
  end.

(** [.replace(/^(-?)0+([0-9])/, '$1$2')] *)
Definition dropLeadingZeros (s : string) : string :=
  let (sign, rest) := minus s in
  let zeros := takeWhile (Ascii.eqb "0") rest in
  let after := dropWhile (Ascii.eqb "0") rest in
  match zeros, after with
  | EmptyString, _ => s
  | _, String c _ => if isDigit c then sign ++ after
                     else match zeros with
                          | String _ (String _ _) => sign ++ "0" ++ after
                          | _ => s
                          end
  | String _ (String _ _), EmptyString => sign ++ "0"
  | _, EmptyString => s
  end.

(** [.replace(/0+$/, '')] *)
Definition dropTrailingZeros (s : string) : string := dropWhileEnd (Ascii.eqb "0") s.

Definition endsWithZero (s : string) : bool :=
  match reverse s with String "0" _ => true | _ => false end.

Definition normalizeDecimal (str : string) : string :=
  let str := dropLeadingZeros (leadingZero (dropPointZeros (dropPlus str))) in
  let str := if existsb (Ascii.eqb ".") (list_ascii_of_string str) && endsWithZero str
             then dropTrailingZeros str else str in
  if String.eqb str "-0" then "0" else str.

(** [.replace(/[eE][+-]?\d+$/, '')] *)
Fixpoint dropExponent (s : string) : string :=
  match s with
  | String c rest =>
      let digits := snd (signed rest) in
      if isE c && negb (String.eqb digits "") && all isDigit digits then EmptyString
      else String c (dropExponent rest)
  | EmptyString => EmptyString
  end.

(** [.replace(/\./, '')] *)
Fixpoint dropPoint (s : string) : string :=
  match s with
  | String c rest => if Ascii.eqb c "." then rest else String c (dropPoint rest)
  | EmptyString => EmptyString
  end.

(** The last replacement of [extractSignificantDigits]: the sign and
    the zeros at the start go. *)
Definition dropSignAndZeros (s : string) : string :=
  dropWhile (Ascii.eqb "0") (snd (signed s)).

Definition extractSignificantDigits (value : string) : string :=
  dropSignAndZeros (dropTrailingZeros (dropPoint (dropExponent value))).

(** The [coerce] method of the number type: a string that [numberRx]
    does not match is left as it is; one that it matches becomes the
    number [parseFloat] makes of it, and is unsafe when the number,
    written out, has other digits than the string. *)
Inductive Coerced :=
| Unconverted
| Unsafe
| Converted (negative : bool) (v : JsNumber.Magnitude).

Definition coerce (value : string) : Coerced :=
  match numberRx value with
  | None => Unconverted
  | Some n =>
      let value := trim value in
      let v := parseFloat n in
      let written :=
        JsNumber.toString (match v with JsNumber.Zero => false | _ => negative n end) v in
      if hasE value then
        if String.eqb (extractSignificantDigits value) (extractSignificantDigits written)
        then Converted (negative n) v else Unsafe
      else if hasE written then Converted (negative n) v
      else if String.eqb written (normalizeDecimal value)
           then Converted (negative n) v else Unsafe
  end.

(** The least integer that is not below the number a numeral denotes. *)
Definition ceiling (n : Numeral) : Z :=
  let m := mantissa n in
  let e := exp10 n in
  if (0 <=? e)%Z then (if negative n then - (m * 10 ^ e) else m * 10 ^ e)%Z
  else
    let d := (10 ^ (- e))%Z in
    if negative n then (- (m / d))%Z else ((m + d - 1) / d)%Z.

End NumberType.

(* ===================================================================== *)
(** ** The Joi schemas of the validator *)
(* ===================================================================== *)

(** The part of Joi the validator uses: the schema constructors and
    modifiers of [joi/index.ts], and [validate] with Joi's default
    [abortEarly], which reports the first violated constraint only. *)
Module Joi.
Import JsString JsonOps.

Inductive Presence := optional | required | forbidden.

Inductive Schema :=
| JoiAny (p : Presence) (allowed : list string) (only : bool)
| JoiString (p : Presence) (allowed : list string) (only : bool)
| JoiPath (p : Presence) (repoPath : string)
| JoiNumber (p : Presence)
| JoiArray (p : Presence) (items : Schema) (minItems : option nat)
| JoiObject (p : Presence) (keys : list (string * Schema)) (xorPeers : list string)
| JoiWhen (ref : string) (switch : list (string * Schema)) (otherwise : Schema).

(** *** Constructors and modifiers *)

Definition any : Schema := JoiAny optional [] false.          (* Joi.any(), Joi.allow() *)
Definition number : Schema := JoiNumber optional.             (* Joi.number() *)
Definition object (keys : list (string * Schema)) : Schema := JoiObject optional keys [].  (* Joi.object({...}) *)
Definition array : Schema := JoiArray optional any None.      (* Joi.array() *)
Definition forbiddenSchema : Schema := JoiAny forbidden [] false.  (* Joi.forbidden() *)
Definition valid (vs : list string) : Schema := JoiAny optional vs true.  (* Joi.valid(...) *)

Definition withPresence (p : Presence) (s : Schema) : Schema :=
  match s with
  | JoiAny _ a o => JoiAny p a o
  | JoiString _ a o => JoiString p a o
  | JoiPath _ r => JoiPath p r
  | JoiNumber _ => JoiNumber p
  | JoiArray _ i m => JoiArray p i m
  | JoiObject _ k x => JoiObject p k x
  | JoiWhen r sw o => JoiWhen r sw o
  end.

Definition presence (s : Schema) : Presence :=
  match s with
  | JoiAny p _ _ | JoiString p _ _ | JoiPath p _ | JoiNumber p
  | JoiArray p _ _ | JoiObject p _ _ => p
  | JoiWhen _ _ _ => optional
  end.

Definition setRequired := withPresence required.     (* .required() *)
Definition setOptional := withPresence optional.     (* .optional() *)

(** [.allow(v)] *)
Definition allow (v : String.string) (s : Schema) : Schema :=
  match s with
  | JoiAny p a o => JoiAny p (a ++ [v]) o
  | JoiString p a o => JoiString p (a ++ [v]) o
  | _ => s
  end.

(** [.valid(v, ...)] on an existing schema *)
Definition setValid (vs : list String.string) (s : Schema) : Schema :=
  match s with
  | JoiAny p a _ => JoiAny p (a ++ vs) true
  | JoiString p a _ => JoiString p (a ++ vs) true
  | _ => s
  end.

(** [.keys({...})] *)
Definition keys (more : list (String.string * Schema)) (s : Schema) : Schema :=
  match s with
  | JoiObject p k x => JoiObject p (k ++ more) x
  | _ => s
  end.

(** [.xor(a, b)] *)
Definition xor (peers : list String.string) (s : Schema) : Schema :=
  match s with
  | JoiObject p k _ => JoiObject p k peers
  | _ => s
  end.

(** [.items(schema)] *)
Definition items (i : Schema) (s : Schema) : Schema :=
  match s with
  | JoiArray p _ m => JoiArray p i m
  | _ => s
  end.

(** [.min(n)] *)
Definition min (n : nat) (s : Schema) : Schema :=
  match s with
  | JoiArray p i _ => JoiArray p i (Some n)
  | _ => s
  end.

(** *** Labels and messages *)

(** The path of keys down to the value under validation; [None] is the
    root, which Joi calls ["value"]. *)
Definition Label := option String.string.

Definition child (l : Label) (k : String.string) : Label :=
  match l with None => Some k | Some p => Some (p ++ "." ++ k) end.

Definition element (l : Label) (i : nat) : Label :=
  Some (match l with None => "" | Some p => p end ++ "[" ++ nat_to_string i ++ "]").

Definition show (l : Label) : String.string :=
  dquote ++ match l with None => "value" | Some p => p end ++ dquote.

Definition showList (vs : list String.string) : String.string :=
  "[" ++ join ", " vs ++ "]".

Definition msgRequired (l : Label) := show l ++ " is required".
Definition msgNotAllowed (l : Label) := show l ++ " is not allowed".
Definition msgOnly (l : Label) (vs : list String.string) :=
  show l ++ " must be " ++
  (if Nat.eqb (List.length vs) 1 then "" else "one of ") ++ showList vs.
Definition msgStringBase (l : Label) := show l ++ " must be a string".
Definition msgStringEmpty (l : Label) := show l ++ " is not allowed to be empty".
Definition msgNumberBase (l : Label) := show l ++ " must be a number".
Definition msgNumberUnsafe (l : Label) := show l ++ " must be a safe number".
Definition msgArrayBase (l : Label) := show l ++ " must be an array".
Definition msgArrayMin (l : Label) (n : nat) :=
  show l ++ " must contain at least " ++ nat_to_string n ++ " items".
Definition msgArrayRequired (l : Label) :=
  show l ++ " does not contain 1 required value(s)".
Definition msgObjectBase (l : Label) := show l ++ " must be of type object".
Definition msgObjectMissing (l : Label) (peers : list String.string) :=
  show l ++ " must contain at least one of " ++ showList peers.
Definition msgObjectXor (l : Label) (peers : list String.string) :=
  show l ++ " contains a conflict between exclusive peers " ++ showList peers.

(** *** Validation *)

(** The number type on a value: a number must be safe, which for an
    integer is to lie within [Number.MAX_SAFE_INTEGER] of zero; a
    string is converted first, if it can be. *)
Definition checkNumber (l : Label) (v : Json) : option String.string :=
  match v with
  | JNum n =>
      if (JsNumber.MAX_SAFE_INTEGER <? Z.abs n)%Z then Some (msgNumberUnsafe l)
      else None
  | JStr t =>
      match NumberType.coerce t with
      | NumberType.Unconverted => Some (msgNumberBase l)
      | NumberType.Unsafe => Some (msgNumberUnsafe l)
      | NumberType.Converted _ n =>
          if JsNumber.beyondSafe n then Some (msgNumberUnsafe l) else None
      end
  | _ => Some (msgNumberBase l)
  end.

Definition isAllowed (v : Json) (allowed : list String.string) : bool :=
  match v with JStr s => mem s allowed | _ => false end.

(** The check of the [path] extension type ([pathTraversal]). *)
Definition resolvesUnder (repoPath value : String.string) : bool :=
  let resolvedRepoPath := NodePath.join2 repoPath "" in
  let resolvedPath := NodePath.join2 repoPath value in
  startsWith resolvedPath resolvedRepoPath.

Definition msgPathInvalid (l : Label) :=
  show l ++ " must resolve to a path under the configured repository".

Definition checkString (l : Label) (v : Json) : option String.string :=
  match v with
  | JStr s => if String.eqb s "" then Some (msgStringEmpty l) else None
  | _ => Some (msgStringBase l)
  end.

(** The first violated constraint of [v] against [s], if any.  [parent]
    holds the fields of the enclosing object, which [when] refers to. *)
Fixpoint validate (allowUnknown : bool) (s : Schema)
         (parent : list (String.string * Json)) (l : Label)
         (v : option Json) {struct s} : option String.string :=
  match s with
  | JoiWhen ref switch otherwise =>
      let actual := assoc ref parent in
      (fix pick (cases : list (String.string * Schema)) : option String.string :=
         match cases with
         | [] => validate allowUnknown otherwise parent l v
         | (expected, thenSchema) :: rest =>
             match actual with
             | Some (JStr a) =>
                 if String.eqb a expected
                 then validate allowUnknown thenSchema parent l v
                 else pick rest
             | _ => pick rest
             end
         end) switch
  | _ =>
      match v with
      | None =>
          match presence s with
          | required => Some (msgRequired l)
          | _ => None
          end
      | Some x =>
          match presence s with
          | forbidden => Some (msgNotAllowed l)
          | _ =>
              match s with
              | JoiAny _ allowed only =>
                  if isAllowed x allowed then None
                  else if only then Some (msgOnly l allowed) else None
              | JoiString _ allowed only =>
                  if isAllowed x allowed then None
                  else if only then Some (msgOnly l allowed)
                  else checkString l x
              | JoiPath _ repoPath =>
                  match checkString l x with
                  | Some e => Some e
                  | None =>
                      match x with
                      | JStr value =>
                          if resolvesUnder repoPath value then None
                          else Some (msgPathInvalid l)
                      | _ => None
                      end
                  end
              | JoiNumber _ => checkNumber l x
              | JoiArray _ itemSchema minItems =>
                  match x with
                  | JArr elems =>
                      let fix each (es : list Json) (i : nat) : option String.string :=
                        match es with
                        | [] => None
                        | e :: rest =>
                            match validate allowUnknown itemSchema [] (element l i) (Some e) with
                            | Some err => Some err
                            | None => each rest (S i)
                            end
                        end in
                      match each elems 0%nat with
                      | Some err => Some err
                      | None =>
                          match presence itemSchema, elems with
                          | required, [] => Some (msgArrayRequired l)
                          | _, _ =>
                              match minItems with
                              | Some n =>
                                  if (List.length elems <? n)%nat
                                  then Some (msgArrayMin l n) else None
                              | None => None
                              end
                          end
                      end
                  | _ => Some (msgArrayBase l)
                  end
              | JoiObject _ ks peers =>
                  match x with
                  | JObj fields =>
                      let fix known (rest : list (String.string * Schema)) : option String.string :=
                        match rest with
                        | [] => None
                        | (k, sk) :: rest' =>
                            match validate allowUnknown sk fields (child l k) (assoc k fields) with
                            | Some err => Some err
                            | None => known rest'
                            end
                        end in
                      match known ks with
                      | Some err => Some err
                      | None =>
                          let unknown :=
                            filter (fun kv => negb (hasKey (fst kv) ks)) fields in
                          match allowUnknown, unknown with
                          | false, (k, _) :: _ => Some (msgNotAllowed (child l k))
                          | _, _ =>
                              match peers with
                              | [] => None
                              | _ =>
                                  let present := filter (fun k => hasKey k fields) peers in
                                  match present with
                                  | [] => Some (msgObjectMissing l peers)
                                  | [_] => None
                                  | _ => Some (msgObjectXor l peers)
                                  end
                              end
                          end
                      end
                  | _ => Some (msgObjectBase l)
                  end
              | JoiWhen _ _ _ => None
              end
          end
      end
  end.

Definition string : Schema := JoiString optional [] false.    (* Joi.string() *)

End Joi.

(* ===================================================================== *)
(** ** joi/customValidators.ts and joi/index.ts *)
(* ===================================================================== *)

(** What the server sends back: a status code and a JSON payload
    ([res.json(x)] answers 200, [res.status(c).json(x)] answers [c]). *)
Record Response := { status : nat; json : option Json }.

Module Validator.
Import JsString JsonOps.

(** [pathTraversal(repoPath)]: the [path] extension type, whose base is
    [Joi.string().required()]. *)
Definition pathTraversal (repoPath : string) : Joi.Schema :=
  Joi.JoiPath Joi.required repoPath.

Definition allowedActions : list string :=
  [ "info"; "entriesByFolder"; "entriesByFiles"; "getEntry"; "persistEntry";
    "getMedia"; "getMediaFile"; "persistMedia"; "deleteFile"; "deleteFiles";
    "getDeployPreview" ].

Definition requiredString : Joi.Schema := Joi.setRequired Joi.string.
Definition requiredNumber : Joi.Schema := Joi.setRequired Joi.number.

Definition collection : Joi.Schema := requiredString.
Definition slug : Joi.Schema := requiredString.

Definition defaultParams : Joi.Schema :=
  Joi.object [ ("branch", requiredString) ].

Definition asset (path : Joi.Schema) : Joi.Schema :=
  Joi.object
    [ ("path", path);
      ("content", Joi.allow "" Joi.string);
      ("encoding", Joi.setValid ["base64"] requiredString) ].

Definition dataFile (path : Joi.Schema) : Joi.Schema :=
  Joi.object
    [ ("slug", requiredString);
      ("path", path);
      ("raw", requiredString);
      ("newPath", Joi.setOptional path) ].

Definition commitOptions : Joi.Schema :=
  Joi.setRequired (Joi.object [ ("commitMessage", requiredString) ]).

Definition params (path : Joi.Schema) : Joi.Schema :=
  Joi.JoiWhen "action"
    [ ("info", Joi.any);
      ("entriesByFolder",
        Joi.setRequired
          (Joi.keys [ ("folder", path);
                      ("extension", requiredString);
                      ("depth", requiredNumber) ] defaultParams));
      ("entriesByFiles",
        Joi.keys
          [ ("files",
              Joi.setRequired
                (Joi.items (Joi.object [ ("path", path); ("label", Joi.string) ])
                           Joi.array)) ]
          defaultParams);
      ("getEntry",
        Joi.setRequired (Joi.keys [ ("path", path) ] defaultParams));
      ("persistEntry",
        Joi.setRequired
          (Joi.xor ["entry"; "dataFiles"]
             (Joi.keys
                [ ("entry", dataFile path);
                  ("dataFiles", Joi.items (dataFile path) Joi.array);
                  ("assets", Joi.setRequired (Joi.items (asset path) Joi.array));
                  ("options",
                    Joi.setRequired
                      (Joi.object [ ("collectionName", Joi.string);
                                    ("commitMessage", requiredString) ])) ]
                defaultParams)));
      ("getMedia",
        Joi.setRequired (Joi.keys [ ("mediaFolder", path) ] defaultParams));
      ("getMediaFile",
        Joi.setRequired (Joi.keys [ ("path", path) ] defaultParams));
      ("persistMedia",
        Joi.setRequired
          (Joi.keys [ ("asset", Joi.setRequired (asset path));
                      ("options", commitOptions) ] defaultParams));
      ("deleteFile",
        Joi.setRequired
          (Joi.keys [ ("path", path); ("options", commitOptions) ] defaultParams));
      ("deleteFiles",
        Joi.setRequired
          (Joi.keys
             [ ("paths", Joi.setRequired (Joi.min 1 (Joi.items path Joi.array)));
               ("options", commitOptions) ]
             defaultParams));
      ("getDeployPreview",
        Joi.setRequired
          (Joi.keys [ ("collection", collection); ("slug", slug) ] defaultParams)) ]
    Joi.forbiddenSchema.

(** [defaultSchema({ path })]; the default of [path] is [requiredString]. *)
Definition defaultSchema (path : Joi.Schema) : Joi.Schema :=
  Joi.object
    [ ("action", Joi.setRequired (Joi.valid allowedActions));
      ("params", params path) ].

(** [getSchema({ repoPath })] of the middleware. *)
Definition getSchema (repoPath : string) : Joi.Schema :=
  defaultSchema (pathTraversal repoPath).

(** [schema.validate(body, { allowUnknown })]: the messages of the
    details of the error, none on success. *)
Definition schemaValidate (schema : Joi.Schema) (allowUnknown : bool)
           (body : option Json) : list string :=
  match Joi.validate allowUnknown schema [] None body with
  | Some message => [message]
  | None => []
  end.

(** The outcome of a middleware of the chain: it answers, or it hands
    the request to the next one. *)
Inductive Outcome := Responded (r : Response) | Next.

(** [joi(schema)] *)
Definition joi (schema : Joi.Schema) (body : option Json) : Outcome :=
  match schemaValidate schema true body with
  | [] => Next
  | details =>
      let message := join "," details in
      Responded {| status := 422;
                   json := Some (JObj [("error", JStr message)]) |}
  end.

End Validator.

(* ===================================================================== *)
(** ** Results and exceptions *)
(* ===================================================================== *)

(** The outcome of a call that may throw (or of a promise that may
    reject): a value, or the message of the error. *)
Inductive Result (A : Type) :=
| Ok (a : A)
| Thrown (message : string).
Arguments Ok {A} a.
Arguments Thrown {A} message.

(* ===================================================================== *)
(** ** The filesystem *)
(* ===================================================================== *)

(** The working tree as a directory tree, with the calls of Node's
    [fs.promises] that [utils/fs.ts] makes.  A directory lists its entries
    in the order [readdir] reports them; an unreadable directory makes
    [readdir] fail. *)
Module Fs.
Import JsonOps.

(** What [fs.writeFile] is given: a string, or [Buffer.from(content,
    encoding)], kept as its two arguments. *)
Inductive Content :=
| Text (s : string)
| Buffer (content encoding : string).

Inductive Node :=
| File (c : Content)
| Dir (readable : bool) (entries : list (string * Node)).

(** A [Dirent] of [readdir(dir, { withFileTypes: true })]. *)
Record Dirent := { name : string; isDirectory : bool }.

Definition isDir (n : Node) : bool :=
  match n with Dir _ _ => true | File _ => false end.

Fixpoint lookup (segs : list string) (n : Node) : option Node :=
  match segs with
  | [] => Some n
  | s :: rest =>
      match n with
      | Dir _ es =>
          match assoc s es with
          | Some c => lookup rest c
          | None => None
          end
      | File _ => None
      end
  end.

Fixpoint setEntry (k : string) (c : Node) (es : list (string * Node))
  : list (string * Node) :=
  match es with
  | [] => [(k, c)]
  | (k', c') :: rest =>
      if String.eqb k k' then (k, c) :: rest else (k', c') :: setEntry k c rest
  end.

Definition removeEntry (k : string) (es : list (string * Node))
  : list (string * Node) :=
  filter (fun kv => negb (String.eqb k (fst kv))) es.

Definition enoent (what : string) : string :=
  "ENOENT: no such file or directory, " ++ what.
Definition enotdir (what : string) : string :=
  "ENOTDIR: not a directory, " ++ what.
Definition eisdir (what : string) : string :=
  "EISDIR: illegal operation on a directory, " ++ what.
Definition eacces (what : string) : string :=
  "EACCES: permission denied, " ++ what.
Definition eexist (what : string) : string :=
  "EEXIST: file already exists, " ++ what.
Definition einval (what : string) : string :=
  "EINVAL: invalid argument, " ++ what.
Definition enotempty (what : string) : string :=
  "ENOTEMPTY: directory not empty, " ++ what.

(** What is found at a location: nothing, a file where a directory
    should lead on, a file, or a directory. *)
Inductive Stat :=
| Missing
| Blocked
| IsFile (c : Content)
| IsDir (n : Node).

Fixpoint stat (segs : list string) (n : Node) : Stat :=
  match segs with
  | [] => match n with File c => IsFile c | Dir _ _ => IsDir n end
  | s :: rest =>
      match n with
      | Dir _ es =>
          match assoc s es with
          | Some c => stat rest c
          | None => Missing
          end
      | File _ => Blocked
      end
  end.

Fixpoint isPrefix (a b : list string) : bool :=
  match a, b with
  | [], _ => true
  | x :: a', y :: b' => String.eqb x y && isPrefix a' b'
  | _ :: _, [] => false
  end.

Definition sameLocation (a b : list string) : bool := isPrefix a b && isPrefix b a.

(** Put [new] at [segs], in place of what is there; the directories on
    the way must exist. *)
Fixpoint insert (what : string) (segs : list string) (new : Node) (n : Node)
  : Result Node :=
  match segs with
  | [] => Ok new
  | s :: rest =>
      match n with
      | Dir r es =>
          match rest, assoc s es with
          | [], _ => Ok (Dir r (setEntry s new es))
          | _, Some c =>
              match insert what rest new c with
              | Ok c' => Ok (Dir r (setEntry s c' es))
              | Thrown e => Thrown e
              end
          | _, None => Thrown (enoent what)
          end
      | File _ => Thrown (enotdir what)
      end
  end.

(** Take the node at [segs] out of the tree. *)
Fixpoint remove (what : string) (segs : list string) (n : Node)
  : Result (Node * Node) :=
  match segs with
  | [] => Thrown (enoent what)
  | s :: rest =>
      match n with
      | Dir r es =>
          match assoc s es with
          | Some c =>
              match rest with
              | [] => Ok (c, Dir r (removeEntry s es))
              | _ =>
                  match remove what rest c with
                  | Ok (x, c') => Ok (x, Dir r (setEntry s c' es))
                  | Thrown e => Thrown e
                  end
              end
          | None => Thrown (enoent what)
          end
      | File _ => Thrown (enotdir what)
      end
  end.

(** [fs.mkdir(dir, { recursive: true })]: a file where the directory
    should be is in the way, a file further up is no directory. *)
Fixpoint mkdirp (what : string) (segs : list string) (n : Node) : Result Node :=
  match segs with
  | [] => match n with Dir _ _ => Ok n | File _ => Thrown (eexist what) end
  | s :: rest =>
      match n with
      | Dir r es =>
          let c := match assoc s es with Some c => c | None => Dir true [] end in
          match mkdirp what rest c with
          | Ok c' => Ok (Dir r (setEntry s c' es))
          | Thrown e => Thrown e
          end
      | File _ => Thrown (enotdir what)
      end
  end.

(** [fs.readdir(dir, { withFileTypes: true })] *)
Definition readdir (dir : string) (root : Node) : Result (list Dirent) :=
  let what := "scandir '" ++ dir ++ "'" in
  match stat (NodePath.location dir) root with
  | IsDir (Dir true es) =>
      Ok (map (fun kv => {| name := fst kv; isDirectory := isDir (snd kv) |}) es)
  | IsDir _ => Thrown (eacces what)
  | IsFile _ | Blocked => Thrown (enotdir what)
  | Missing => Thrown (enoent what)
  end.

(** [fs.writeFile(path, content)] *)
Definition writeFile (path : string) (content : Content) (root : Node)
  : Result Node :=
  let what := "open '" ++ path ++ "'" in
  match lookup (NodePath.location path) root with
  | Some (Dir _ _) => Thrown (eisdir what)
  | _ => insert what (NodePath.location path) (File content) root
  end.

(** [fs.rename(from, to)]: a file replaces a file and a directory an
    empty directory; a location is not moved under itself nor onto what
    lies above it. *)
Definition rename (from to : string) (root : Node) : Result Node :=
  let what := "rename '" ++ from ++ "' -> '" ++ to ++ "'" in
  let src := NodePath.location from in
  let dst := NodePath.location to in
  match stat src root with
  | Missing => Thrown (enoent what)
  | Blocked => Thrown (enotdir what)
  | IsFile _ | IsDir _ =>
      if sameLocation src dst then Ok root
      else if isPrefix src dst then Thrown (einval what)
      else if isPrefix dst src then Thrown (enotempty what)
      else
        match stat src root, stat dst root with
        | IsFile _, IsDir _ => Thrown (eisdir what)
        | IsDir _, IsFile _ => Thrown (enotdir what)
        | IsDir _, IsDir (Dir _ (_ :: _)) => Thrown (enotempty what)
        | _, _ =>
            match remove what src root with
            | Ok (x, root') => insert what dst x root'
            | Thrown e => Thrown e
            end
        end
  end.

(** [fs.unlink(path)] *)
Definition unlink (path : string) (root : Node) : Result Node :=
  let what := "unlink '" ++ path ++ "'" in
  match stat (NodePath.location path) root with
  | IsFile _ =>
      match remove what (NodePath.location path) root with
      | Ok (_, root') => Ok root'
      | Thrown e => Thrown e
      end
  | IsDir _ => Thrown (eisdir what)
  | Blocked => Thrown (enotdir what)
  | Missing => Thrown (enoent what)
  end.

Definition mkdir (dir : string) (root : Node) : Result Node :=
  mkdirp ("mkdir '" ++ dir ++ "'") (NodePath.location dir) root.

(** *** The files of a tree, as git sees them *)

(** The locations of the files under a node. *)
Fixpoint filePaths (n : Node) : list (list string) :=
  match n with
  | File _ => [[]]
  | Dir _ es =>
      (fix each (es : list (string * Node)) : list (list string) :=
         match es with
         | [] => []
         | (k, c) :: rest => (map (cons k) (filePaths c) ++ each rest)%list
         end) es
  end.

Definition fileAt (segs : list string) (n : Node) : option Content :=
  match lookup segs n with
  | Some (File c) => Some c
  | _ => None
  end.

(** *** The bytes of a file *)

Definition code (c : ascii) : nat := nat_of_ascii c.

Definition within (lo hi : string) (c : ascii) : bool :=
  match lo, hi with
  | String l _, String h _ => (code l <=? code c)%nat && (code c <=? code h)%nat
  | _, _ => false
  end.

(** A string as UTF-8: a code unit below 128 is one byte, one up to 255
    is two. *)
Fixpoint utf8 (s : string) : string :=
  match s with
  | String c rest =>
      if (code c <? 128)%nat then String c (utf8 rest)
      else String (ascii_of_nat (192 + code c / 64))
                  (String (ascii_of_nat (128 + code c mod 64)) (utf8 rest))
  | EmptyString => EmptyString
  end.

(** The value of a character of the base64 alphabets, the URL-safe one
    included. *)
Definition sextet (c : ascii) : option nat :=
  if within "A" "Z" c then Some (code c - 65)%nat
  else if within "a" "z" c then Some (code c - 71)%nat
  else if within "0" "9" c then Some (code c + 4)%nat
  else if Ascii.eqb c "+" || Ascii.eqb c "-" then Some 62%nat
  else if Ascii.eqb c "/" || Ascii.eqb c "_" then Some 63%nat
  else None.

(** The values of the characters up to the first [=]; a character of
    no alphabet is passed over. *)
Fixpoint sextets (s : string) : list nat :=
  match s with
  | String c rest =>
      if Ascii.eqb c "=" then []
      else match sextet c with
           | Some v => v :: sextets rest
           | None => sextets rest
           end
  | EmptyString => []
  end.

Fixpoint pack (fuel : nat) (vs : list nat) : string :=
  match fuel, vs with
  | S fuel', a :: b :: c :: d :: rest =>
      String (ascii_of_nat (a * 4 + b / 16))
        (String (ascii_of_nat ((b mod 16) * 16 + c / 4))
           (String (ascii_of_nat ((c mod 4) * 64 + d)) (pack fuel' rest)))
  | _, [a; b; c] =>
      String (ascii_of_nat (a * 4 + b / 16))
        (String (ascii_of_nat ((b mod 16) * 16 + c / 4)) EmptyString)
  | _, [a; b] => String (ascii_of_nat (a * 4 + b / 16)) EmptyString
  | _, _ => EmptyString
  end.

(** [Buffer.from(s, 'base64')] *)
Definition base64 (s : string) : string :=
  let vs := sextets s in pack (List.length vs) vs.

Definition nibble (c : ascii) : option nat :=
  if within "0" "9" c then Some (code c - 48)%nat
  else if within "a" "f" c then Some (code c - 87)%nat
  else if within "A" "F" c then Some (code c - 55)%nat
  else None.

(** [Buffer.from(s, 'hex')]: the pairs of digits, up to the first that
    is none. *)
Fixpoint hex (s : string) : string :=
  match s with
  | String a (String b rest) =>
      match nibble a, nibble b with
      | Some x, Some y => String (ascii_of_nat (x * 16 + y)) (hex rest)
      | _, _ => EmptyString
      end
  | _ => EmptyString
  end.

(** [Buffer.from(s, 'utf16le')] *)
Fixpoint utf16le (s : string) : string :=
  match s with
  | String c rest => String c (String zero (utf16le rest))
  | EmptyString => EmptyString
  end.

Definition lower (c : ascii) : ascii :=
  if within "A" "Z" c then ascii_of_nat (code c + 32) else c.

Definition lowercase (s : string) : string :=
  string_of_list_ascii (map lower (list_ascii_of_string s)).

Definition oneOf (names : list string) (s : string) : bool :=
  existsb (String.eqb s) names.

(** What [fs.writeFile] puts in the file: a string goes as UTF-8, a
    buffer as the bytes [Buffer.from] made of its string in an encoding
    Node knows. *)
Definition bytes (c : Content) : option string :=
  match c with
  | Text s => Some (utf8 s)
  | Buffer content encoding =>
      let e := lowercase encoding in
      if oneOf ["base64"; "base64url"] e then Some (base64 content)
      else if oneOf ["utf8"; "utf-8"] e then Some (utf8 content)
      else if oneOf ["latin1"; "binary"; "ascii"] e then Some content
      else if oneOf ["hex"] e then Some (hex content)
      else if oneOf ["utf16le"; "utf-16le"; "ucs2"; "ucs-2"] e then Some (utf16le content)
      else None
  end.

(** Two contents are the same when they are the same bytes; contents in
    an encoding that is none of Node's are the same when they were
    written the same. *)
Definition contentEqb (a b : Content) : bool :=
  match bytes a, bytes b with
  | Some x, Some y => String.eqb x y
  | _, _ =>
      match a, b with
      | Text s, Text t => String.eqb s t
      | Buffer c e, Buffer c' e' => String.eqb c c' && String.eqb e e'
      | _, _ => false
      end
  end.

Definition sameContent (a b : option Content) : bool :=
  match a, b with
  | Some x, Some y => contentEqb x y
  | None, None => true
  | _, _ => false
  end.

(** Two trees hold the same files: directories without a file in them
    do not count, nor does the order of the entries. *)
Definition sameFiles (a b : Node) : bool :=
  forallb (fun p => sameContent (fileAt p a) (fileAt p b))
          (filePaths a ++ filePaths b).

(** The part of a tree at and under a location. *)
Fixpoint only (segs : list string) (n : Node) : Node :=
  match segs with
  | [] => n
  | s :: rest =>
      match n with
      | Dir r es =>
          match assoc s es with
          | Some c => Dir r [(s, only rest c)]
          | None => Dir r []
          end
      | File _ => Dir true []
      end
  end.

(** Put a file at a location, making the directories on the way; a
    directory without a file in it gives way to the file. *)
Fixpoint place (segs : list string) (c : Content) (n : Node) : option Node :=
  match segs with
  | [] =>
      match n with
      | File _ => Some (File c)
      | Dir _ _ => match filePaths n with [] => Some (File c) | _ :: _ => None end
      end
  | s :: rest =>
      match n with
      | Dir r es =>
          let child := match assoc s es with Some x => x | None => Dir true [] end in
          match place rest c child with
          | Some child' => Some (Dir r (setEntry s child' es))
          | None => None
          end
      | File _ => None
      end
  end.

(** Take the file at a location away, if there is one, and then the
    directories above it that are empty, from the innermost outwards,
    those of the first [keep] segments apart.  Nothing is done where the
    location is a directory or lies under a file or under a directory
    that is not there. *)
Fixpoint clear (keep : nat) (segs : list string) (n : Node) : option Node :=
  match segs, n with
  | s :: rest, Dir r es =>
      match rest, assoc s es with
      | [], Some (File _) => Some (Dir r (removeEntry s es))
      | [], Some (Dir _ _) => None
      | [], None => Some n
      | _ :: _, Some c =>
          match clear (pred keep) rest c, keep with
          | Some (Dir _ []), O => Some (Dir r (removeEntry s es))
          | Some c', _ => Some (Dir r (setEntry s c' es))
          | None, _ => None
          end
      | _ :: _, None => None
      end
  | _, _ => None
  end.

(** Put a file at a location of an index, where a file further up gives
    way to the directory. *)
Fixpoint plant (segs : list string) (c : Content) (n : Node) : Node :=
  match segs with
  | [] => File c
  | s :: rest =>
      match n with
      | Dir r es =>
          let child := match assoc s es with Some x => x | None => Dir true [] end in
          Dir r (setEntry s (plant rest c child) es)
      | File _ => Dir true [(s, plant rest c (Dir true []))]
      end
  end.

Definition cleared (keep : nat) (segs : list string) (n : Node) : Node :=
  match clear keep segs n with Some n' => n' | None => n end.

(** The filesystem calls, by the type of what they resolve to. *)
Inductive Op : Type -> Type :=
| Mkdir (dir : string) : Op unit
| WriteFile (path : string) (content : Content) : Op unit
| Rename (from to : string) : Op unit
| Readdir (dir : string) : Op (list Dirent)
| Unlink (path : string) : Op unit.

Definition unitResult (r : Result Node) (root : Node) : Result unit * Node :=
  match r with
  | Ok root' => (Ok tt, root')
  | Thrown e => (Thrown e, root)
  end.

(** A call on a tree: its outcome and the tree after it.  A call that
    fails leaves the tree as it was. *)
Definition perform {R : Type} (op : Op R) (root : Node) : Result R * Node :=
  match op in Op R return Result R * Node with
  | Mkdir dir => unitResult (mkdir dir root) root
  | WriteFile path content => unitResult (writeFile path content root) root
  | Rename from to => unitResult (rename from to root) root
  | Readdir dir => (readdir dir root, root)
  | Unlink path => unitResult (unlink path root) root
  end.

End Fs.

(* ===================================================================== *)
(** ** Asynchronous filesystem code *)
(* ===================================================================== *)

(** An [async] function over the filesystem, as the tree of its calls:
    each [Await] is one [await] of an [fs] promise, and the continuation
    receives how the promise settled.  Such a function can be run by its
    caller ([await f()]) or left running on its own ([f()] without
    [await]). *)
Module Io.

Inductive t (A : Type) : Type :=
| Ret (a : A)
| Throw (message : string)
| Await {R : Type} (op : Fs.Op R) (k : Result R -> t A).
Arguments Ret {A} a.
Arguments Throw {A} message.
Arguments Await {A R} op k.

Fixpoint bind {A B : Type} (m : t A) (f : A -> t B) : t B :=
  match m with
  | Ret a => f a
  | Throw e => Throw e
  | Await op k => Await op (fun r => bind (k r) f)
  end.

(** [await fs.op(...)]: a rejection is thrown at the [await]. *)
Definition call {R : Type} (op : Fs.Op R) : t R :=
  Await op (fun r => match r with Ok v => Ret v | Thrown e => Throw e end).

(** [try { body } catch (e) { handler(e) }] *)
Fixpoint tryCatch {A : Type} (body : t A) (handler : string -> t A) : t A :=
  match body with
  | Ret a => Ret a
  | Throw e => handler e
  | Await op k => Await op (fun r => tryCatch (k r) handler)
  end.

(** How a promise settled, as a value. *)
Definition settled {A : Type} (m : t A) : t (Result A) :=
  tryCatch (bind m (fun a => Ret (Ok a))) (fun e => Ret (Thrown e)).

(** [await Promise.all(promises)].  The promises are run one after the
    other in the order of the array; all of them are run, also after
    one has rejected, and the first rejection is the outcome. *)
Fixpoint all {A : Type} (promises : list (t A)) : t (list A) :=
  match promises with
  | [] => Ret []
  | p :: rest =>
      bind (settled p) (fun r =>
      bind (settled (all rest)) (fun rs =>
      match r, rs with
      | Ok a, Ok l => Ret (a :: l)
      | Thrown e, _ => Throw e
      | Ok _, Thrown e => Throw e
      end))
  end.

End Io.

Declare Scope io_scope.
Delimit Scope io_scope with io.
Notation "x <- m ;; k" := (Io.bind m (fun x => k))
  (at level 61, m at next level, right associativity) : io_scope.
Notation "m ;; k" := (Io.bind m (fun _ => k))
  (at level 61, right associativity) : io_scope.

(* ===================================================================== *)
(** ** utils/fs.ts *)
(* ===================================================================== *)

Module FsUtils.
Import JsString.
Local Open Scope io_scope.

(** [FsItem].  [file] is [undefined] for an entry the extension filter
    of [listFiles] has dropped. *)
Record FsItem := { file : option string; isDirectory : bool }.

(** [[res].filter(f => f.endsWith(extension))[0]] *)
Definition matching (res extension : string) : option string :=
  hd_error (filter (fun f => endsWith f extension) [res]).

Definition listFiles (dir extension : string) (depth : Z)
  : Io.t (list FsItem) :=
  if (depth <=? 0)%Z then Io.Ret []
  else
    Io.tryCatch
      (dirents <- Io.call (Fs.Readdir dir) ;;
       let files :=
         map (fun dirent =>
                let res := NodePath.join2 dir (Fs.name dirent) in
                {| file := matching res extension;
                   isDirectory := Fs.isDirectory dirent |})
             dirents in
       Io.Ret files)
      (fun _ => Io.Ret []).

(** [f => f.file]: a defined, non-empty string. *)
Definition hasFile (f : FsItem) : bool :=
  match file f with
  | Some s => negb (String.eqb s "")
  | None => false
  end.

Definition listRepoFiles (repoPath folder extension : string) (depth : Z)
  : Io.t (list FsItem) :=
  files <- listFiles (NodePath.join2 repoPath folder) extension depth ;;
  Io.Ret
    (map (fun f =>
            {| file := option_map (fun s => slice s (len repoPath + 1) None) (file f);
               isDirectory := isDirectory f |})
         (filter hasFile files)).

Definition writeFile (filePath : string) (content : Fs.Content) : Io.t unit :=
  Io.call (Fs.Mkdir (NodePath.dirname filePath)) ;;
  Io.call (Fs.WriteFile filePath content).

(** The rejection of [unlink] is caught and dropped. *)
Definition deleteFile (repoPath filePath : string) : Io.t unit :=
  Io.tryCatch (Io.call (Fs.Unlink (NodePath.join2 repoPath filePath)))
              (fun _ => Io.Ret tt).

Definition moveFile (from to : string) : Io.t unit :=
  Io.call (Fs.Mkdir (NodePath.dirname to)) ;;
  Io.call (Fs.Rename from to).

(** The replacement of [replace], with its patterns filled in: [$$] is
    a dollar sign, [$&] the match, [$`] what precedes it and [$'] what
    follows it.  A string pattern captures nothing, so a dollar sign
    before anything else stands for itself. *)
Fixpoint substitution (replacement matched before after : string) : string :=
  match replacement with
  | String "$" (String c rest as tail) =>
      if Ascii.eqb c "$" then "$" ++ substitution rest matched before after
      else if Ascii.eqb c "&" then matched ++ substitution rest matched before after
      else if Ascii.eqb c "`" then before ++ substitution rest matched before after
      else if Ascii.eqb c "'" then after ++ substitution rest matched before after
      else String "$" (substitution tail matched before after)
  | String c rest => String c (substitution rest matched before after)
  | EmptyString => EmptyString
  end.

(** The search of [replace]: [before] holds what has been passed. *)
Fixpoint replaceFrom (before s pattern replacement : string) : string :=
  if String.prefix pattern s then
    let after := String.substring (String.length pattern)
                   (String.length s - String.length pattern) s in
    before ++ substitution replacement pattern before after ++ after
  else match s with
       | EmptyString => before
       | String c s' => replaceFrom (before ++ String c EmptyString) s' pattern replacement
       end.

(** [s.replace(pattern, replacement)] for a string pattern: the first
    occurrence only. *)
Definition replaceFirst (s pattern replacement : string) : string :=
  replaceFrom "" s pattern replacement.

(** [allFiles.map(item => moveFile(item.file, item.file.replace(sourceDir,
    destDir)))]: the array of promises, or the TypeError of reading
    [replace] from an undefined [file], which is thrown before
    [Promise.all] is reached. *)
Fixpoint moves (sourceDir destDir : string) (allFiles : list FsItem)
  : Result (list (Io.t unit)) :=
  match allFiles with
  | [] => Ok []
  | item :: rest =>
      match file item with
      | Some f =>
          match moves sourceDir destDir rest with
          | Ok ps => Ok (moveFile f (replaceFirst f sourceDir destDir) :: ps)
          | Thrown e => Thrown e
          end
      | None =>
          Thrown "Cannot read properties of undefined (reading 'replace')"
      end
  end.

Definition move (from to : string) : Io.t unit :=
  (* move file *)
  moveFile from to ;;
  (* move children *)
  let sourceDir := NodePath.dirname from in
  let destDir := NodePath.dirname to in
  allFiles <- listFiles sourceDir "" 100 ;;
  match moves sourceDir destDir allFiles with
  | Ok promises => Io.all promises ;; Io.Ret tt
  | Thrown e => Io.Throw e
  end.

End FsUtils.

(* ===================================================================== *)
(** ** The server process: repository, lock, event loop *)
(* ===================================================================== *)

Module Runtime.
Import JsonOps.

(** *** The repository *)

Record Commit := { onBranch : string; commitMessage : string; tree : Fs.Node }.

(** The state of the repository that [simple-git] reads and changes: the
    directory of its working tree, the checked-out branch, the local
    branches, the tree at the tip of each branch, the index ([git add .]
    stages the working tree) and the commits made.  The trees are those
    of the filesystem, cut down to the directory of the repository, so
    that a file has the same location in all of them. *)
Record Git := {
  workTree : string;
  current : string;
  all : list string;
  heads : list (string * Fs.Node);
  index : Fs.Node;
  commits : list Commit
}.

Definition setCurrent (branch : string) (g : Git) : Git :=
  {| workTree := workTree g; current := branch; all := all g;
     heads := heads g; index := index g; commits := commits g |}.

Definition setIndex (staged : Fs.Node) (g : Git) : Git :=
  {| workTree := workTree g; current := current g; all := all g;
     heads := heads g; index := staged; commits := commits g |}.

(** The tree at the tip of a branch; a branch without a commit has no
    file. *)
Definition headOf (g : Git) (branch : string) : Fs.Node :=
  match assoc branch (heads g) with
  | Some t => t
  | None => Fs.Dir true []
  end.

Fixpoint setHead (branch : string) (t : Fs.Node) (hs : list (string * Fs.Node))
  : list (string * Fs.Node) :=
  match hs with
  | [] => [(branch, t)]
  | (b, t') :: rest =>
      if String.eqb branch b then (b, t) :: rest else (b, t') :: setHead branch t rest
  end.

(** [git add .]: the files of the working tree are the index. *)
Definition stage (files : Fs.Node) (g : Git) : Git :=
  setIndex (Fs.only (NodePath.location (workTree g)) files) g.

(** Nothing is staged when the index holds the files of the tip of the
    current branch. *)
Definition nothingStaged (g : Git) : bool :=
  Fs.sameFiles (index g) (headOf g (current g)).

(** [git commit]: the index becomes a commit at the tip of the current
    branch, unless nothing is staged; then git makes none and says so,
    which is no error to [simple-git]. *)
Definition commitStaged (message : string) (g : Git) : Git :=
  if nothingStaged g then g
  else
    {| workTree := workTree g; current := current g; all := all g;
       heads := setHead (current g) (index g) (heads g);
       index := index g;
       commits := commits g ++ [{| onBranch := current g;
                                   commitMessage := message;
                                   tree := index g |}] |}.

(** *** Switching branches *)

(** What [git checkout] does with one file, from what the tip of the
    current branch ([head]), the tip of the target ([target]), the index
    and the working tree hold at its location: where the two tips agree
    the file is left as it is, with what was changed or staged; where
    they differ the file is replaced ([Take]) or removed ([Drop]) if it
    is as the current tip has it, a file not under version control is
    made ([Make]) or dropped from the index ([Lose]) if nothing is there
    in the working tree, and otherwise git refuses. *)
Inductive Verdict :=
| Keep
| Take (c : Fs.Content)
| Drop
| Make (c : Fs.Content)
| Lose
| Refuse.

(** A file under version control is unchanged in the working tree, or
    gone from it. *)
Definition upToDate (staged : Fs.Content) (found : Fs.Stat) : bool :=
  match found with
  | Fs.IsFile c => Fs.contentEqb c staged
  | Fs.Missing => true
  | _ => false
  end.

(** Nothing at a location that would be lost: no file, and no file in a
    directory. *)
Definition vacant (found : Fs.Stat) : bool :=
  match found with
  | Fs.Missing => true
  | Fs.IsDir n => match Fs.filePaths n with [] => true | _ :: _ => false end
  | _ => false
  end.

Definition verdict (files staged head target : Fs.Node) (p : list string) : Verdict :=
  let h := Fs.fileAt p head in
  let t := Fs.fileAt p target in
  let i := Fs.fileAt p staged in
  if Fs.sameContent h t then Keep
  else
    match i with
    | None =>
        match h, t with
        | None, Some c => Make c
        | Some _, None => Lose
        | _, _ => Refuse
        end
    | Some ic =>
        if Fs.sameContent i t then Keep
        else if Fs.sameContent i h then
          (if upToDate ic (Fs.stat p files)
           then match t with Some c => Take c | None => Drop end
           else Refuse)
        else Refuse
    end.

Definition isRefuse (v : Verdict) : bool :=
  match v with Refuse => true | _ => false end.

Definition settles (v : Verdict) : bool :=
  match v with Take _ | Make _ | Lose => true | _ => false end.

(** A location under one where the checkout makes or removes a file:
    a directory is in the place of that file, and what the index holds
    in it goes with the directory, if it is unchanged in the working
    tree. *)
Definition covered (settled : list (list string)) (p : list string) : bool :=
  existsb (fun q => Fs.isPrefix q p && negb (Fs.isPrefix p q)) settled.

Definition verdictUnder (files staged : Fs.Node) (p : list string) (plain : Verdict)
  : Verdict :=
  match Fs.fileAt p staged with
  | Some ic => if upToDate ic (Fs.stat p files) then Drop else Refuse
  | None => plain
  end.

(** The removals of a checkout, on a tree. *)
Definition dropFile (keep : nat) (t : Fs.Node) (pv : list string * Verdict) : Fs.Node :=
  match snd pv with
  | Drop => Fs.cleared keep (fst pv) t
  | _ => t
  end.

(** The files a checkout writes, on a tree. *)
Definition takeFile (t : option Fs.Node) (pv : list string * Verdict) : option Fs.Node :=
  match t, snd pv with
  | Some n, (Take c | Make c) => Fs.place (fst pv) c n
  | _, _ => t
  end.

(** The files a checkout writes, in the index. *)
Definition stageFile (t : Fs.Node) (pv : list string * Verdict) : Fs.Node :=
  match snd pv with
  | Take c | Make c => Fs.plant (fst pv) c t
  | _ => t
  end.

Definition overwritten : string :=
  "error: Your local changes to the following files would be overwritten by checkout:".
Definition untrackedOverwritten : string :=
  "error: The following untracked working tree files would be overwritten by checkout:".
Definition untrackedRemoved : string :=
  "error: The following untracked working tree files would be removed by checkout:".
Definition untrackedLost : string :=
  "error: Updating the following directories would lose untracked files in them:".

(** A file not under version control is in the way of the checkout,
    once the files that go have gone: what git says of it. *)
Definition inTheWay (files : Fs.Node) (pv : list string * Verdict) : option string :=
  let found := Fs.stat (fst pv) files in
  match snd pv with
  | Make _ =>
      if vacant found then None
      else match found with
           | Fs.IsDir _ => Some untrackedLost
           | _ => Some untrackedOverwritten
           end
  | Lose =>
      if vacant found then None
      else match found with
           | Fs.IsDir _ => Some untrackedLost
           | _ => Some untrackedRemoved
           end
  | _ => None
  end.

Fixpoint firstSome {A B : Type} (f : A -> option B) (l : list A) : option B :=
  match l with
  | [] => None
  | x :: rest => match f x with Some y => Some y | None => firstSome f rest end
  end.

(** [git checkout branch] on a working tree: the working tree and the
    index after it, or the first line of what git says when it
    refuses.  Nothing is changed when one file stands against it. *)
Definition switch (g : Git) (files : Fs.Node) (branch : string)
  : Result (Fs.Node * Fs.Node) :=
  let head := headOf g (current g) in
  let target := headOf g branch in
  let keep := List.length (NodePath.location (workTree g)) in
  let paths := (Fs.filePaths (index g) ++ Fs.filePaths head ++ Fs.filePaths target)%list in
  let plain := map (fun p => (p, verdict files (index g) head target p)) paths in
  let settled := map fst (filter (fun pv => settles (snd pv)) plain) in
  let verdicts :=
    map (fun pv => if covered settled (fst pv)
                   then (fst pv, verdictUnder files (index g) (fst pv) (snd pv))
                   else pv) plain in
  if existsb (fun pv => isRefuse (snd pv)) verdicts then Thrown overwritten
  else
    let removed := fold_left (dropFile keep) verdicts files in
    match firstSome (inTheWay removed) verdicts with
    | Some refusal => Thrown refusal
    | None =>
        match fold_left takeFile verdicts (Some removed) with
        | Some files' =>
            Ok (files',
                fold_left stageFile verdicts
                          (fold_left (dropFile keep) verdicts (index g)))
        | None => Thrown untrackedOverwritten
        end
    end.

(** *** Events *)

(** The calls that leave the process, as the log records them. *)
Inductive Event :=
| EAcquire
| ERelease
| EBranchLocal
| ECheckout (branch : string)
| EAdd
| ECommit (message : string)
| EMkdir (dir : string)
| EWriteFile (path : string)
| ERename (from to : string)
| EReaddir (dir : string)
| EUnlink (path : string)
| EEntriesFromFiles
| EReadMediaFile (path : string)
| EUnhandledRejection (message : string).

Definition eventOf {R : Type} (op : Fs.Op R) : Event :=
  match op with
  | Fs.Mkdir dir => EMkdir dir
  | Fs.WriteFile path _ => EWriteFile path
  | Fs.Rename from to => ERename from to
  | Fs.Readdir dir => EReaddir dir
  | Fs.Unlink path => EUnlink path
  end.

(** *** The process *)

(** [files] is the working tree, [lockCount] the number of holders of
    the mutex, [responses] what has been sent, [logged] the messages
    given to the logger, [log] the calls made so far with whether each
    succeeded (oldest first), and [pending] the asynchronous functions
    that were started without [await] and have not finished. *)
Record World := {
  files : Fs.Node;
  git : Git;
  lockCount : nat;
  responses : list Response;
  logged : list string;
  log : list (Event * bool);
  pending : list (Io.t unit)
}.

Definition now (w : World) : nat := List.length (log w).

Definition record (e : Event) (ok : bool) (w : World) : World :=
  {| files := files w; git := git w; lockCount := lockCount w;
     responses := responses w; logged := logged w;
     log := log w ++ [(e, ok)]; pending := pending w |}.

Definition setFiles (root : Fs.Node) (w : World) : World :=
  {| files := root; git := git w; lockCount := lockCount w;
     responses := responses w; logged := logged w;
     log := log w; pending := pending w |}.

Definition setGit (g : Git) (w : World) : World :=
  {| files := files w; git := g; lockCount := lockCount w;
     responses := responses w; logged := logged w;
     log := log w; pending := pending w |}.

Definition setLockCount (n : nat) (w : World) : World :=
  {| files := files w; git := git w; lockCount := n;
     responses := responses w; logged := logged w;
     log := log w; pending := pending w |}.

Definition setPending (ps : list (Io.t unit)) (w : World) : World :=
  {| files := files w; git := git w; lockCount := lockCount w;
     responses := responses w; logged := logged w;
     log := log w; pending := ps |}.

Definition addResponse (r : Response) (w : World) : World :=
  {| files := files w; git := git w; lockCount := lockCount w;
     responses := responses w ++ [r]; logged := logged w;
     log := log w; pending := pending w |}.

Definition addLogged (m : string) (w : World) : World :=
  {| files := files w; git := git w; lockCount := lockCount w;
     responses := responses w; logged := logged w ++ [m];
     log := log w; pending := pending w |}.

(** *** The environment *)

(** What the process does not decide.  [fault e t] makes the call [e],
    made when [t] calls have been logged, fail.  [schedule t] names, by
    their positions in [pending], the unawaited functions that advance
    by one call each before the awaited call made at time [t].
    [entriesFromFiles] and [readMediaFile] stand for the functions of
    [utils/entries.ts], which read the working tree. *)
Record Env := {
  fault : Event -> nat -> bool;
  schedule : nat -> list nat;
  entriesFromFiles : Fs.Node -> string -> Json -> Result Json;
  readMediaFile : Fs.Node -> string -> string -> Result Json
}.

Definition injected (e : Event) : string := "operation failed".

Section WithEnv.
Variable env : Env.

(** One filesystem call. *)
Definition performFs {R : Type} (op : Fs.Op R) (w : World) : Result R * World :=
  let e := eventOf op in
  if fault env e (now w) then (Thrown (injected e), record e false w)
  else
    match Fs.perform op (files w) with
    | (Ok r, root) => (Ok r, record e true (setFiles root w))
    | (Thrown m, _) => (Thrown m, record e false w)
    end.

(** *** Unawaited functions *)

Fixpoint replaceNth {A : Type} (i : nat) (x : option A) (l : list A) : list A :=
  match l, i with
  | [], _ => []
  | _ :: rest, O => match x with Some y => y :: rest | None => rest end
  | a :: rest, S i' => a :: replaceNth i' x rest
  end.

(** The function at position [i] of [pending] makes its next call.  It
    leaves [pending] when it has returned; when it has thrown, nothing
    handles the rejection. *)
Definition stepPending (i : nat) (w : World) : World :=
  match nth_error (pending w) i with
  | None => w
  | Some (Io.Ret _) => setPending (replaceNth i None (pending w)) w
  | Some (Io.Throw e) =>
      record (EUnhandledRejection e) false
             (setPending (replaceNth i None (pending w)) w)
  | Some (Io.Await op k) =>
      let (r, w') := performFs op w in
      match k r with
      | Io.Ret _ => setPending (replaceNth i None (pending w')) w'
      | Io.Throw e =>
          record (EUnhandledRejection e) false
                 (setPending (replaceNth i None (pending w')) w')
      | next => setPending (replaceNth i (Some next) (pending w')) w'
      end
  end.

(** What the unawaited functions do while the request waits for the
    call it makes at this time. *)
Definition runScheduled (w : World) : World :=
  fold_left (fun w' i => stepPending i w') (schedule env (now w)) w.

(** An unawaited function run to its end. *)
Fixpoint runToEnd (job : Io.t unit) (w : World) : World :=
  match job with
  | Io.Ret _ => w
  | Io.Throw e => record (EUnhandledRejection e) false w
  | Io.Await op k => let (r, w') := performFs op w in runToEnd (k r) w'
  end.

(** The process left alone: the unawaited functions finish, one after
    the other. *)
Definition settle (w : World) : World :=
  fold_left (fun w' job => runToEnd job w') (pending w) (setPending [] w).

(** *** The request *)

(** The code of a request handler: it runs on the process and returns
    or throws. *)
Definition M (A : Type) : Type := World -> Result A * World.

Definition ret {A : Type} (a : A) : M A := fun w => (Ok a, w).
Definition throw {A : Type} (e : string) : M A := fun w => (Thrown e, w).

Definition bind {A B : Type} (m : M A) (f : A -> M B) : M B :=
  fun w =>
    match m w with
    | (Ok a, w') => f a w'
    | (Thrown e, w') => (Thrown e, w')
    end.

(** [try { body } finally { cleanup }]: an error of [cleanup] replaces
    the outcome of [body]. *)
Definition tryFinally {A : Type} (body : M A) (cleanup : M unit) : M A :=
  fun w =>
    let (r, w1) := body w in
    match cleanup w1 with
    | (Ok _, w2) => (r, w2)
    | (Thrown e, w2) => (Thrown e, w2)
    end.

(** [try { body } catch (e) { handler(e) }] *)
Definition tryCatch {A : Type} (body : M A) (handler : string -> M A) : M A :=
  fun w =>
    match body w with
    | (Ok a, w1) => (Ok a, w1)
    | (Thrown e, w1) => handler e w1
    end.

(** [await] of a call that leaves the process: the unawaited functions
    advance as scheduled, then the call is made. *)
Definition await {A : Type} (call : World -> Result A * World) : M A :=
  fun w => call (runScheduled w).

(** [await f(...)] for an asynchronous filesystem function. *)
Fixpoint run {A : Type} (f : Io.t A) : M A :=
  match f with
  | Io.Ret a => ret a
  | Io.Throw e => throw e
  | Io.Await op k =>
      fun w => let (r, w') := performFs op (runScheduled w) in run (k r) w'
  end.

(** [f(...)] without [await]: the function is started and the caller
    goes on. *)
Definition detach (f : Io.t unit) : M unit :=
  fun w => (Ok tt, setPending (pending w ++ [f]) w).

(** [res.json(x)] and [res.status(code).json(x)] *)
Definition respond (code : nat) (x : option Json) : M unit :=
  fun w => (Ok tt, addResponse {| status := code; json := x |} w).

(** [logger.error(message)] *)
Definition logError (message : string) : M unit :=
  fun w => (Ok tt, addLogged message w).

(** *** The mutex *)

(** [mutex.acquire()] of a mutex with a timeout: a request that finds
    the lock held does not get it, and the promise rejects with the
    error the mutex was built with. *)
Definition acquire (timeoutError : string) : M unit :=
  await (fun w =>
    match lockCount w with
    | O => (Ok tt, record EAcquire true (setLockCount 1 w))
    | S _ => (Thrown timeoutError, record EAcquire false w)
    end).

(** [release()] *)
Definition release : M unit :=
  fun w => (Ok tt, record ERelease true (setLockCount (pred (lockCount w)) w)).

(** *** simple-git *)

Definition gitCall {A : Type} (e : Event) (refused : Git -> option string)
           (result : Git -> A) (after : World -> Git) : M A :=
  await (fun w =>
    if fault env e (now w) then (Thrown (injected e), record e false w)
    else match refused (git w) with
         | Some m => (Thrown m, record e false w)
         | None => (Ok (result (git w)), record e true (setGit (after w) w))
         end).

(** [git.branchLocal()]: the summary with [current] and [all]. *)
Definition branchLocal : M (string * list string) :=
  gitCall EBranchLocal (fun _ => None)
          (fun g => (current g, all g)) (fun w => git w).

Definition pathspec (branch : string) : string :=
  "error: pathspec '" ++ branch ++ "' did not match any file(s) known to git".

(** [git.checkout(branch)]: the repository is on [branch], with the
    working tree and the index as [switch] leaves them, unless git
    refuses; then nothing has changed. *)
Definition checkout (branch : string) : M unit :=
  await (fun w =>
    let e := ECheckout branch in
    if fault env e (now w) then (Thrown (injected e), record e false w)
    else if negb (mem branch (all (git w))) then (Thrown (pathspec branch), record e false w)
    else
      match switch (git w) (files w) branch with
      | Ok (root, staged) =>
          (Ok tt,
           record e true
             (setFiles root (setGit (setIndex staged (setCurrent branch (git w))) w)))
      | Thrown m => (Thrown m, record e false w)
      end).

(** [git.add(".")] *)
Definition add : M unit :=
  gitCall EAdd (fun _ => None) (fun _ => tt) (fun w => stage (files w) (git w)).

(** [git.commit(message, undefined, { "--no-verify": null,
    "--no-gpg-sign": null })] *)
Definition gitCommit (message : string) : M unit :=
  gitCall (ECommit message) (fun _ => None) (fun _ => tt)
          (fun w => commitStaged message (git w)).

(** *** utils/entries.ts *)

Definition readCall (e : Event) (read : Fs.Node -> Result Json) : M Json :=
  await (fun w =>
    if fault env e (now w) then (Thrown (injected e), record e false w)
    else match read (files w) with
         | Ok v => (Ok v, record e true w)
         | Thrown m => (Thrown m, record e false w)
         end).

End WithEnv.

End Runtime.

Declare Scope request_scope.
Delimit Scope request_scope with request.
Notation "x <- m ;; k" := (Runtime.bind m (fun x => k))
  (at level 61, m at next level, right associativity) : request_scope.
Notation "m ;; k" := (Runtime.bind m (fun _ => k))
  (at level 61, right associativity) : request_scope.

(* ===================================================================== *)
(** ** The request bodies the middleware reads *)
(* ===================================================================== *)

(** The types of [../types], which the middleware casts [body.params]
    to.  Their fields are those the handlers read and the schema
    validates. *)
Module DataFile.
Record t := { slug : string; path : string; raw : string; newPath : option string }.
End DataFile.

Module Asset.
Record t := { path : string; content : string; encoding : string }.
End Asset.

Module FileRef.
Record t := { path : string; label : option string }.
End FileRef.

(** The parameters of an action, [branch] apart.  [OtherParams] carries
    nothing the middleware reads. *)
Inductive Payload :=
| EntriesByFolderParams (folder extension : string) (depth : Z)
| EntriesByFilesParams (files : list FileRef.t)
| GetEntryParams (path : string)
| PersistEntryParams (entry : option DataFile.t) (dataFiles : option (list DataFile.t))
                     (assets : list Asset.t) (commitMessage : string)
| GetMediaParams (mediaFolder : string)
| GetMediaFileParams (path : string)
| PersistMediaParams (asset : Asset.t) (commitMessage : string)
| DeleteFileParams (path : string) (commitMessage : string)
| DeleteFilesParams (paths : list string) (commitMessage : string)
| OtherParams.

Record Params := { branch : string; payload : Payload }.

(** [req.body]; [params = None] is a body without [params]. *)
Record Body := { action : string; params : option Params }.

(* ===================================================================== *)
(** ** middlewares/localGit/index.ts *)
(* ===================================================================== *)

Module LocalGit.
Import JsString JsonOps Runtime.
Local Open Scope request_scope.

Section WithEnv.
Variable env : Env.

Definition commit (commitMessage : string) : M unit :=
  add env ;;
  gitCommit env commitMessage.

Definition getCurrentBranch : M string :=
  summary <- branchLocal env ;;
  ret (fst summary).

Definition runOnBranch {A : Type} (branch : string) (func : M A) : M A :=
  currentBranch <- getCurrentBranch ;;
  tryFinally
    ((if negb (String.eqb currentBranch branch)
      then checkout env branch else ret tt) ;;
     result <- func ;;
     ret result)
    (checkout env currentBranch).

(** [dataFile => dataFile.newPath]: defined and not the empty string. *)
Definition hasNewPath (dataFile : DataFile.t) : bool :=
  match DataFile.newPath dataFile with
  | Some p => negb (String.eqb p "")
  | None => false
  end.

(** The callback of [forEach]: an [async] arrow function, whose
    promise [forEach] drops.  [dataFile.newPath!] is read as it is;
    [path.join] throws on an undefined argument. *)
Definition moveDataFile (repoPath : string) (dataFile : DataFile.t) : Io.t unit :=
  match DataFile.newPath dataFile with
  | Some newPath =>
      FsUtils.move (NodePath.join2 repoPath (DataFile.path dataFile))
                   (NodePath.join2 repoPath newPath)
  | None =>
      Io.Throw ("The " ++ dquote ++ "path" ++ dquote
                ++ " argument must be of type string. Received undefined")
  end.

Fixpoint forEach {A : Type} (f : A -> M unit) (l : list A) : M unit :=
  match l with
  | [] => ret tt
  | x :: rest => f x ;; forEach f rest
  end.

Definition commitEntry (repoPath : string) (dataFiles : list DataFile.t)
           (assets : list Asset.t) (commitMessage : string) : M unit :=
  (* save entry content *)
  run env (Io.all (map (fun dataFile =>
             FsUtils.writeFile (NodePath.join2 repoPath (DataFile.path dataFile))
                               (Fs.Text (DataFile.raw dataFile)))
           dataFiles)) ;;
  (* save assets *)
  run env (Io.all (map (fun a =>
             FsUtils.writeFile (NodePath.join2 repoPath (Asset.path a))
                               (Fs.Buffer (Asset.content a) (Asset.encoding a)))
           assets)) ;;
  (if forallb hasNewPath dataFiles
   then forEach (fun dataFile => detach (moveDataFile repoPath dataFile)) dataFiles
   else ret tt) ;;
  (* commits files *)
  commit commitMessage.

Definition isBranchExists (branch : string) : M bool :=
  summary <- branchLocal env ;;
  ret (mem branch (snd summary)).

(** [s.replace(/pattern/g, replacement)] for a pattern without
    metacharacters: every occurrence, left to right. *)
Fixpoint replaceAll (s pattern replacement : string) (fuel : nat) : string :=
  match fuel with
  | O => s
  | S fuel' =>
      if String.prefix pattern s && negb (String.eqb pattern "") then
        replacement
        ++ replaceAll (String.substring (String.length pattern)
                         (String.length s - String.length pattern) s)
                      pattern replacement fuel'
      else match s with
           | EmptyString => EmptyString
           | String c s' => String c (replaceAll s' pattern replacement fuel')
           end
  end.

(** [s.replace(/\\\\/g, '/')]: the pattern is two backslashes. *)
Definition slashes (s : string) : string :=
  replaceAll s "\\" "/" (S (String.length s)).

(** An element of the array the handler of [getMedia] maps over, on
    which it calls [replace]: a string has that method, an [FsItem]
    has not. *)
Inductive Listed :=
| ListedPath (file : string)
| ListedItem (item : FsUtils.FsItem).

(** [(file) => ({ path: file.replace(...), url: path.join(repoPath,
    file).replace(...) })] *)
Definition mediaEntry (repoPath : string) (file : Listed) : Result Json :=
  match file with
  | ListedPath f =>
      Ok (JObj [ ("path", JStr (slashes f));
                 ("url", JStr (slashes (NodePath.join2 repoPath f))) ])
  | ListedItem _ => Thrown "file.replace is not a function"
  end.

(** [array.map(f)] for a callback that may throw. *)
Fixpoint mapThrowing {A B : Type} (f : A -> Result B) (l : list A) : Result (list B) :=
  match l with
  | [] => Ok []
  | x :: rest =>
      match f x with
      | Ok y =>
          match mapThrowing f rest with
          | Ok ys => Ok (y :: ys)
          | Thrown e => Thrown e
          end
      | Thrown e => Thrown e
      end
  end.

Definition liftResult {A : Type} (r : Result A) : M A :=
  match r with Ok a => ret a | Thrown e => throw e end.

(** An [FsItem] as the object it is. *)
Definition fsItemJson (f : FsUtils.FsItem) : Json :=
  JObj (match FsUtils.file f with
        | Some s => [("file", JStr s)]
        | None => []
        end ++ [("isDirectory", JBool (FsUtils.isDirectory f))]).

Definition fileRefJson (f : FileRef.t) : Json :=
  JObj (("path", JStr (FileRef.path f))
        :: match FileRef.label f with
           | Some l => [("label", JStr l)]
           | None => []
           end).

(** [const [entry] = entries] *)
Definition firstOf (entries : Json) : Result (option Json) :=
  match entries with
  | JArr l => Ok (hd_error l)
  | JStr (String c _) => Ok (Some (JStr (String c EmptyString)))
  | JStr EmptyString => Ok None
  | _ => Thrown "object is not iterable"
  end.

Definition message (m : string) : option Json := Some (JObj [("message", JStr m)]).
Definition error (m : string) : option Json := Some (JObj [("error", JStr m)]).

(** A handler given parameters of another shape than the one it casts
    them to reads undefined fields, and throws on using them.  The
    validator lets no such body through, an asset without [content]
    apart. *)
Definition castError {A : Type} : M A :=
  throw "the parameters do not have the fields of the action".

(** The [switch (body.action)]. *)
Definition dispatch (repoPath action branch : string) (payload : Payload) : M unit :=
  if String.eqb action "entriesByFolder" then
    match payload with
    | EntriesByFolderParams folder extension depth =>
        entries <- runOnBranch branch
          (files <- run env (FsUtils.listRepoFiles repoPath folder extension depth) ;;
           readCall env EEntriesFromFiles (fun root =>
             entriesFromFiles env root repoPath
               (JArr (map (fun file => JObj [("path", fsItemJson file)]) files)))) ;;
        respond 200 (Some entries)
    | _ => castError
    end
  else if String.eqb action "entriesByFiles" then
    match payload with
    | EntriesByFilesParams files =>
        entries <- runOnBranch branch
          (readCall env EEntriesFromFiles (fun root =>
             entriesFromFiles env root repoPath (JArr (map fileRefJson files)))) ;;
        respond 200 (Some entries)
    | _ => castError
    end
  else if String.eqb action "getEntry" then
    match payload with
    | GetEntryParams path =>
        entries <- runOnBranch branch
          (readCall env EEntriesFromFiles (fun root =>
             entriesFromFiles env root repoPath (JArr [JObj [("path", JStr path)]]))) ;;
        entry <- liftResult (firstOf entries) ;;
        respond 200 entry
    | _ => castError
    end
  else if String.eqb action "persistEntry" then
    match payload with
    | PersistEntryParams entry dataFiles assets commitMessage =>
        runOnBranch branch
          (match dataFiles, entry with
           | Some given, _ => commitEntry repoPath given assets commitMessage
           | None, Some legacy => commitEntry repoPath [legacy] assets commitMessage
           | None, None =>
               throw "Cannot read properties of undefined (reading 'path')"
           end) ;;
        respond 200 (message "entry persisted")
    | _ => castError
    end
  else if String.eqb action "getMedia" then
    match payload with
    | GetMediaParams mediaFolder =>
        mediaFiles <- runOnBranch branch
          (files <- run env (FsUtils.listRepoFiles repoPath mediaFolder "" 1) ;;
           liftResult (mapThrowing (fun file => mediaEntry repoPath (ListedItem file)) files)) ;;
        respond 200 (Some (JArr mediaFiles))
    | _ => castError
    end
  else if String.eqb action "getMediaFile" then
    match payload with
    | GetMediaFileParams path =>
        mediaFile <- runOnBranch branch
          (readCall env (EReadMediaFile path) (fun root =>
             readMediaFile env root repoPath path)) ;;
        respond 200 (Some mediaFile)
    | _ => castError
    end
  else if String.eqb action "persistMedia" then
    match payload with
    | PersistMediaParams asset commitMessage =>
        file <- runOnBranch branch
          (run env (FsUtils.writeFile (NodePath.join2 repoPath (Asset.path asset))
                      (Fs.Buffer (Asset.content asset) (Asset.encoding asset))) ;;
           commit commitMessage ;;
           readCall env (EReadMediaFile (Asset.path asset)) (fun root =>
             readMediaFile env root repoPath (Asset.path asset))) ;;
        respond 200 (Some file)
    | _ => castError
    end
  else if String.eqb action "deleteFile" then
    match payload with
    | DeleteFileParams filePath commitMessage =>
        runOnBranch branch
          (run env (FsUtils.deleteFile repoPath filePath) ;;
           commit commitMessage) ;;
        respond 200 (message ("deleted file " ++ filePath))
    | _ => castError
    end
  else if String.eqb action "deleteFiles" then
    match payload with
    | DeleteFilesParams paths commitMessage =>
        runOnBranch branch
          (run env (Io.all (map (fun filePath => FsUtils.deleteFile repoPath filePath) paths)) ;;
           commit commitMessage) ;;
        respond 200 (message ("deleted files " ++ join ", " paths))
    | _ => castError
    end
  else if String.eqb action "getDeployPreview" then
    respond 200 (Some JNull)
  else
    respond 422 (error ("Unknown action " ++ action)).

(** The body of the [try] block, after the lock has been taken. *)
Definition handle (repoPath : string) (body : Body) : M unit :=
  if String.eqb (action body) "info" then
    respond 200 (Some (JObj [ ("repo", JStr (NodePath.basename repoPath));
                              ("type", JStr "local_git") ]))
  else
    match params body with
    | None =>
        throw "Cannot destructure property 'branch' of 'body.params' as it is undefined."
    | Some ps =>
        branchExists <- isBranchExists (branch ps) ;;
        if negb branchExists then
          respond 422 (error ("Default branch '" ++ branch ps ++ "' doesn't exist"))
        else dispatch repoPath (action body) (branch ps) (payload ps)
    end.

(** The [catch] block; of the line given to the logger, [logged] keeps
    the message of the error. *)
Definition onError (e : string) : M unit :=
  logError e ;;
  respond 500 (error "Unknown error").

(** The request handler [localGitMiddleware({ repoPath, logger })]
    returns.  [release] is assigned by the first statement of the
    [try] block, so [release && release()] releases exactly when
    [acquire] has returned. *)
Definition localGitMiddleware (repoPath : string) (body : Body) : M unit :=
  fun w =>
    match acquire env "Request timed out" w with
    | (Ok _, w1) =>
        tryFinally (tryCatch (handle repoPath body) onError) release w1
    | (Thrown e, w1) => onError e w1
    end.

End WithEnv.

End LocalGit.

(* ===================================================================== *)
(** ** The route: validator, then middleware *)
(* ===================================================================== *)

(** [registerMiddleware] puts two handlers on the route, [joi(getSchema({
    repoPath }))] and [localGitMiddleware({ repoPath, logger })]: the
    second runs when the first calls [next()]. *)
Module Route.
Import JsonOps Runtime.

(** *** The body, read at the types of the casts *)

Definition str (fields : list (string * Json)) (k : string) : option string :=
  match assoc k fields with Some (JStr s) => Some s | _ => None end.

(** A number, or a string the validator converts to one.  The handler
    gets the value as the body has it and does one thing with [depth]:
    it compares it with zero, which for a string is to compare the
    number it denotes.  A string is read as the least integer not below
    that number, which compares the same. *)
Definition num (fields : list (string * Json)) (k : string) : option Z :=
  match assoc k fields with
  | Some (JNum n) => Some n
  | Some (JStr s) =>
      match NumberType.numberRx s with
      | Some n => Some (NumberType.ceiling n)
      | None => None
      end
  | _ => None
  end.

Fixpoint traverse {A B : Type} (f : A -> option B) (l : list A) : option (list B) :=
  match l with
  | [] => Some []
  | x :: rest =>
      match f x, traverse f rest with
      | Some y, Some ys => Some (y :: ys)
      | _, _ => None
      end
  end.

Definition arr {B : Type} (f : Json -> option B) (fields : list (string * Json))
           (k : string) : option (list B) :=
  match assoc k fields with
  | Some (JArr l) => traverse f l
  | _ => None
  end.

Definition dataFile (j : Json) : option DataFile.t :=
  match j with
  | JObj fs =>
      match str fs "slug", str fs "path", str fs "raw" with
      | Some slug, Some path, Some raw =>
          Some {| DataFile.slug := slug; DataFile.path := path;
                  DataFile.raw := raw; DataFile.newPath := str fs "newPath" |}
      | _, _, _ => None
      end
  | _ => None
  end.

(** The schema leaves [content] optional; [Buffer.from(undefined,
    encoding)] throws, so an asset without [content] is none the handler
    can use. *)
Definition asset (j : Json) : option Asset.t :=
  match j with
  | JObj fs =>
      match str fs "path", str fs "content", str fs "encoding" with
      | Some path, Some content, Some encoding =>
          Some {| Asset.path := path; Asset.content := content;
                  Asset.encoding := encoding |}
      | _, _, _ => None
      end
  | _ => None
  end.

Definition fileRef (j : Json) : option FileRef.t :=
  match j with
  | JObj fs =>
      match str fs "path" with
      | Some path => Some {| FileRef.path := path; FileRef.label := str fs "label" |}
      | None => None
      end
  | _ => None
  end.

Definition text (j : Json) : option string :=
  match j with JStr s => Some s | _ => None end.

Definition commitMessageOf (fields : list (string * Json)) : option string :=
  match assoc "options" fields with
  | Some (JObj os) => str os "commitMessage"
  | _ => None
  end.

Definition orOther (p : option Payload) : Payload :=
  match p with Some x => x | None => OtherParams end.

Definition payloadOf (action : string) (fs : list (string * Json)) : Payload :=
  orOther
    (if String.eqb action "entriesByFolder" then
       match str fs "folder", str fs "extension", num fs "depth" with
       | Some folder, Some extension, Some depth =>
           Some (EntriesByFolderParams folder extension depth)
       | _, _, _ => None
       end
     else if String.eqb action "entriesByFiles" then
       option_map EntriesByFilesParams (arr fileRef fs "files")
     else if String.eqb action "getEntry" then
       option_map GetEntryParams (str fs "path")
     else if String.eqb action "persistEntry" then
       match arr asset fs "assets", commitMessageOf fs with
       | Some assets, Some commitMessage =>
           Some (PersistEntryParams
                   (match assoc "entry" fs with Some e => dataFile e | None => None end)
                   (arr dataFile fs "dataFiles") assets commitMessage)
       | _, _ => None
       end
     else if String.eqb action "getMedia" then
       option_map GetMediaParams (str fs "mediaFolder")
     else if String.eqb action "getMediaFile" then
       option_map GetMediaFileParams (str fs "path")
     else if String.eqb action "persistMedia" then
       match assoc "asset" fs, commitMessageOf fs with
       | Some a, Some commitMessage =>
           option_map (fun x => PersistMediaParams x commitMessage) (asset a)
       | _, _ => None
       end
     else if String.eqb action "deleteFile" then
       match str fs "path", commitMessageOf fs with
       | Some path, Some commitMessage => Some (DeleteFileParams path commitMessage)
       | _, _ => None
       end
     else if String.eqb action "deleteFiles" then
       match arr text fs "paths", commitMessageOf fs with
       | Some paths, Some commitMessage => Some (DeleteFilesParams paths commitMessage)
       | _, _ => None
       end
     else None).

(** [req.body] as the middleware reads it.  On a body the validator has
    let through, the fields a handler reads are there, with the types
    it casts them to. *)
Definition bodyOf (raw : option Json) : Body :=
  match raw with
  | Some (JObj fields) =>
      let action := match str fields "action" with Some a => a | None => "" end in
      {| action := action;
         params :=
           match assoc "params" fields with
           | Some (JObj ps) =>
               match str ps "branch" with
               | Some branch =>
                   Some {| branch := branch; payload := payloadOf action ps |}
               | None => None
               end
           | _ => None
           end |}
  | _ => {| action := ""; params := None |}
  end.

(** *** Bodies as the client sends them *)

Definition assetJson (a : Asset.t) : Json :=
  JObj [ ("path", JStr (Asset.path a));
         ("content", JStr (Asset.content a));
         ("encoding", JStr (Asset.encoding a)) ].

Definition dataFileJson (d : DataFile.t) : Json :=
  JObj ([ ("slug", JStr (DataFile.slug d));
          ("path", JStr (DataFile.path d));
          ("raw", JStr (DataFile.raw d)) ]
        ++ match DataFile.newPath d with
           | Some p => [("newPath", JStr p)]
           | None => []
           end).

Definition optionsJson (commitMessage : string) : Json :=
  JObj [("commitMessage", JStr commitMessage)].

Definition request (action : string) (fields : list (string * Json)) : option Json :=
  Some (JObj [("action", JStr action); ("params", JObj fields)]).

Definition persistMediaRequest (branch : string) (a : Asset.t) (commitMessage : string)
  : option Json :=
  request "persistMedia"
    [ ("branch", JStr branch); ("asset", assetJson a);
      ("options", optionsJson commitMessage) ].

Definition persistEntryRequest (branch : string) (dataFiles : list DataFile.t)
           (assets : list Asset.t) (commitMessage : string) : option Json :=
  request "persistEntry"
    [ ("branch", JStr branch);
      ("dataFiles", JArr (map dataFileJson dataFiles));
      ("assets", JArr (map assetJson assets));
      ("options", optionsJson commitMessage) ].

Definition getMediaRequest (branch mediaFolder : string) : option Json :=
  request "getMedia" [ ("branch", JStr branch); ("mediaFolder", JStr mediaFolder) ].

Definition getEntryRequest (branch path : string) : option Json :=
  request "getEntry" [ ("branch", JStr branch); ("path", JStr path) ].

(** A [POST /api/v1] with body [raw]. *)
Definition post (env : Env) (repoPath : string) (raw : option Json) : M unit :=
  match Validator.joi (Validator.getSchema repoPath) raw with
  | Validator.Responded r => fun w => (Ok tt, addResponse r w)
  | Validator.Next => LocalGit.localGitMiddleware env repoPath (bodyOf raw)
  end.

End Route.

(* ===================================================================== *)
(** ** The behaviour the specification words, for comparison *)
(* ===================================================================== *)

Module Claimed.
Import JsString.

(** The listing as the specification words it: it recursively enumerates
    the entries under [dir], [maxDepth] levels deep, keeps those whose
    resolved name ends with [extension], and an unreadable directory
    contributes nothing for its subtree. *)
Fixpoint listing (node : Fs.Node) (dir extension : string) (maxDepth : nat)
  : list string :=
  match maxDepth with
  | O => []
  | S deeper =>
      match node with
      | Fs.Dir true entries =>
          flat_map
            (fun entry =>
               let res := NodePath.join2 dir (fst entry) in
               ((if endsWith res extension then [res] else [])
                ++ listing (snd entry) res extension deeper)%list)
            entries
      | _ => []
      end
  end.

Definition listFiles (root : Fs.Node) (dir extension : string) (maxDepth : nat)
  : list string :=
  match Fs.lookup (NodePath.location dir) root with
  | Some node => listing node dir extension maxDepth
  | None => []
  end.

(** Containment as the specification words it: the resolved path is a
    descendant of the root, that is, the segments of the root are the
    first segments of the resolved path. *)
Fixpoint startsWithSegments (path root : list string) : bool :=
  match root, path with
  | [], _ => true
  | r :: root', p :: path' => String.eqb r p && startsWithSegments path' root'
  | _ :: _, [] => false
  end.

Definition staysUnder (repoPath value : string) : bool :=
  startsWithSegments (NodePath.location (NodePath.join2 repoPath value))
                     (NodePath.location (NodePath.join2 repoPath "")).

End Claimed.

(* ===================================================================== *)
(** ** A repository to run requests on *)
(* ===================================================================== *)

Module Samples.
Import Runtime.

(** No call fails, the unawaited functions wait until the process is
    left alone, and the functions of [utils/entries.ts] answer with the
    files they are given. *)
Definition quiet : Env :=
  {| fault := fun _ _ => false;
     schedule := fun _ => [];
     entriesFromFiles := fun _ _ files => Ok files;
     readMediaFile := fun _ _ path => Ok (JStr path) |}.

(** As [quiet], but every [git commit] fails. *)
Definition commitFails : Env :=
  {| fault := fun e _ => match e with ECommit _ => true | _ => false end;
     schedule := fun _ => [];
     entriesFromFiles := fun _ _ files => Ok files;
     readMediaFile := fun _ _ path => Ok (JStr path) |}.

(** As [quiet], but before every awaited call the first of the unawaited
    functions makes two calls. *)
Definition eager : Env :=
  {| fault := fun _ _ => false;
     schedule := fun t => [0; 0];
     entriesFromFiles := fun _ _ files => Ok files;
     readMediaFile := fun _ _ path => Ok (JStr path) |}.

(** As [quiet], but before every awaited call the first of the unawaited
    functions makes one call. *)
Definition prompt : Env :=
  {| fault := fun _ _ => false;
     schedule := fun t => [0];
     entriesFromFiles := fun _ _ files => Ok files;
     readMediaFile := fun _ _ path => Ok (JStr path) |}.


Definition repoPath : string := "/repo".

Definition tree : Fs.Node :=
  Fs.Dir true
    [ ("repo",
        Fs.Dir true
          [ ("img", Fs.Dir true [ ("a.png", Fs.File (Fs.Text "A"));
                                  ("b.png", Fs.File (Fs.Text "B")) ]);
            ("posts", Fs.Dir true
                        [ ("a.md", Fs.File (Fs.Text "old"));
                          ("sub", Fs.Dir true [ ("c.md", Fs.File (Fs.Text "c")) ]) ]) ]) ].

Definition world : World :=
  {| files := tree;
     git := {| workTree := repoPath; current := "main"; all := ["main"; "draft"];
               heads := [("main", tree); ("draft", tree)];
               index := tree; commits := [] |};
     lockCount := 0; responses := []; logged := [];
     log := []; pending := [] |}.

(** The same server while another request holds the lock. *)
Definition busy : World := setLockCount 1 world.

Definition renamed : DataFile.t :=
  {| DataFile.slug := "a"; DataFile.path := "posts/a.md";
     DataFile.raw := "new"; DataFile.newPath := Some "drafts/a.md" |}.

Definition emptyAsset : Asset.t :=
  {| Asset.path := "img/empty.png"; Asset.content := ""; Asset.encoding := "base64" |}.

Definition emptyDocument : DataFile.t :=
  {| DataFile.slug := "e"; DataFile.path := "posts/e.md";
     DataFile.raw := ""; DataFile.newPath := None |}.

Definition persistRenamed : Body :=
  {| action := "persistEntry";
     params := Some {| branch := "main";
                       payload := PersistEntryParams None (Some [renamed]) [] "rename a" |} |}.

Definition persistOnDraft : Body :=
  {| action := "persistEntry";
     params := Some {| branch := "draft";
                       payload := PersistEntryParams None (Some [renamed]) [] "rename a" |} |}.

(** A repository whose branches have parted: [draft] holds another text
    of [posts/a.md] than [main], which is checked out. *)
Definition draftTree : Fs.Node :=
  Fs.Dir true
    [ ("repo",
        Fs.Dir true
          [ ("img", Fs.Dir true [ ("a.png", Fs.File (Fs.Text "A"));
                                  ("b.png", Fs.File (Fs.Text "B")) ]);
            ("posts", Fs.Dir true
                        [ ("a.md", Fs.File (Fs.Text "draft"));
                          ("sub", Fs.Dir true [ ("c.md", Fs.File (Fs.Text "c")) ]) ]) ]) ].

Definition parted : World :=
  {| files := tree;
     git := {| workTree := repoPath; current := "main"; all := ["main"; "draft"];
               heads := [("main", tree); ("draft", draftTree)];
               index := tree; commits := [] |};
     lockCount := 0; responses := []; logged := [];
     log := []; pending := [] |}.

(** An asset whose path is a directory of the repository. *)
Definition misplacedAsset : Asset.t :=
  {| Asset.path := "img"; Asset.content := "AA=="; Asset.encoding := "base64" |}.

Definition edited : DataFile.t :=
  {| DataFile.slug := "a"; DataFile.path := "posts/a.md";
     DataFile.raw := "new"; DataFile.newPath := None |}.

Definition persistMisplaced : Body :=
  {| action := "persistEntry";
     params := Some {| branch := "draft";
                       payload := PersistEntryParams None (Some [edited])
                                    [misplacedAsset] "edit a" |} |}.

(** Two data files of one directory, each with a new path in a
    directory of its own. *)
Definition movedA : DataFile.t :=
  {| DataFile.slug := "a"; DataFile.path := "posts/a.md";
     DataFile.raw := "new a"; DataFile.newPath := Some "drafts/a.md" |}.

Definition movedB : DataFile.t :=
  {| DataFile.slug := "b"; DataFile.path := "posts/b.md";
     DataFile.raw := "new b"; DataFile.newPath := Some "archive/b.md" |}.

Definition persistBoth : Body :=
  {| action := "persistEntry";
     params := Some {| branch := "main";
                       payload := PersistEntryParams None (Some [movedA; movedB]) []
                                    "move both" |} |}.

(** A data file whose new path is a directory of the repository. *)
Definition ontoDirectory : DataFile.t :=
  {| DataFile.slug := "a"; DataFile.path := "posts/a.md";
     DataFile.raw := "new"; DataFile.newPath := Some "img" |}.

Definition persistOntoDirectory : Body :=
  {| action := "persistEntry";
     params := Some {| branch := "main";
                       payload := PersistEntryParams None (Some [ontoDirectory]) []
                                    "rename a" |} |}.

End Samples.

(* ===================================================================== *)
(** ** utils/APIUtils.ts *)
(* ===================================================================== *)

Module APIUtils.
Import JsString.

Record ContentKey := { collection : string; slug : string }.

Definition generateContentKey (collectionName slug : string) : string :=
  collectionName ++ "/" ++ slug.

Definition parseContentKey (contentKey : string) : ContentKey :=
  let index := indexOf contentKey "/" in
  {| collection := slice contentKey 0 (Some index);
     slug := slice contentKey (index + 1) None |}.

Definition CMS_BRANCH_PREFIX : string := "cms".
Definition DEFAULT_STATIC_CMS_LABEL_PREFIX : string := "static-cms/".

(** [a ?? b]: [b] when [a] is null or undefined, also when [a] is the
    empty string. *)
Definition nullish {A : Type} (a : option A) (b : A) : A :=
  match a with Some v => v | None => b end.

(** [labelPrefix = None] is an undefined prefix. *)
Definition getLabelPrefix (labelPrefix : option string) : string :=
  nullish labelPrefix DEFAULT_STATIC_CMS_LABEL_PREFIX.

Definition isCMSLabel (label : string) (labelPrefix : option string) : bool :=
  startsWith label (getLabelPrefix labelPrefix).

(** [slice] gives a string, which [??] finds defined. *)
Definition labelToStatus (label : string) (labelPrefix : option string) : string :=
  nullish (Some (slice label (len (getLabelPrefix labelPrefix)) None)) "draft".

Definition statusToLabel (status : string) (labelPrefix : option string) : string :=
  getLabelPrefix labelPrefix ++ status.

Definition contentKeyFromBranch (branch : string) : string :=
  slice branch (len (CMS_BRANCH_PREFIX ++ "/")) None.

Definition branchFromContentKey (contentKey : string) : string :=
  CMS_BRANCH_PREFIX ++ "/" ++ contentKey.

End APIUtils.

(* ===================================================================== *)
(** ** What is stated of a request *)
(* ===================================================================== *)

(** [Respects R m]: the process after [m] is related by [R] to the process
    before it, whatever [m] returns or throws.  For a preorder [R] this
    passes through the control structures of a handler. *)
Definition Respects {A : Type} (R : Runtime.World -> Runtime.World -> Prop)
           (m : Runtime.M A) : Prop :=
  forall w, R w (snd (m w)).

(** What the lock and the branches look like from outside. *)
Definition observed (w : Runtime.World) : nat * string * list string :=
  (Runtime.lockCount w, Runtime.current (Runtime.git w), Runtime.all (Runtime.git w)).

Definition unchanged (w w' : Runtime.World) : Prop := observed w' = observed w.

(** [Stable m]: [m] leaves the lock count, the current branch and the list
    of branches as they were. *)
Definition Stable {A : Type} (m : Runtime.M A) : Prop := Respects unchanged m.

Definition sameLock (w w' : Runtime.World) : Prop :=
  Runtime.lockCount w' = Runtime.lockCount w.

Definition sameBranches (w w' : Runtime.World) : Prop :=
  Runtime.all (Runtime.git w') = Runtime.all (Runtime.git w).

(** *** The log *)

(** The log of [w'] is the log of [w] with [added] after it. *)
Definition grownBy (added : list (Runtime.Event * bool)) (w w' : Runtime.World) : Prop :=
  Runtime.log w' = (Runtime.log w ++ added)%list.

Definition grows (w w' : Runtime.World) : Prop := exists added, grownBy added w w'.

Definition isRename (e : Runtime.Event) : bool :=
  match e with Runtime.ERename _ _ => true | _ => false end.

(** No call of [added] is a rename. *)
Definition noRename (added : list (Runtime.Event * bool)) : Prop :=
  Forall (fun x => isRename (fst x) = false) added.

(** A process without unawaited functions stays without them and makes no
    rename. *)
Definition calm (w w' : Runtime.World) : Prop :=
  Runtime.pending w = [] ->
  Runtime.pending w' = [] /\ exists added, grownBy added w w' /\ noRename added.

(** No call of an asynchronous function is a rename. *)
Inductive RenameFree {A : Type} : Io.t A -> Prop :=
| RenameFree_Ret (a : A) : RenameFree (Io.Ret a)
| RenameFree_Throw (e : string) : RenameFree (Io.Throw e)
| RenameFree_Await {R : Type} (op : Fs.Op R) (k : Result R -> Io.t A) :
    isRename (Runtime.eventOf op) = false ->
    (forall r, RenameFree (k r)) ->
    RenameFree (Io.Await op k).

(** Among [added] is the rename of [from] to [to], or the failure to make
    the directory of [to], after which [move] gives up. *)
Definition renameAttempted (from to : string) (added : list (Runtime.Event * bool)) : Prop :=
  (exists ok, In (Runtime.ERename from to, ok) added)
  \/ In (Runtime.EMkdir (NodePath.dirname to), false) added.

(** An unawaited [move] of [from] to [to] that has not called [rename]
    yet: it is about to make the directory of [to] and will call [rename]
    next, or it is about to call [rename]. *)
Definition aboutToRename (from to : string) (job : Io.t unit) : Prop :=
  (exists k, job = Io.Await (Fs.Mkdir (NodePath.dirname to)) k
             /\ exists k', k (Ok tt) = Io.Await (Fs.Rename from to) k')
  \/ (exists k', job = Io.Await (Fs.Rename from to) k').

(** Since the log was [base], the rename of [from] to [to] has been
    attempted or its [move] is among the unawaited functions. *)
Definition inFlight (from to : string) (base : list (Runtime.Event * bool))
           (w : Runtime.World) : Prop :=
  exists added,
    Runtime.log w = (base ++ added)%list
    /\ (renameAttempted from to added
        \/ exists i job, nth_error (Runtime.pending w) i = Some job
                         /\ aboutToRename from to job).

(** The file [from] was written, and later the rename of [from] to [to]
    was called. *)
Definition writtenThenRenamed (from to : string) (l : list (Runtime.Event * bool)) : Prop :=
  exists l1 l2 l3 ok,
    l = (l1 ++ (Runtime.EWriteFile from, true) :: l2
            ++ (Runtime.ERename from to, ok) :: l3)%list.

(** *** What a call leaves as it was *)

(** [keeps proj w w']: what [proj] reads of the process is in [w'] what
    it was in [w]. *)
Definition keeps {X : Type} (proj : Runtime.World -> X) (w w' : Runtime.World) : Prop :=
  proj w' = proj w.

(** What has been sent and what has been given to the logger. *)
Definition told (w : Runtime.World) : list Response * list string :=
  (Runtime.responses w, Runtime.logged w).

Definition commitsOf (w : Runtime.World) : list Runtime.Commit :=
  Runtime.commits (Runtime.git w).

(** [Answers m]: [m] sends one response, of status 200 or 422, and
    returns, or it throws and has sent none; it gives nothing to the
    logger. *)
Definition Answers {A : Type} (m : Runtime.M A) : Prop :=
  forall w,
    match m w with
    | (Ok _, w') =>
        exists x, Runtime.responses w' = (Runtime.responses w ++ [x])%list
                  /\ Runtime.logged w' = Runtime.logged w
                  /\ (status x = 200 \/ status x = 422)
    | (Thrown _, w') => told w' = told w
    end.

(** The tips of the branches and the commits of the repository. *)
Definition history (w : Runtime.World)
  : list (string * Fs.Node) * list Runtime.Commit :=
  (Runtime.heads (Runtime.git w), Runtime.commits (Runtime.git w)).

(** With the repository on branch [b], a process without unawaited
    functions stays without them and keeps its working tree and its
    repository, the index included. *)
Definition undisturbed (b : string) (w w' : Runtime.World) : Prop :=
  Runtime.pending w = [] -> Runtime.current (Runtime.git w) = b ->
  Runtime.pending w' = []
  /\ Runtime.files w' = Runtime.files w
  /\ Runtime.git w' = Runtime.git w.

(** An asynchronous function whose calls are all [readdir]. *)
Inductive Reads {A : Type} : Io.t A -> Prop :=
| Reads_Ret (a : A) : Reads (Io.Ret a)
| Reads_Throw (e : string) : Reads (Io.Throw e)
| Reads_Await (dir : string) (k : Result (list Fs.Dirent) -> Io.t A) :
    (forall r, Reads (k r)) -> Reads (Io.Await (Fs.Readdir dir) k).

(** The actions that write to the repository. *)
Definition writeActions : list string :=
  [ "persistEntry"; "persistMedia"; "deleteFile"; "deleteFiles" ].

(** *** The commits of a request *)

(** The history of [w'] is the history of [w] and one commit more, on
    branch [b] with message [m]. *)
Definition committed (b m : string) (w w' : Runtime.World) : Prop :=
  exists tree,
    commitsOf w'
    = (commitsOf w
       ++ [ {| Runtime.onBranch := b; Runtime.commitMessage := m;
               Runtime.tree := tree |} ])%list.

(** [Commits b m f]: run on branch [b], [f] makes at most one commit, on
    [b] with message [m]; it makes none where nothing is staged. *)
Definition Commits (b m : string) {A : Type} (f : Runtime.M A) : Prop :=
  forall w,
    Runtime.current (Runtime.git w) = b ->
    commitsOf (snd (f w)) = commitsOf w \/ committed b m w (snd (f w)).

(** The commit message the parameters of a writing action carry. *)
Definition commitMessageOf (p : Payload) : option string :=
  match p with
  | PersistEntryParams _ _ _ m | PersistMediaParams _ m
  | DeleteFileParams _ m | DeleteFilesParams _ m => Some m
  | _ => None
  end.

(** The one commit a request for [body] may make: on the branch and with
    the message of its parameters. *)
Definition accounted (body : Body) (w w' : Runtime.World) : Prop :=
  exists ps m,
    params body = Some ps
    /\ commitMessageOf (payload ps) = Some m
    /\ committed (branch ps) m w w'.

(** The calls to git. *)
Definition isGitCall (e : Runtime.Event) : bool :=
  match e with
  | Runtime.EBranchLocal | Runtime.ECheckout _ | Runtime.EAdd | Runtime.ECommit _ => true
  | _ => false
  end.

(** An environment in which no call to git is made to fail. *)
Definition gitWorks (env : Runtime.Env) : Prop :=
  forall e t, isGitCall e = true -> Runtime.fault env e t = false.

(** An environment in which no call is made to fail. *)
Definition faultless (env : Runtime.Env) : Prop :=
  forall e t, Runtime.fault env e t = false.


(** *** The branch after a request *)

(** Among the calls made from [w] to [w'] is a checkout of [home] that
    failed. *)
Definition restoreFailed (home : string) (w w' : Runtime.World) : Prop :=
  exists added,
    grownBy added w w' /\ In (Runtime.ECheckout home, false) added.

(** [Restores b m]: [m] leaves the repository on the branch it found it
    on, or it throws with the repository on [b], after the checkout of
    the branch it found has failed. *)
Definition Restores (b : string) {A : Type} (m : Runtime.M A) : Prop :=
  forall w,
    grows w (snd (m w))
    /\ (Runtime.current (Runtime.git (snd (m w))) = Runtime.current (Runtime.git w)
        \/ (exists e, fst (m w) = Thrown e)
           /\ Runtime.current (Runtime.git (snd (m w))) = b
           /\ restoreFailed (Runtime.current (Runtime.git w)) w (snd (m w))).

(** *** What the answer 200 to a writing action tells *)

(** Among the calls made from [w] to [w'] are a [git add] and a
    [git commit] with message [m] that git has carried out. *)
Definition saved (m : string) (w w' : Runtime.World) : Prop :=
  exists added,
    grownBy added w w'
    /\ In (Runtime.EAdd, true) added
    /\ In (Runtime.ECommit m, true) added.

(** [Saves m f]: when [f] returns, [git add] and [git commit] with
    message [m] have been carried out. *)
Definition Saves (m : string) {A : Type} (f : Runtime.M A) : Prop :=
  forall w,
    match f w with
    | (Ok _, w') => saved m w w'
    | (Thrown _, _) => True
    end.

(** *** One unawaited function *)

(** The process has no unawaited function and its tree is [T], or it has
    one, which left alone leaves [T]. *)
Definition heading (env : Runtime.Env) (T : Fs.Node) (u : Runtime.World) : Prop :=
  (Runtime.pending u = [] /\ Runtime.files u = T)
  \/ (exists job, Runtime.pending u = [job]
                  /\ Runtime.files (Runtime.runToEnd env job u) = T).
Create HintDb stable.

(** The conjuncts of a goal, one by one. *)
Ltac conjuncts := repeat match goal with |- _ /\ _ => split end.

(* ===================================================================== *)
(** ** Facts about strings *)
(* ===================================================================== *)

Section StringFacts.
Import JsString.

Lemma substring_all (s : string) : String.substring 0 (String.length s) s = s.
Proof. induction s as [|a s IH]; simpl; [reflexivity | now rewrite IH]. Qed.

Lemma substring_app_left (s t : string) :
  String.substring 0 (String.length s) (s ++ t) = s.
Proof. induction s as [|a s IH]; simpl; [now destruct t | now rewrite IH]. Qed.

Lemma substring_app_right (s t : string) (n : nat) :
  String.substring (String.length s) n (s ++ t) = String.substring 0 n t.
Proof. induction s as [|a s IH]; simpl; [reflexivity | exact IH]. Qed.

Lemma length_app (s t : string) :
  String.length (s ++ t) = (String.length s + String.length t)%nat.
Proof. induction s as [|a s IH]; simpl; [reflexivity | now rewrite IH]. Qed.

Lemma indexOf_from_shift (s p : string) (i : Z) :
  (indexOf_from s p i = (-1)%Z /\ indexOf_from s p 0 = (-1)%Z) \/
  (indexOf_from s p i = (i + indexOf_from s p 0)%Z /\ (0 <= indexOf_from s p 0)%Z).
Proof.
  revert i; induction s as [|a s IH]; intros i; cbn [indexOf_from].
  - destruct (String.prefix p ""); [right; lia | now left].
  - destruct (String.prefix p (String a s)); [right; lia|].
    change (0 + 1)%Z with 1%Z.
    destruct (IH (i + 1)%Z) as [[H H0] | [H H0]];
      destruct (IH 1%Z) as [[H1 H2] | [H1 H2]]; lia.
Qed.

(** Without a slash in [c], the first slash of [c ++ "/" ++ s] is the
    separator. *)
Lemma indexOf_separator (c s : string) (i : Z) :
  includes c "/" = false ->
  indexOf_from (c ++ "/" ++ s) "/" i = (i + len c)%Z.
Proof.
  unfold includes, indexOf, len.
  revert i; induction c as [|a c IH]; intros i Hc.
  - cbn. replace (String.prefix "" s) with true by (now destruct s). lia.
  - apply Z.leb_gt in Hc. cbn [indexOf_from String.prefix] in Hc.
    cbn [append indexOf_from String.prefix].
    destruct (ascii_dec "/"%char a) as [<-|Hne].
    + exfalso. destruct c; simpl in Hc; lia.
    + change (String.length (String a c)) with (S (String.length c)).
      rewrite IH; [lia|].
      apply Z.leb_gt. change (0 + 1)%Z with 1%Z in Hc.
      destruct (indexOf_from_shift c "/" 1) as [[H H0] | [H H0]]; lia.
Qed.

End StringFacts.

(* ===================================================================== *)
(** ** What a computation leaves as it was *)
(* ===================================================================== *)

Section Respecting.
Import Runtime.
Variable R : World -> World -> Prop.
Hypothesis R_refl : forall w, R w w.
Hypothesis R_trans : forall w1 w2 w3, R w1 w2 -> R w2 w3 -> R w1 w3.

Lemma respects_ret {A : Type} (a : A) : Respects R (ret a).
Proof. intros w. apply R_refl. Qed.

Lemma respects_throw {A : Type} (e : string) : Respects R (@throw A e).
Proof. intros w. apply R_refl. Qed.

Lemma respects_bind {A B : Type} (m : M A) (f : A -> M B) :
  Respects R m -> (forall a, Respects R (f a)) -> Respects R (bind m f).
Proof.
  intros Hm Hf w. unfold bind. specialize (Hm w).
  destruct (m w) as [[a|e] w1]; cbn in *.
  - eapply R_trans; [exact Hm | apply Hf].
  - exact Hm.
Qed.

Lemma respects_tryCatch {A : Type} (body : M A) (handler : string -> M A) :
  Respects R body -> (forall e, Respects R (handler e)) ->
  Respects R (tryCatch body handler).
Proof.
  intros Hb Hh w. unfold tryCatch. specialize (Hb w).
  destruct (body w) as [[a|e] w1]; cbn in *.
  - exact Hb.
  - eapply R_trans; [exact Hb | apply Hh].
Qed.

Lemma respects_tryFinally {A : Type} (body : M A) (cleanup : M unit) :
  Respects R body -> Respects R cleanup -> Respects R (tryFinally body cleanup).
Proof.
  intros Hb Hc w. unfold tryFinally. specialize (Hb w).
  destruct (body w) as [r w1]; cbn in *. specialize (Hc w1).
  destruct (cleanup w1) as [[u|e] w2]; cbn in *;
    eapply R_trans; eassumption.
Qed.

Lemma respects_liftResult {A : Type} (r : Result A) :
  Respects R (LocalGit.liftResult r).
Proof. destruct r; [apply respects_ret | apply respects_throw]. Qed.

Lemma respects_forEach {A : Type} (f : A -> M unit) (l : list A) :
  (forall a, Respects R (f a)) -> Respects R (LocalGit.forEach f l).
Proof.
  intros Hf. induction l as [|x l IH]; cbn [LocalGit.forEach].
  - apply respects_ret.
  - apply respects_bind; [apply Hf | intros _; exact IH].
Qed.

End Respecting.

Lemma unchanged_refl (w : Runtime.World) : unchanged w w.
Proof. reflexivity. Qed.

Lemma unchanged_trans (w1 w2 w3 : Runtime.World) :
  unchanged w1 w2 -> unchanged w2 w3 -> unchanged w1 w3.
Proof. unfold unchanged. congruence. Qed.

(** What the changes of the repository leave as it was. *)
Section GitFacts.
Import Runtime.

Lemma current_commitStaged (m : string) (g : Git) :
  current (commitStaged m g) = current g.
Proof. unfold commitStaged. now destruct (nothingStaged g). Qed.

Lemma all_commitStaged (m : string) (g : Git) : all (commitStaged m g) = all g.
Proof. unfold commitStaged. now destruct (nothingStaged g). Qed.

(** [git commit] makes one commit, of the index, or none. *)
Lemma commits_commitStaged (m : string) (g : Git) :
  commits (commitStaged m g) = commits g
  \/ commits (commitStaged m g)
     = (commits g ++ [ {| onBranch := current g; commitMessage := m;
                          tree := index g |} ])%list.
Proof. unfold commitStaged. destruct (nothingStaged g); [now left | now right]. Qed.

(** *** A checkout that changes no file *)

Lemma contentEqb_refl (c : Fs.Content) : Fs.contentEqb c c = true.
Proof.
  unfold Fs.contentEqb. destruct (Fs.bytes c) as [x|] eqn:E.
  - apply String.eqb_refl.
  - destruct c; [discriminate|]. now rewrite !String.eqb_refl.
Qed.

Lemma sameContent_refl (x : option Fs.Content) : Fs.sameContent x x = true.
Proof. destruct x; cbn; [apply contentEqb_refl | reflexivity]. Qed.

Lemma verdict_same (files staged head : Fs.Node) (p : list string) :
  verdict files staged head head p = Keep.
Proof. unfold verdict. now rewrite sameContent_refl. Qed.

Lemma kept_settled (vs : list (list string * Verdict)) :
  Forall (fun pv => snd pv = Keep) vs -> filter (fun pv => settles (snd pv)) vs = [].
Proof.
  induction 1 as [|[p v] vs Hv _ IH]; cbn in *; [reflexivity|]. now rewrite Hv.
Qed.

Lemma kept_refuse (vs : list (list string * Verdict)) :
  Forall (fun pv => snd pv = Keep) vs -> existsb (fun pv => isRefuse (snd pv)) vs = false.
Proof.
  induction 1 as [|[p v] vs Hv _ IH]; cbn in *; [reflexivity|]. now rewrite Hv.
Qed.

Lemma kept_dropFile (keep : nat) (vs : list (list string * Verdict)) (t : Fs.Node) :
  Forall (fun pv => snd pv = Keep) vs -> fold_left (dropFile keep) vs t = t.
Proof.
  induction 1 as [|[p v] vs Hv _ IH]; cbn in *; [reflexivity|].
  unfold dropFile at 2. cbn. now rewrite Hv.
Qed.

Lemma kept_inTheWay (files : Fs.Node) (vs : list (list string * Verdict)) :
  Forall (fun pv => snd pv = Keep) vs -> firstSome (inTheWay files) vs = None.
Proof.
  induction 1 as [|[p v] vs Hv _ IH]; cbn in *; [reflexivity|].
  unfold inTheWay at 1. cbn. now rewrite Hv.
Qed.

Lemma kept_takeFile (vs : list (list string * Verdict)) (t : Fs.Node) :
  Forall (fun pv => snd pv = Keep) vs -> fold_left takeFile vs (Some t) = Some t.
Proof.
  induction 1 as [|[p v] vs Hv _ IH]; cbn in *; [reflexivity|].
  now rewrite Hv.
Qed.

Lemma kept_stageFile (vs : list (list string * Verdict)) (t : Fs.Node) :
  Forall (fun pv => snd pv = Keep) vs -> fold_left stageFile vs t = t.
Proof.
  induction 1 as [|[p v] vs Hv _ IH]; cbn in *; [reflexivity|].
  unfold stageFile at 2. cbn. now rewrite Hv.
Qed.

(** Checking out the branch the repository is on changes nothing,
    whatever was changed or staged. *)
Lemma switch_same (g : Git) (files : Fs.Node) :
  switch g files (current g) = Ok (files, index g).
Proof.
  unfold switch.
  set (paths := (Fs.filePaths (index g) ++ _)%list).
  assert (Hp : map (fun p => (p, verdict files (index g) (headOf g (current g))
                                   (headOf g (current g)) p)) paths
               = map (fun p => (p, Keep)) paths).
  { apply map_ext. intros p. now rewrite verdict_same. }
  cbv zeta. rewrite Hp.
  assert (Hk : Forall (fun pv : list string * Verdict => snd pv = Keep)
                     (map (fun p : list string => (p, Keep)) paths)).
  { rewrite Forall_map. apply Forall_forall. now intros. }
  rewrite (kept_settled _ Hk). cbn [map].
  assert (Hv : map (fun pv : list string * Verdict =>
                      if covered [] (fst pv)
                      then (fst pv, verdictUnder files (index g) (fst pv) (snd pv))
                      else pv) (map (fun p => (p, Keep)) paths)
               = map (fun p => (p, Keep)) paths).
  { rewrite <- (map_id (map (fun p => (p, Keep)) paths)) at 2.
    apply map_ext. intros pv. reflexivity. }
  rewrite Hv, (kept_refuse _ Hk), !(kept_dropFile _ _ _ Hk),
    (kept_inTheWay _ _ Hk), (kept_takeFile _ _ Hk), (kept_stageFile _ _ Hk).
  reflexivity.
Qed.

Lemma setIndex_setCurrent_same (g : Git) :
  setIndex (index g) (setCurrent (current g) g) = g.
Proof. now destruct g. Qed.

End GitFacts.

Section StableFacts.
Import Runtime.
Variable env : Env.

Lemma performFs_unchanged {R : Type} (op : Fs.Op R) (w : World) :
  unchanged w (snd (performFs env op w)).
Proof.
  unfold performFs. destruct (fault env (eventOf op) (now w)); [reflexivity|].
  destruct (Fs.perform op (files w)) as [[r|m] root]; reflexivity.
Qed.

Lemma stepPending_unchanged (i : nat) (w : World) :
  unchanged w (stepPending env i w).
Proof.
  unfold stepPending.
  destruct (nth_error (pending w) i) as [[u|e|X op k]|]; try reflexivity.
  pose proof (performFs_unchanged op w) as H.
  destruct (performFs env op w) as [r w']; cbn in H.
  destruct (k r); exact H.
Qed.

Lemma runScheduled_unchanged (w : World) : unchanged w (runScheduled env w).
Proof.
  unfold runScheduled. generalize (schedule env (now w)) as l.
  intros l; revert w; induction l as [|i l IH]; intros w; cbn.
  - reflexivity.
  - eapply unchanged_trans; [apply stepPending_unchanged | apply IH].
Qed.

Lemma stable_await {A : Type} (call : World -> Result A * World) :
  (forall w, unchanged w (snd (call w))) -> Stable (await env call).
Proof.
  intros H w. unfold await.
  eapply unchanged_trans; [apply runScheduled_unchanged | apply H].
Qed.

Lemma stable_run {A : Type} (f : Io.t A) : Stable (run env f).
Proof.
  induction f as [a|e|X op k IH]; cbn [run].
  - apply respects_ret, unchanged_refl.
  - apply respects_throw, unchanged_refl.
  - intros w.
    pose proof (performFs_unchanged op (runScheduled env w)) as H.
    destruct (performFs env op (runScheduled env w)) as [r w']; cbn in H.
    eapply unchanged_trans; [apply runScheduled_unchanged|].
    eapply unchanged_trans; [exact H | apply IH].
Qed.

Lemma stable_detach (f : Io.t unit) : Stable (detach f).
Proof. intros w. reflexivity. Qed.

Lemma stable_respond (code : nat) (x : option Json) : Stable (respond code x).
Proof. intros w. reflexivity. Qed.

Lemma stable_logError (m : string) : Stable (logError m).
Proof. intros w. reflexivity. Qed.

Lemma stable_gitCall {A : Type} (e : Event) (refused : Git -> option string)
      (result : Git -> A) (after : World -> Git) :
  (forall w, current (after w) = current (git w) /\ all (after w) = all (git w)) ->
  Stable (gitCall env e refused result after).
Proof.
  intros H. apply stable_await. intros w.
  destruct (fault env e (now w)); [reflexivity|].
  destruct (refused (git w)); [reflexivity|].
  destruct (H w) as [Hc Ha]. unfold unchanged, observed. cbn. now rewrite Hc, Ha.
Qed.

Lemma stable_branchLocal : Stable (branchLocal env).
Proof. apply stable_gitCall. intros w. split; reflexivity. Qed.

Lemma stable_add : Stable (add env).
Proof. apply stable_gitCall. intros w. split; reflexivity. Qed.

Lemma stable_gitCommit (m : string) : Stable (gitCommit env m).
Proof.
  apply stable_gitCall. intros w.
  split; [apply current_commitStaged | apply all_commitStaged].
Qed.

Lemma stable_readCall (e : Event) (read : Fs.Node -> Result Json) :
  Stable (readCall env e read).
Proof.
  apply stable_await. intros w.
  destruct (fault env e (now w)); [reflexivity|].
  destruct (read (files w)); reflexivity.
Qed.

Lemma stable_ret {A : Type} (a : A) : Stable (ret a).
Proof. apply respects_ret, unchanged_refl. Qed.

Lemma stable_throw {A : Type} (e : string) : Stable (@throw A e).
Proof. apply respects_throw, unchanged_refl. Qed.

Lemma stable_bind {A B : Type} (m : M A) (f : A -> M B) :
  Stable m -> (forall a, Stable (f a)) -> Stable (bind m f).
Proof. apply respects_bind, unchanged_trans. Qed.

Lemma stable_liftResult {A : Type} (r : Result A) : Stable (LocalGit.liftResult r).
Proof. apply respects_liftResult, unchanged_refl. Qed.

Lemma stable_forEach {A : Type} (f : A -> M unit) (l : list A) :
  (forall a, Stable (f a)) -> Stable (LocalGit.forEach f l).
Proof. apply respects_forEach; [apply unchanged_refl | apply unchanged_trans]. Qed.

Hint Resolve stable_run stable_detach stable_respond stable_logError
     stable_branchLocal stable_add stable_gitCommit stable_readCall
     stable_ret stable_throw stable_liftResult : stable.
Hint Extern 2 (Stable (bind _ _)) => apply stable_bind; [|intros ?] : stable.
Hint Extern 2 (Stable (LocalGit.forEach _ _)) => apply stable_forEach; intros ? : stable.

Lemma stable_commit (m : string) : Stable (LocalGit.commit env m).
Proof. unfold LocalGit.commit. auto with stable. Qed.

Lemma stable_getCurrentBranch : Stable (LocalGit.getCurrentBranch env).
Proof. unfold LocalGit.getCurrentBranch. auto with stable. Qed.

Lemma stable_isBranchExists (b : string) : Stable (LocalGit.isBranchExists env b).
Proof. unfold LocalGit.isBranchExists. auto with stable. Qed.

Hint Resolve stable_commit stable_getCurrentBranch stable_isBranchExists : stable.

Lemma stable_commitEntry (repoPath : string) (dataFiles : list DataFile.t)
      (assets : list Asset.t) (m : string) :
  Stable (LocalGit.commitEntry env repoPath dataFiles assets m).
Proof.
  unfold LocalGit.commitEntry.
  destruct (forallb LocalGit.hasNewPath dataFiles); auto 8 with stable.
Qed.

Lemma stable_onError (e : string) : Stable (LocalGit.onError e).
Proof. unfold LocalGit.onError. auto with stable. Qed.

Lemma stable_castError {A : Type} : Stable (@LocalGit.castError A).
Proof. apply stable_throw. Qed.

End StableFacts.

#[export] Hint Resolve stable_run stable_detach stable_respond stable_logError
  stable_branchLocal stable_add stable_gitCommit stable_readCall
  stable_ret stable_throw stable_liftResult
  stable_commit stable_getCurrentBranch stable_isBranchExists
  stable_commitEntry stable_onError stable_castError : stable.
#[export] Hint Extern 2 (Stable (Runtime.bind _ _)) =>
  apply stable_bind; [|intros ?] : stable.
#[export] Hint Extern 2 (Stable (LocalGit.forEach _ _)) =>
  apply stable_forEach; intros ? : stable.

(* ===================================================================== *)
(** ** The dispatcher, for any relation the branch guard respects *)
(* ===================================================================== *)

Section Dispatching.
Import Runtime.
Variable env : Env.
Variable R : World -> World -> Prop.
Hypothesis R_refl : forall w, R w w.
Hypothesis R_trans : forall w1 w2 w3, R w1 w2 -> R w2 w3 -> R w1 w3.
Hypothesis R_unchanged : forall w w', unchanged w w' -> R w w'.
Hypothesis R_runOnBranch :
  forall (A : Type) (branch : string) (func : M A),
    Stable func -> Respects R (LocalGit.runOnBranch env branch func).

Lemma stable_respects {A : Type} (m : M A) : Stable m -> Respects R m.
Proof. intros H w. apply R_unchanged, H. Qed.

Ltac guarded :=
  apply respects_bind;
  [ exact R_trans
  | apply R_runOnBranch; solve [auto 8 with stable]
  | intros ?; apply stable_respects; solve [auto 8 with stable] ].

Lemma respects_dispatch (repoPath action branch : string) (payload : Payload) :
  Respects R (LocalGit.dispatch env repoPath action branch payload).
Proof.
  unfold LocalGit.dispatch.
  repeat match goal with
         | |- Respects R (if ?c then _ else _) => destruct c
         end;
    try (apply stable_respects; auto with stable; fail);
    destruct payload;
    try (apply stable_respects; apply stable_castError);
    try guarded.
  destruct dataFiles as [given|]; [|destruct entry as [legacy|]]; guarded.
Qed.

Lemma respects_handle (repoPath : string) (body : Body) :
  Respects R (LocalGit.handle env repoPath body).
Proof.
  unfold LocalGit.handle.
  destruct (String.eqb (action body) "info").
  - apply stable_respects. auto with stable.
  - destruct (params body) as [ps|].
    + apply respects_bind; [exact R_trans | apply stable_respects; auto with stable |].
      intros exists_. destruct (negb exists_).
      * apply stable_respects. auto with stable.
      * apply respects_dispatch.
    + apply stable_respects. auto with stable.
Qed.

(** The [try] block with its [catch]. *)
Lemma respects_guardedHandle (repoPath : string) (body : Body) :
  Respects R (tryCatch (LocalGit.handle env repoPath body) LocalGit.onError).
Proof.
  apply respects_tryCatch; [exact R_trans | apply respects_handle |].
  intros e. apply stable_respects. auto with stable.
Qed.

End Dispatching.

(* ===================================================================== *)
(** ** The lock and the branch through a request *)
(* ===================================================================== *)

Section Guards.
Import Runtime.
Variable env : Env.

(** [checkout], call by call. *)
Lemma checkout_eq (b : string) (w : World) :
  checkout env b w
  = let w0 := runScheduled env w in
    if fault env (ECheckout b) (now w0)
    then (Thrown (injected (ECheckout b)), record (ECheckout b) false w0)
    else if JsonOps.mem b (all (git w0))
         then match switch (git w0) (files w0) b with
              | Ok (root, staged) =>
                  (Ok tt,
                   record (ECheckout b) true
                     (setFiles root
                        (setGit (setIndex staged (setCurrent b (git w0))) w0)))
              | Thrown m => (Thrown m, record (ECheckout b) false w0)
              end
         else (Thrown (pathspec b), record (ECheckout b) false w0).
Proof.
  unfold checkout, await. cbn zeta.
  destruct (fault env (ECheckout b) (now (runScheduled env w))); [reflexivity|].
  destruct (JsonOps.mem b (all (git (runScheduled env w)))); reflexivity.
Qed.

(** A checkout fails, and only the log tells, or it succeeds: the
    branch is one of the repository, git has switched the working tree
    and the index, and the repository is on the branch. *)
Lemma checkout_cases (b : string) (w : World) :
  (exists m,
      checkout env b w
      = (Thrown m, record (ECheckout b) false (runScheduled env w)))
  \/ (exists root staged,
        JsonOps.mem b (all (git (runScheduled env w))) = true
        /\ switch (git (runScheduled env w)) (files (runScheduled env w)) b
           = Ok (root, staged)
        /\ checkout env b w
           = (Ok tt,
              record (ECheckout b) true
                (setFiles root
                   (setGit (setIndex staged
                              (setCurrent b (git (runScheduled env w))))
                           (runScheduled env w))))).
Proof.
  rewrite checkout_eq. cbn zeta.
  destruct (fault env _ _); [left; eexists; reflexivity|].
  destruct (JsonOps.mem _ _); [|left; eexists; reflexivity].
  destruct (switch _ _ b) as [[root staged]|m]; [|left; eexists; reflexivity].
  right. exists root, staged. repeat split.
Qed.

(** *** The lock *)

Lemma sameLock_trans (w1 w2 w3 : World) :
  sameLock w1 w2 -> sameLock w2 w3 -> sameLock w1 w3.
Proof. unfold sameLock. congruence. Qed.

Lemma unchanged_sameLock (w w' : World) : unchanged w w' -> sameLock w w'.
Proof. unfold unchanged, observed, sameLock. congruence. Qed.

Lemma checkout_sameLock (b : string) : Respects sameLock (checkout env b).
Proof.
  intros w.
  pose proof (unchanged_sameLock _ _ (runScheduled_unchanged env w)) as H.
  destruct (checkout_cases b w) as [[m E] | [root [staged [_ [_ E]]]]];
    rewrite E; exact H.
Qed.

Lemma runOnBranch_sameLock (A : Type) (branch : string) (func : M A) :
  Stable func -> Respects sameLock (LocalGit.runOnBranch env branch func).
Proof.
  intros Hf. unfold LocalGit.runOnBranch.
  apply respects_bind; [exact sameLock_trans | |].
  - intros w. apply unchanged_sameLock, stable_getCurrentBranch.
  - intros c. apply respects_tryFinally; [exact sameLock_trans | | apply checkout_sameLock].
    apply respects_bind; [exact sameLock_trans | |].
    + destruct (negb (String.eqb c branch)); [apply checkout_sameLock|].
      intros w. reflexivity.
    + intros _. apply respects_bind; [exact sameLock_trans | |].
      * intros w. apply unchanged_sameLock, Hf.
      * intros r w. reflexivity.
Qed.

(** The body of the [try] with its [catch] does not touch the lock. *)
Lemma guardedHandle_sameLock (repoPath : string) (body : Body) :
  Respects sameLock (tryCatch (LocalGit.handle env repoPath body) LocalGit.onError).
Proof.
  apply respects_guardedHandle.
  - exact sameLock_trans.
  - exact unchanged_sameLock.
  - exact runOnBranch_sameLock.
Qed.

End Guards.

Section Locking.
Import Runtime.
Variable env : Env.

Lemma acquire_eq (e : string) (w : World) :
  acquire env e w
  = let w0 := runScheduled env w in
    match lockCount w0 with
    | O => (Ok tt, record EAcquire true (setLockCount 1 w0))
    | S _ => (Thrown e, record EAcquire false w0)
    end.
Proof. reflexivity. Qed.

Lemma runScheduled_lockCount (w : World) :
  lockCount (runScheduled env w) = lockCount w.
Proof. exact (unchanged_sameLock _ _ (runScheduled_unchanged env w)). Qed.

(** The request of a free server: where its [try] and [catch] end, and
    that its last call is the release. *)
Lemma localGitMiddleware_free (repoPath : string) (body : Body) (w : World) :
  lockCount w = 0 ->
  exists w2,
    lockCount w2 = 1
    /\ snd (LocalGit.localGitMiddleware env repoPath body w)
       = record ERelease true (setLockCount 0 w2).
Proof.
  intros H0. unfold LocalGit.localGitMiddleware. rewrite acquire_eq. cbn zeta.
  rewrite runScheduled_lockCount, H0. unfold tryFinally.
  pose proof (guardedHandle_sameLock env repoPath body
                (record EAcquire true (setLockCount 1 (runScheduled env w)))) as H.
  destruct (tryCatch (LocalGit.handle env repoPath body) LocalGit.onError
                     (record EAcquire true (setLockCount 1 (runScheduled env w))))
    as [r w2].
  unfold sameLock in H. cbn in H. exists w2. split; [exact H|].
  cbn. rewrite H. reflexivity.
Qed.

(** The request of a server whose lock is held. *)
Lemma localGitMiddleware_held (repoPath : string) (body : Body) (w : World) :
  lockCount w <> 0 ->
  LocalGit.localGitMiddleware env repoPath body w
  = (Ok tt,
     addResponse {| status := 500; json := LocalGit.error "Unknown error" |}
       (addLogged "Request timed out"
          (record EAcquire false (runScheduled env w)))).
Proof.
  intros H. unfold LocalGit.localGitMiddleware. rewrite acquire_eq. cbn zeta.
  rewrite runScheduled_lockCount.
  destruct (lockCount w) as [|n]; [contradiction|]. reflexivity.
Qed.

End Locking.

(* ===================================================================== *)
(** ** Awaited filesystem functions *)
(* ===================================================================== *)

Section RunFacts.
Import Runtime.
Variable env : Env.

Lemma run_bind {A B : Type} (m : Io.t A) (f : A -> Io.t B) (w : World) :
  run env (Io.bind m f) w
  = match run env m w with
    | (Ok a, w') => run env (f a) w'
    | (Thrown e, w') => (Thrown e, w')
    end.
Proof.
  revert w. induction m as [a|e|X op k IH]; intros w; cbn [Io.bind run].
  - reflexivity.
  - reflexivity.
  - destruct (performFs env op (runScheduled env w)) as [r w']. apply IH.
Qed.

Lemma run_tryCatch {A : Type} (m : Io.t A) (h : string -> Io.t A) (w : World) :
  run env (Io.tryCatch m h) w
  = match run env m w with
    | (Ok a, w') => (Ok a, w')
    | (Thrown e, w') => run env (h e) w'
    end.
Proof.
  revert w. induction m as [a|e|X op k IH]; intros w; cbn [Io.tryCatch run].
  - reflexivity.
  - reflexivity.
  - destruct (performFs env op (runScheduled env w)) as [r w']. apply IH.
Qed.

Lemma run_call {R : Type} (op : Fs.Op R) (w : World) :
  run env (Io.call op) w = performFs env op (runScheduled env w).
Proof.
  unfold Io.call. cbn [run].
  destruct (performFs env op (runScheduled env w)) as [[r|e] w']; reflexivity.
Qed.

Lemma run_settled {A : Type} (m : Io.t A) (w : World) :
  run env (Io.settled m) w = (Ok (fst (run env m w)), snd (run env m w)).
Proof.
  unfold Io.settled. rewrite run_tryCatch, run_bind.
  destruct (run env m w) as [[a|e] w']; reflexivity.
Qed.

(** [Promise.all]: the promises run in turn, each to its end. *)
Lemma run_all_cons {A : Type} (p : Io.t A) (rest : list (Io.t A)) (w : World) :
  run env (Io.all (p :: rest)) w
  = let (r, w1) := run env p w in
    let (rs, w2) := run env (Io.all rest) w1 in
    (match r, rs with
     | Ok a, Ok l => Ok (a :: l)
     | Thrown e, _ => Thrown e
     | Ok _, Thrown e => Thrown e
     end, w2).
Proof.
  cbn [Io.all]. rewrite run_bind, run_settled.
  destruct (run env p w) as [r w1]. cbn [fst snd].
  rewrite run_bind, run_settled.
  destruct (run env (Io.all rest) w1) as [rs w2]. cbn [fst snd].
  destruct r, rs; reflexivity.
Qed.

End RunFacts.

(* ===================================================================== *)
(** ** Paths *)
(* ===================================================================== *)

Section PathFacts.
Import JsString.

Lemma append_nonempty_r (a b : string) : b <> "" -> a ++ b <> "".
Proof. destruct a; cbn; [auto | discriminate]. Qed.

Lemma normalize_nonempty (p : string) : NodePath.normalize p <> "".
Proof.
  unfold NodePath.normalize.
  destruct (String.eqb p ""); [discriminate|].
  destruct (String.eqb_spec (NodePath.normalizeString p (negb (NodePath.isAbsolute p))) "")
    as [E|E].
  - destruct (NodePath.isAbsolute p); [discriminate|].
    destruct (NodePath.hasTrailingSeparator p); discriminate.
  - destruct (NodePath.isAbsolute p); [discriminate|].
    destruct (NodePath.hasTrailingSeparator p); [|exact E].
    apply append_nonempty_r. discriminate.
Qed.

Lemma join2_nonempty (a b : string) : NodePath.join2 a b <> "".
Proof.
  unfold NodePath.join2, NodePath.join_all.
  destruct (filter _ _); [discriminate | apply normalize_nonempty].
Qed.

Lemma substring_zero (n : nat) (s : string) : String.substring n 0 s = "".
Proof. revert n. induction s as [|c s IH]; intros [|n]; cbn; auto. Qed.

(** The empty extension matches every name. *)
Lemma endsWith_empty (s : string) : endsWith s "" = true.
Proof. unfold endsWith. cbn. now rewrite substring_zero. Qed.

(** An entry passes [f => f.file] exactly when its path ends with the
    extension. *)
Lemma hasFile_matching (a b extension : string) (isDir : bool) :
  FsUtils.hasFile {| FsUtils.file := FsUtils.matching (NodePath.join2 a b) extension;
                     FsUtils.isDirectory := isDir |}
  = endsWith (NodePath.join2 a b) extension.
Proof.
  unfold FsUtils.hasFile, FsUtils.matching. cbn [FsUtils.file filter].
  pose proof (join2_nonempty a b) as Hne.
  set (res := NodePath.join2 a b) in *.
  destruct (endsWith res extension); cbn [hd_error]; [|reflexivity].
  destruct (String.eqb_spec res ""); [contradiction | reflexivity].
Qed.

End PathFacts.

(* ===================================================================== *)
(** ** The log and the unawaited functions *)
(* ===================================================================== *)

Section LogFacts.
Import Runtime.
Variable env : Env.

Lemma grows_refl (w : World) : grows w w.
Proof. exists []. unfold grownBy. now rewrite app_nil_r. Qed.

Lemma grows_trans (w1 w2 w3 : World) : grows w1 w2 -> grows w2 w3 -> grows w1 w3.
Proof.
  intros [a1 H1] [a2 H2]. exists (a1 ++ a2)%list. unfold grownBy in *.
  now rewrite H2, H1, app_assoc.
Qed.

Lemma grows_record (e : Event) (ok : bool) (w : World) : grows w (record e ok w).
Proof. exists [(e, ok)]. reflexivity. Qed.

(** A filesystem call adds its entry to the log and leaves the unawaited
    functions as they were; it succeeds exactly when the entry says so. *)
Lemma performFs_cases {R : Type} (op : Fs.Op R) (w : World) :
  (exists r root,
      performFs env op w = (Ok r, record (eventOf op) true (setFiles root w)))
  \/ (exists m, performFs env op w = (Thrown m, record (eventOf op) false w)).
Proof.
  unfold performFs. destruct (fault env (eventOf op) (now w)).
  - right. eexists. reflexivity.
  - destruct (Fs.perform op (files w)) as [[r|m] root].
    + left. eexists. eexists. reflexivity.
    + right. eexists. reflexivity.
Qed.

Lemma performFs_log {R : Type} (op : Fs.Op R) (w : World) :
  exists ok, log (snd (performFs env op w)) = (log w ++ [(eventOf op, ok)])%list
             /\ pending (snd (performFs env op w)) = pending w
             /\ (ok = false -> exists m, fst (performFs env op w) = Thrown m).
Proof.
  destruct (performFs_cases op w) as [[r [root E]] | [m E]]; rewrite E; cbn.
  - exists true. repeat split. discriminate.
  - exists false. repeat split. intros _. now exists m.
Qed.

Lemma performFs_grows {R : Type} (op : Fs.Op R) (w : World) :
  grows w (snd (performFs env op w)).
Proof.
  destruct (performFs_log op w) as [ok [H _]]. exists [(eventOf op, ok)]. exact H.
Qed.

(** *** Positions among the unawaited functions *)

Lemma nth_error_replaceNth_same {A : Type} (i : nat) (x : A) (l : list A) (y : A) :
  nth_error l i = Some y -> nth_error (replaceNth i (Some x) l) i = Some x.
Proof.
  revert i. induction l as [|a l IH]; intros [|i] H; cbn in *; try discriminate.
  - reflexivity.
  - now apply IH.
Qed.

Lemma nth_error_replaceNth_other {A : Type} (i i' : nat) (x : option A) (l : list A) (y : A) :
  i <> i' -> nth_error l i' = Some y ->
  exists i'', nth_error (replaceNth i x l) i'' = Some y.
Proof.
  revert i i'. induction l as [|a l IH]; intros i i' Hne H.
  - destruct i'; discriminate.
  - destruct i as [|i], i' as [|i']; cbn in *.
    + contradiction.
    + destruct x; [exists (S i') | exists i']; exact H.
    + exists 0. exact H.
    + destruct (IH i i' (fun E => Hne (f_equal S E)) H) as [i'' Hi].
      exists (S i''). exact Hi.
Qed.

Lemma grows_same_log (w w' : World) : log w' = log w -> grows w w'.
Proof. intros H. exists []. unfold grownBy. now rewrite app_nil_r. Qed.

Lemma stepPending_grows (i : nat) (w : World) : grows w (stepPending env i w).
Proof.
  unfold stepPending.
  destruct (nth_error (pending w) i) as [[u|e|X op k]|].
  - now apply grows_same_log.
  - exists [(EUnhandledRejection e, false)]. reflexivity.
  - pose proof (performFs_grows op w) as H.
    destruct (performFs env op w) as [r w']; cbn in H.
    destruct (k r); (eapply grows_trans; [exact H|]).
    + now apply grows_same_log.
    + eexists [(EUnhandledRejection _, false)]. reflexivity.
    + now apply grows_same_log.
  - apply grows_refl.
Qed.

(** Stepping one function leaves the others among the unawaited ones. *)
Lemma stepPending_others (i i' : nat) (w : World) (job : Io.t unit) :
  i <> i' -> nth_error (pending w) i' = Some job ->
  exists i'', nth_error (pending (stepPending env i w)) i'' = Some job.
Proof.
  intros Hne H. unfold stepPending.
  destruct (nth_error (pending w) i) as [[u|e|X op k]|] eqn:E.
  - cbn. eapply nth_error_replaceNth_other; eassumption.
  - cbn. eapply nth_error_replaceNth_other; eassumption.
  - destruct (performFs_log op w) as [ok [_ [Hp _]]].
    destruct (performFs env op w) as [r w']; cbn in Hp.
    destruct (k r); cbn; rewrite Hp;
      eapply nth_error_replaceNth_other; eassumption.
  - exists i'. exact H.
Qed.

Lemma runScheduled_grows (w : World) : grows w (runScheduled env w).
Proof.
  unfold runScheduled. generalize (schedule env (now w)) as l.
  intros l; revert w; induction l as [|i l IH]; intros w; cbn.
  - apply grows_refl.
  - eapply grows_trans; [apply stepPending_grows | apply IH].
Qed.

Lemma run_grows {A : Type} (f : Io.t A) (w : World) : grows w (snd (run env f w)).
Proof.
  revert w. induction f as [a|e|X op k IH]; intros w; cbn [run].
  - apply grows_refl.
  - apply grows_refl.
  - pose proof (performFs_grows op (runScheduled env w)) as H.
    destruct (performFs env op (runScheduled env w)) as [r w']; cbn in H.
    eapply grows_trans; [apply runScheduled_grows|].
    eapply grows_trans; [exact H | apply IH].
Qed.

Lemma runToEnd_grows (job : Io.t unit) (w : World) : grows w (runToEnd env job w).
Proof.
  revert w. induction job as [a|e|X op k IH]; intros w; cbn [runToEnd].
  - apply grows_refl.
  - apply grows_record.
  - pose proof (performFs_grows op w) as H.
    destruct (performFs env op w) as [r w']; cbn in H.
    eapply grows_trans; [exact H | apply IH].
Qed.

(** *** A [move] that was started and not awaited *)

Lemma renameAttempted_app (from to : string) (a b : list (Event * bool)) :
  renameAttempted from to a -> renameAttempted from to (a ++ b).
Proof.
  intros [[ok H] | H]; [left; exists ok | right]; apply in_or_app; now left.
Qed.

Lemma renameAttempted_app_r (from to : string) (a b : list (Event * bool)) :
  renameAttempted from to b -> renameAttempted from to (a ++ b).
Proof.
  intros [[ok H] | H]; [left; exists ok | right]; apply in_or_app; now right.
Qed.

Lemma move_aboutToRename (from to : string) :
  aboutToRename from to (FsUtils.move from to).
Proof. left. eexists. split; [reflexivity|]. eexists. reflexivity. Qed.

(** The attempt stays in the log, whatever is logged after it. *)
Lemma inFlight_attempted (from to : string) (base added : list (Event * bool))
      (w w' : World) :
  log w = (base ++ added)%list -> renameAttempted from to added -> grows w w' ->
  inFlight from to base w'.
Proof.
  intros Hlog Hatt [more Hmore]. exists (added ++ more)%list. split.
  - unfold grownBy in Hmore. now rewrite Hmore, Hlog, app_assoc.
  - left. now apply renameAttempted_app.
Qed.

(** A call of the request itself: the log grows, the unawaited functions
    are as they were. *)
Lemma inFlight_call (from to : string) (base : list (Event * bool)) (w w' : World) :
  grows w w' -> pending w' = pending w ->
  inFlight from to base w -> inFlight from to base w'.
Proof.
  intros Hg Hp [added [Hlog [Hatt | Hjob]]].
  - eapply inFlight_attempted; eassumption.
  - destruct Hg as [more Hmore]. exists (added ++ more)%list. split.
    + unfold grownBy in Hmore. now rewrite Hmore, Hlog, app_assoc.
    + right. now rewrite Hp.
Qed.

(** An unawaited function makes a call. *)
Lemma inFlight_step (from to : string) (base : list (Event * bool)) (i : nat) (w : World) :
  inFlight from to base w -> inFlight from to base (stepPending env i w).
Proof.
  intros [added [Hlog [Hatt | [i' [job [Hnth Hjob]]]]]].
  - eapply inFlight_attempted; [eassumption | eassumption | apply stepPending_grows].
  - destruct (Nat.eq_dec i i') as [->|Hne].
    + unfold stepPending. rewrite Hnth.
      destruct Hjob as [[k [-> [k' Hk]]] | [k' ->]].
      * destruct (performFs_cases (Fs.Mkdir (NodePath.dirname to)) w)
          as [[[] [root E]] | [m E]]; rewrite E.
        -- rewrite Hk. exists (added ++ [(EMkdir (NodePath.dirname to), true)])%list.
           split; [cbn; now rewrite Hlog, app_assoc|].
           right. exists i'. eexists. split.
           ++ cbn. eapply nth_error_replaceNth_same. exact Hnth.
           ++ right. eexists. reflexivity.
        -- assert (Hin : renameAttempted from to
                           (added ++ [(EMkdir (NodePath.dirname to), false)])).
           { apply renameAttempted_app_r. right. now left. }
           assert (Hl : log (record (EMkdir (NodePath.dirname to)) false w)
                        = (base ++ added ++ [(EMkdir (NodePath.dirname to), false)])%list).
           { cbn. now rewrite Hlog, app_assoc. }
           destruct (k (Thrown m));
             (eapply inFlight_attempted; [exact Hl | exact Hin |]).
           ++ now apply grows_same_log.
           ++ eexists [(EUnhandledRejection _, false)]. reflexivity.
           ++ now apply grows_same_log.
      * assert (Hany : exists r w' ok,
                   performFs env (Fs.Rename from to) w = (r, w')
                   /\ log w' = (log w ++ [(ERename from to, ok)])%list).
        { destruct (performFs_cases (Fs.Rename from to) w)
            as [[r [root E]] | [m E]]; rewrite E;
            do 3 eexists; split; reflexivity. }
        destruct Hany as [r [w' [ok [E Hl]]]]. rewrite E.
        assert (Hin : renameAttempted from to (added ++ [(ERename from to, ok)])).
        { apply renameAttempted_app_r. left. exists ok. now left. }
        assert (Hl' : log w' = (base ++ added ++ [(ERename from to, ok)])%list).
        { now rewrite Hl, Hlog, app_assoc. }
        destruct (k' r);
          (eapply inFlight_attempted; [exact Hl' | exact Hin |]).
        -- now apply grows_same_log.
        -- eexists [(EUnhandledRejection _, false)]. reflexivity.
        -- now apply grows_same_log.
    + destruct (stepPending_others i i' w job Hne Hnth) as [i'' Hi''].
      destruct (stepPending_grows i w) as [more Hmore].
      exists (added ++ more)%list. split.
      * unfold grownBy in Hmore. now rewrite Hmore, Hlog, app_assoc.
      * right. exists i'', job. now split.
Qed.

Lemma inFlight_runScheduled (from to : string) (base : list (Event * bool)) (w : World) :
  inFlight from to base w -> inFlight from to base (runScheduled env w).
Proof.
  unfold runScheduled. generalize (schedule env (now w)) as l.
  intros l; revert w; induction l as [|i l IH]; intros w H; cbn.
  - exact H.
  - apply IH, inFlight_step, H.
Qed.

Lemma inFlight_gitCall {A : Type} (from to : string) (base : list (Event * bool))
      (e : Event) (refused : Git -> option string) (result : Git -> A)
      (after : World -> Git) (w : World) :
  inFlight from to base w ->
  inFlight from to base (snd (gitCall env e refused result after w)).
Proof.
  intros H. apply inFlight_runScheduled in H. unfold gitCall, await.
  set (w0 := runScheduled env w) in *.
  destruct (fault env e (now w0)); [|destruct (refused (git w0))]; cbn;
    (eapply inFlight_call; [| |exact H]); try reflexivity;
    first [ exists [(e, false)]; reflexivity | exists [(e, true)]; reflexivity ].
Qed.

Lemma inFlight_commit (from to : string) (base : list (Event * bool))
      (m : string) (w : World) :
  inFlight from to base w ->
  inFlight from to base (snd (LocalGit.commit env m w)).
Proof.
  intros H. unfold LocalGit.commit, bind.
  assert (H1 : inFlight from to base (snd (add env w)))
    by (unfold add; apply inFlight_gitCall; exact H).
  destruct (add env w) as [[u|e] w1]; cbn in H1; [|exact H1].
  apply inFlight_gitCall. exact H1.
Qed.

(** *** The process left alone *)

Lemma runToEnd_aboutToRename (from to : string) (job : Io.t unit) (w : World) :
  aboutToRename from to job ->
  exists added, log (runToEnd env job w) = (log w ++ added)%list
                /\ renameAttempted from to added.
Proof.
  assert (Hrename : forall k' w0,
    exists added, log (runToEnd env (Io.Await (Fs.Rename from to) k') w0)
                  = (log w0 ++ added)%list
                  /\ renameAttempted from to added).
  { intros k' w0. cbn [runToEnd].
    destruct (performFs_log (Fs.Rename from to) w0) as [ok [Hl _]].
    destruct (performFs env (Fs.Rename from to) w0) as [r w1]; cbn in Hl.
    destruct (runToEnd_grows (k' r) w1) as [more Hmore]. unfold grownBy in Hmore.
    exists ([(ERename from to, ok)] ++ more)%list. split.
    - now rewrite Hmore, Hl, <- app_assoc.
    - apply renameAttempted_app. left. exists ok. now left. }
  intros [[k [-> [k' Hk]]] | [k' ->]]; [|apply Hrename].
  cbn [runToEnd].
  destruct (performFs_cases (Fs.Mkdir (NodePath.dirname to)) w)
    as [[[] [root E]] | [m E]]; rewrite E.
  - rewrite Hk.
    destruct (Hrename k' (record (eventOf (Fs.Mkdir (NodePath.dirname to))) true
                                 (setFiles root w))) as [added [Hl Ha]].
    exists ([(EMkdir (NodePath.dirname to), true)] ++ added)%list. split.
    + rewrite Hl. cbn. now rewrite <- app_assoc.
    + now apply renameAttempted_app_r.
  - destruct (runToEnd_grows (k (Thrown m))
                (record (eventOf (Fs.Mkdir (NodePath.dirname to))) false w))
      as [more Hmore]. unfold grownBy in Hmore.
    exists ([(EMkdir (NodePath.dirname to), false)] ++ more)%list. split.
    + rewrite Hmore. cbn. now rewrite <- app_assoc.
    + apply renameAttempted_app. right. now left.
Qed.

Lemma runAll_grows (jobs : list (Io.t unit)) (w : World) :
  grows w (fold_left (fun w' job => runToEnd env job w') jobs w).
Proof.
  revert w. induction jobs as [|job jobs IH]; intros w; cbn.
  - apply grows_refl.
  - eapply grows_trans; [apply runToEnd_grows | apply IH].
Qed.

Lemma runAll_aboutToRename (from to : string) (jobs : list (Io.t unit)) (i : nat)
      (job : Io.t unit) (w : World) :
  nth_error jobs i = Some job -> aboutToRename from to job ->
  exists added,
    log (fold_left (fun w' j => runToEnd env j w') jobs w) = (log w ++ added)%list
    /\ renameAttempted from to added.
Proof.
  revert i w. induction jobs as [|j jobs IH]; intros i w Hnth Hjob.
  - destruct i; discriminate.
  - destruct i as [|i]; cbn in Hnth |- *.
    + injection Hnth as ->.
      destruct (runToEnd_aboutToRename from to job w Hjob) as [added [Hl Ha]].
      destruct (runAll_grows jobs (runToEnd env job w)) as [more Hmore].
      unfold grownBy in Hmore. exists (added ++ more)%list. split.
      * now rewrite Hmore, Hl, app_assoc.
      * now apply renameAttempted_app.
    + destruct (IH i (runToEnd env j w) Hnth Hjob) as [added [Hl Ha]].
      destruct (runToEnd_grows j w) as [first Hfirst]. unfold grownBy in Hfirst.
      exists (first ++ added)%list. split.
      * now rewrite Hl, Hfirst, app_assoc.
      * now apply renameAttempted_app_r.
Qed.

(** Once the unawaited functions have run to their end, the rename has
    been attempted. *)
Lemma inFlight_settle (from to : string) (base : list (Event * bool)) (w : World) :
  inFlight from to base w ->
  exists added, log (settle env w) = (base ++ added)%list
                /\ renameAttempted from to added.
Proof.
  intros [added [Hlog [Hatt | [i [job [Hnth Hjob]]]]]]; unfold settle.
  - destruct (runAll_grows (pending w) (setPending [] w)) as [more Hmore].
    unfold grownBy in Hmore. cbn in Hmore.
    exists (added ++ more)%list. split.
    + now rewrite Hmore, Hlog, app_assoc.
    + now apply renameAttempted_app.
  - destruct (runAll_aboutToRename from to (pending w) i job (setPending [] w) Hnth Hjob)
      as [more [Hl Ha]]. cbn in Hl.
    exists (added ++ more)%list. split.
    + now rewrite Hl, Hlog, app_assoc.
    + now apply renameAttempted_app_r.
Qed.

(** *** Starting the moves *)

Lemma forEach_detach {A : Type} (f : A -> Io.t unit) (l : list A) (w : World) :
  LocalGit.forEach (fun x => detach (f x)) l w
  = (Ok tt, setPending (pending w ++ map f l) w).
Proof.
  revert w. induction l as [|x l IH]; intros w; cbn [LocalGit.forEach map].
  - unfold ret. rewrite app_nil_r. now destruct w.
  - unfold bind, detach. rewrite IH. cbn. now rewrite <- app_assoc.
Qed.

Lemma nth_error_app_map {A B : Type} (f : A -> B) (l : list A) (x : A) (prefix : list B) :
  In x l -> exists i, nth_error (prefix ++ map f l) i = Some (f x).
Proof.
  intros H. apply (in_map f) in H.
  apply In_nth_error. apply in_or_app. now right.
Qed.

(** *** What was written *)

(** Between [w] and [w'] the call [x] was logged. *)
Lemma run_writeFile_logged (path : string) (content : Fs.Content) (w w1 : World) :
  run env (FsUtils.writeFile path content) w = (Ok tt, w1) ->
  exists l1, log w1 = (log w ++ l1 ++ [(EWriteFile path, true)])%list.
Proof.
  unfold FsUtils.writeFile. rewrite run_bind, run_call.
  destruct (runScheduled_grows w) as [a1 H1]. unfold grownBy in H1.
  destruct (performFs_log (Fs.Mkdir (NodePath.dirname path)) (runScheduled env w))
    as [ok [H2 _]].
  destruct (performFs env (Fs.Mkdir (NodePath.dirname path)) (runScheduled env w))
    as [[u|e] wa]; cbn in H2; [|discriminate].
  rewrite run_call.
  destruct (runScheduled_grows wa) as [a3 H3]. unfold grownBy in H3.
  destruct (performFs_cases (Fs.WriteFile path content) (runScheduled env wa))
    as [[r [root E]] | [m E]]; rewrite E; [|discriminate].
  intros H. injection H as _ <-. cbn.
  exists (a1 ++ [(EMkdir (NodePath.dirname path), ok)] ++ a3)%list.
  rewrite H3, H2, H1. now rewrite <- !app_assoc.
Qed.

Lemma run_all_writeFile_logged {X : Type} (path : X -> string) (content : X -> Fs.Content)
      (xs : list X) (w w1 : World) (rs : list unit) :
  run env (Io.all (map (fun x => FsUtils.writeFile (path x) (content x)) xs)) w
  = (Ok rs, w1) ->
  forall x, In x xs ->
    exists l1 l2, log w1 = (log w ++ l1 ++ (EWriteFile (path x), true) :: l2)%list.
Proof.
  revert w rs. induction xs as [|y xs IH]; intros w rs H x Hin; [contradiction|].
  cbn [map] in H. rewrite run_all_cons in H.
  destruct (run env (FsUtils.writeFile (path y) (content y)) w) as [r wa] eqn:E1.
  destruct (run env (Io.all (map _ xs)) wa) as [rs' w2] eqn:E2.
  destruct r as [[]|e]; [|discriminate]. destruct rs' as [l|e]; [|discriminate].
  injection H as _ <-.
  destruct Hin as [<-|Hin].
  - destruct (run_writeFile_logged _ _ _ _ E1) as [l1 H1].
    pose proof (run_grows (Io.all (map (fun x => FsUtils.writeFile (path x) (content x)) xs)) wa)
      as [more Hmore].
    rewrite E2 in Hmore. unfold grownBy in Hmore. cbn in Hmore.
    exists l1, more. rewrite Hmore, H1. now rewrite <- !app_assoc.
  - destruct (IH wa l E2 x Hin) as [l1 [l2 H2]].
    pose proof (run_grows (FsUtils.writeFile (path y) (content y)) w) as [first Hfirst].
    rewrite E1 in Hfirst. unfold grownBy in Hfirst. cbn in Hfirst.
    exists (first ++ l1)%list, l2. rewrite H2, Hfirst. now rewrite <- !app_assoc.
Qed.

(** *** A request that starts no move *)

Lemma calm_refl (w : World) : calm w w.
Proof.
  intros H. split; [exact H|]. exists []. split; [|constructor].
  unfold grownBy. now rewrite app_nil_r.
Qed.

Lemma calm_trans (w1 w2 w3 : World) : calm w1 w2 -> calm w2 w3 -> calm w1 w3.
Proof.
  intros H12 H23 H1. destruct (H12 H1) as [H2 [a1 [G1 N1]]].
  destruct (H23 H2) as [H3 [a2 [G2 N2]]]. split; [exact H3|].
  exists (a1 ++ a2)%list. split.
  - unfold grownBy in *. now rewrite G2, G1, app_assoc.
  - apply Forall_app. now split.
Qed.

Lemma runScheduled_idle (w : World) : pending w = [] -> runScheduled env w = w.
Proof.
  intros H. unfold runScheduled. generalize (schedule env (now w)) as l.
  induction l as [|i l IH]; cbn; [reflexivity|].
  unfold stepPending at 2. rewrite H.
  replace (nth_error (@nil (Io.t unit)) i) with (@None (Io.t unit)) by (now destruct i).
  exact IH.
Qed.

Lemma performFs_calm {R : Type} (op : Fs.Op R) (w : World) :
  isRename (eventOf op) = false -> calm w (snd (performFs env op w)).
Proof.
  intros Hop Hw. destruct (performFs_log op w) as [ok [Hl [Hp _]]].
  split; [now rewrite Hp|]. exists [(eventOf op, ok)]. split; [exact Hl|].
  constructor; [exact Hop | constructor].
Qed.

Lemma run_calm {A : Type} (f : Io.t A) (w : World) :
  RenameFree f -> calm w (snd (run env f w)).
Proof.
  intros Hf. revert w. induction Hf as [a|e|X op k Hop Hk IH]; intros w; cbn [run].
  - apply calm_refl.
  - apply calm_refl.
  - intros Hw. rewrite (runScheduled_idle w Hw).
    pose proof (performFs_calm op w Hop) as H.
    destruct (performFs env op w) as [r w']; cbn in H.
    exact (calm_trans _ _ _ H (IH r w') Hw).
Qed.

Lemma renameFree_bind {A B : Type} (m : Io.t A) (f : A -> Io.t B) :
  RenameFree m -> (forall a, RenameFree (f a)) -> RenameFree (Io.bind m f).
Proof.
  intros Hm Hf. induction Hm as [a|e|X op k Hop Hk IH]; cbn [Io.bind].
  - apply Hf.
  - constructor.
  - constructor; assumption.
Qed.

Lemma renameFree_tryCatch {A : Type} (m : Io.t A) (h : string -> Io.t A) :
  RenameFree m -> (forall e, RenameFree (h e)) -> RenameFree (Io.tryCatch m h).
Proof.
  intros Hm Hh. induction Hm as [a|e|X op k Hop Hk IH]; cbn [Io.tryCatch].
  - constructor.
  - apply Hh.
  - constructor; assumption.
Qed.

Lemma renameFree_call {R : Type} (op : Fs.Op R) :
  isRename (eventOf op) = false -> RenameFree (Io.call op).
Proof. intros H. constructor; [exact H|]. intros [r|e]; constructor. Qed.

Lemma renameFree_settled {A : Type} (m : Io.t A) :
  RenameFree m -> RenameFree (Io.settled m).
Proof.
  intros H. apply renameFree_tryCatch.
  - apply renameFree_bind; [exact H | intros a; constructor].
  - intros e. constructor.
Qed.

Lemma renameFree_all {A : Type} (promises : list (Io.t A)) :
  Forall RenameFree promises -> RenameFree (Io.all promises).
Proof.
  induction 1 as [|p rest Hp Hrest IH]; cbn [Io.all]; [constructor|].
  apply renameFree_bind; [now apply renameFree_settled|]. intros r.
  apply renameFree_bind; [now apply renameFree_settled|]. intros rs.
  destruct r, rs; constructor.
Qed.

Lemma renameFree_writeFile (path : string) (content : Fs.Content) :
  RenameFree (FsUtils.writeFile path content).
Proof.
  apply renameFree_bind; [now apply renameFree_call|].
  intros _. now apply renameFree_call.
Qed.

Lemma gitCall_calm {A : Type} (e : Event) (refused : Git -> option string)
      (result : Git -> A) (after : World -> Git) (w : World) :
  isRename e = false -> calm w (snd (gitCall env e refused result after w)).
Proof.
  intros He Hw. unfold gitCall, await. rewrite (runScheduled_idle w Hw).
  destruct (fault env e (now w)); [|destruct (refused (git w))]; cbn;
    (split; [exact Hw|]);
    first [ exists [(e, false)]; split; [reflexivity | now repeat constructor]
          | exists [(e, true)]; split; [reflexivity | now repeat constructor] ].
Qed.

Lemma commit_calm (m : string) : Respects calm (LocalGit.commit env m).
Proof.
  unfold LocalGit.commit. apply (@respects_bind calm calm_trans).
  - intros w. now apply gitCall_calm.
  - intros _ w. now apply gitCall_calm.
Qed.

(** [commitEntry] when every data file carries [newPath], stage by
    stage: the writes, the moves started, the commit. *)
Lemma commitEntry_moving (repoPath : string) (dataFiles : list DataFile.t)
      (assets : list Asset.t) (commitMessage : string) (w : World) :
  forallb LocalGit.hasNewPath dataFiles = true ->
  LocalGit.commitEntry env repoPath dataFiles assets commitMessage w
  = match run env (Io.all (map (fun dataFile =>
              FsUtils.writeFile (NodePath.join2 repoPath (DataFile.path dataFile))
                                (Fs.Text (DataFile.raw dataFile))) dataFiles)) w with
    | (Ok _, w1) =>
        match run env (Io.all (map (fun a =>
                  FsUtils.writeFile (NodePath.join2 repoPath (Asset.path a))
                                    (Fs.Buffer (Asset.content a) (Asset.encoding a)))
                assets)) w1 with
        | (Ok _, w2) =>
            LocalGit.commit env commitMessage
              (setPending (pending w2 ++ map (LocalGit.moveDataFile repoPath) dataFiles) w2)
        | (Thrown e, w2) => (Thrown e, w2)
        end
    | (Thrown e, w1) => (Thrown e, w1)
    end.
Proof.
  intros Hall. unfold LocalGit.commitEntry. rewrite Hall. unfold bind at 1.
  destruct (run env _ w) as [[rs1|e1] w1]; [|reflexivity].
  unfold bind at 1.
  destruct (run env _ w1) as [[rs2|e2] w2]; [|reflexivity].
  unfold bind at 1. rewrite forEach_detach. reflexivity.
Qed.

End LogFacts.

(* ===================================================================== *)
(** ** Properties *)
(* ===================================================================== *)

Import JsString APIUtils.

(** C9.  For a collection name without a slash and any slug (which may
    contain slashes), parsing the generated content key gives back the
    collection and the slug: the key is split at its first slash only. *)
Theorem parseContentKey_generateContentKey (collectionName slug : string) :
  includes collectionName "/" = false ->
  parseContentKey (generateContentKey collectionName slug)
  = {| collection := collectionName; slug := slug |}.
Proof.
  intros Hc. unfold parseContentKey, generateContentKey, indexOf.
  rewrite (indexOf_separator collectionName slug 0 Hc). simpl Z.add.
  unfold slice, clamp, len.
  rewrite length_app. simpl String.length.
  assert (H0 : (0 <? 0)%Z = false) by reflexivity. rewrite H0.
  destruct (Z.ltb_spec (Z.of_nat (String.length collectionName)) 0); [lia|].
  destruct (Z.ltb_spec (Z.of_nat (String.length collectionName) + 1) 0); [lia|].
  rewrite !Z.min_l by lia.
  f_equal.
  - rewrite Z.sub_0_r, Nat2Z.id. simpl Z.to_nat. apply substring_app_left.
  - replace (Z.to_nat (Z.of_nat (String.length collectionName) + 1))
      with (String.length (collectionName ++ "/")) by (rewrite length_app; simpl; lia).
    change (collectionName ++ "/" ++ slug) with (collectionName ++ ("/" ++ slug)).
    replace (collectionName ++ ("/" ++ slug)) with ((collectionName ++ "/") ++ slug).
    2:{ clear. induction collectionName; simpl; [reflexivity | now f_equal]. }
    rewrite substring_app_right.
    replace (Z.to_nat _) with (String.length slug) by lia.
    apply substring_all.
Qed.

Lemma parseContentKey_generateContentKey_witness :
  includes "posts" "/" = false /\
  parseContentKey (generateContentKey "posts" "2024/hello")
  = {| collection := "posts"; slug := "2024/hello" |}.
Proof.
  split; [reflexivity|].
  apply (parseContentKey_generateContentKey "posts" "2024/hello"). reflexivity.
Defined.


(* ===================================================================== *)
(** ** The validator *)
(* ===================================================================== *)

Section ValidatorFacts.
Import JsonOps.

Lemma eqb_neq_false (a b : string) : a <> b -> String.eqb a b = false.
Proof. intros H. now apply String.eqb_neq. Qed.

(** The [path] type on a string: the checks of its base, then the
    containment check. *)
Lemma validate_path (au : bool) (p : Joi.Presence) (repoPath : string)
      (parent : list (string * Json)) (l : Joi.Label) (value : string) :
  p <> Joi.forbidden ->
  Joi.validate au (Joi.JoiPath p repoPath) parent l (Some (JStr value))
  = if String.eqb value "" then Some (Joi.msgStringEmpty l)
    else if Joi.resolvesUnder repoPath value then None
    else Some (Joi.msgPathInvalid l).
Proof.
  intros Hp. destruct p; try contradiction; cbn;
    destruct (String.eqb value ""); reflexivity.
Qed.

Lemma validate_requiredString (au : bool) (parent : list (string * Json))
      (l : Joi.Label) (value : string) :
  Joi.validate au Validator.requiredString parent l (Some (JStr value))
  = if String.eqb value "" then Some (Joi.msgStringEmpty l) else None.
Proof. reflexivity. Qed.

(** An object whose first key is in violation: abortEarly reports that
    violation. *)
Lemma validate_object_first_key (au : bool) (p : Joi.Presence) (k : string)
      (sk : Joi.Schema) (ks : list (string * Joi.Schema)) (peers : list string)
      (parent fields : list (string * Json)) (l : Joi.Label) (err : string) :
  p <> Joi.forbidden ->
  Joi.validate au sk fields (Joi.child l k) (assoc k fields) = Some err ->
  Joi.validate au (Joi.JoiObject p ((k, sk) :: ks) peers) parent l (Some (JObj fields))
  = Some err.
Proof.
  intros Hp H. destruct p; try contradiction;
    cbn [Joi.validate Joi.presence]; rewrite H; reflexivity.
Qed.

(** The [action] key of the schema on a value that is none of the
    supported names. *)
Lemma validate_action (au : bool) (parent : list (string * Json)) (l : Joi.Label)
      (a : Json) :
  Joi.isAllowed a Validator.allowedActions = false ->
  Joi.validate au (Joi.setRequired (Joi.valid Validator.allowedActions)) parent l (Some a)
  = Some (Joi.msgOnly l Validator.allowedActions).
Proof.
  intros H. cbn [Joi.validate Joi.setRequired Joi.withPresence Joi.valid Joi.presence].
  rewrite H. reflexivity.
Qed.

End ValidatorFacts.

(** C10.  An asset whose [content] is the empty string passes the
    validator, a data file whose [raw] is the empty string does not: a
    [persistMedia] request with an empty file is handed to the middleware,
    a [persistEntry] request with an empty document is answered 422. *)
Theorem empty_content_passes_empty_raw_fails
        (au : bool) (repoPath branch commitMessage : string)
        (a : Asset.t) (d : DataFile.t) (assets : list Asset.t)
        (parent : list (string * Json)) (l : Joi.Label) :
  Asset.content a = "" -> Asset.encoding a = "base64" ->
  Asset.path a <> "" -> Joi.resolvesUnder repoPath (Asset.path a) = true ->
  DataFile.raw d = "" ->
  branch <> "" -> commitMessage <> "" ->
  Joi.validate au (Validator.asset (Validator.pathTraversal repoPath)) parent l
               (Some (Route.assetJson a)) = None
  /\ Joi.validate au (Validator.dataFile (Validator.pathTraversal repoPath)) parent l
                  (Some (Route.dataFileJson d)) <> None
  /\ Validator.joi (Validator.getSchema repoPath)
                   (Route.persistMediaRequest branch a commitMessage) = Validator.Next
  /\ exists message,
       Validator.joi (Validator.getSchema repoPath)
                     (Route.persistEntryRequest branch [d] assets commitMessage)
       = Validator.Responded {| status := 422;
                                json := Some (JObj [("error", JStr message)]) |}.
Proof.
  intros Hc He Hp Hu Hr Hb Hm.
  destruct a as [apath acontent aenc], d as [dslug dpath draw dnew].
  cbn [Asset.content Asset.encoding Asset.path DataFile.raw] in *. subst.
  apply eqb_neq_false in Hp, Hb, Hm.
  assert (Hasset : forall l',
    Joi.validate au (Validator.asset (Validator.pathTraversal repoPath)) parent l'
                 (Some (Route.assetJson
                          {| Asset.path := apath; Asset.content := "";
                             Asset.encoding := "base64" |})) = None).
  { intros l'. cbn. rewrite Hp, Hu. destruct au; reflexivity. }
  assert (Hdata : forall au' parent' l', exists message,
    Joi.validate au' (Validator.dataFile (Validator.pathTraversal repoPath)) parent' l'
                 (Some (Route.dataFileJson
                          {| DataFile.slug := dslug; DataFile.path := dpath;
                             DataFile.raw := ""; DataFile.newPath := dnew |}))
    = Some message).
  { intros au' parent' l'. cbn.
    destruct (String.eqb dslug ""); [eexists; reflexivity|].
    destruct (String.eqb dpath ""); [eexists; reflexivity|].
    destruct (Joi.resolvesUnder repoPath dpath); eexists; reflexivity. }
  repeat split.
  - apply Hasset.
  - destruct (Hdata au parent l) as [m Hmsg]. rewrite Hmsg. discriminate.
  - unfold Validator.joi, Validator.schemaValidate, Route.persistMediaRequest,
      Route.request. cbn. rewrite Hb, Hp, Hu, Hm. reflexivity.
  - unfold Validator.joi, Validator.schemaValidate, Route.persistEntryRequest,
      Route.request.
    cbn. rewrite Hb.
    destruct (String.eqb dslug ""); [eexists; reflexivity|].
    destruct (String.eqb dpath ""); [eexists; reflexivity|].
    destruct (Joi.resolvesUnder repoPath dpath); eexists; reflexivity.
Qed.

(* ===================================================================== *)
(** ** The branch guard and the lock *)
(* ===================================================================== *)

(** C2.  A request that gets the lock holds it until its [try] and
    [catch] are over and releases it as its last call, on every path: the
    count is back at zero.  A request that does not get the lock (the
    acquisition times out) answers 500 and neither takes nor releases
    it. *)
Theorem lock_released_on_every_path
        (env : Runtime.Env) (repoPath : string) (body : Body) (w : Runtime.World) :
  let w' := snd (LocalGit.localGitMiddleware env repoPath body w) in
  (Runtime.lockCount w = 0 ->
     Runtime.lockCount w' = 0
     /\ exists w2, Runtime.lockCount w2 = 1
                   /\ w' = Runtime.record Runtime.ERelease true
                             (Runtime.setLockCount 0 w2))
  /\ (Runtime.lockCount w <> 0 ->
        Runtime.lockCount w' = Runtime.lockCount w
        /\ w' = Runtime.addResponse
                  {| status := 500; json := LocalGit.error "Unknown error" |}
                  (Runtime.addLogged "Request timed out"
                     (Runtime.record Runtime.EAcquire false
                        (Runtime.runScheduled env w)))).
Proof.
  cbn zeta. split.
  - intros H0. destruct (localGitMiddleware_free env repoPath body w H0) as [w2 [H1 E]].
    split; [rewrite E; reflexivity | exists w2; split; assumption].
  - intros H. rewrite localGitMiddleware_held by exact H. cbn. split; [|reflexivity].
    apply runScheduled_lockCount.
Qed.

(** C3.  The containment check of [pathTraversal] compares strings: a
    value that resolves to a sibling of the repository whose name starts
    with the name of the repository passes it.  With the root [/repo],
    the value [../repo-secret/x] resolves to [/repo-secret/x], which is
    not under [/repo], and the request is handed to the middleware. *)
Theorem pathTraversal_accepts_sibling_of_root :
  NodePath.join2 "/repo" "../repo-secret/x" = "/repo-secret/x"
  /\ Claimed.staysUnder "/repo" "../repo-secret/x" = false
  /\ Joi.resolvesUnder "/repo" "../repo-secret/x" = true
  /\ Joi.validate true (Validator.pathTraversal "/repo") [] (Some "params.path")
                  (Some (JStr "../repo-secret/x")) = None
  /\ Validator.joi (Validator.getSchema "/repo")
                   (Route.getEntryRequest "main" "../repo-secret/x")
     = Validator.Next.
Proof. conjuncts; vm_compute; reflexivity. Qed.

(** C7.  On the repository with [img/a.png] and [img/b.png], [getMedia]
    for the folder [img] answers 500: [listRepoFiles] gives [FsItem]
    records, on which the handler calls [replace].  The branch is
    restored and the lock released all the same.  On a string the
    handler would give the path joined to the repository root as the
    url. *)
Theorem getMedia_answers_unknown_error :
  let w := snd (Route.post Samples.quiet Samples.repoPath
                           (Route.getMediaRequest "main" "img") Samples.world) in
  Runtime.responses w
  = [ {| status := 500; json := LocalGit.error "Unknown error" |} ]
  /\ Runtime.logged w = [ "file.replace is not a function" ]
  /\ fst (Runtime.run Samples.quiet
            (FsUtils.listRepoFiles Samples.repoPath "img" "" 1) Samples.world)
     = Ok [ {| FsUtils.file := Some "img/a.png"; FsUtils.isDirectory := false |};
            {| FsUtils.file := Some "img/b.png"; FsUtils.isDirectory := false |} ]
  /\ LocalGit.mediaEntry Samples.repoPath (LocalGit.ListedPath "img/a.png")
     = Ok (JObj [ ("path", JStr "img/a.png"); ("url", JStr "/repo/img/a.png") ]).
Proof. cbn zeta. conjuncts; vm_compute; reflexivity. Qed.

(** C4.  One [persistEntry] request that renames [posts/a.md] to
    [drafts/a.md], on a server where the unawaited functions run once the
    awaited calls of the request are over.  The content is written, then
    [git add] and [git commit] are called while the [move] that [forEach]
    started has not made a call yet: the one commit of the request holds
    the new content at the old path and nothing at the new path.  The
    rename happens afterwards, in the working tree only.  On a server
    where the [move] makes a call at every wait of the request, the
    directory of the new path is made before [git add] and the rename
    falls between [git add] and [git commit]: the commit is the same, and
    the working tree is ahead of it when the request answers. *)
Theorem persistEntry_commits_before_rename :
  let w := snd (LocalGit.localGitMiddleware Samples.quiet Samples.repoPath
                  Samples.persistRenamed Samples.world) in
  let after := Runtime.settle Samples.quiet w in
  let raced := snd (LocalGit.localGitMiddleware Samples.prompt Samples.repoPath
                      Samples.persistRenamed Samples.world) in
  Runtime.responses w
  = [ {| status := 200; json := LocalGit.message "entry persisted" |} ]
  /\ Runtime.log w
     = [ (Runtime.EAcquire, true); (Runtime.EBranchLocal, true);
         (Runtime.EBranchLocal, true);
         (Runtime.EMkdir "/repo/posts", true);
         (Runtime.EWriteFile "/repo/posts/a.md", true);
         (Runtime.EAdd, true); (Runtime.ECommit "rename a", true);
         (Runtime.ECheckout "main", true); (Runtime.ERelease, true) ]
  /\ Runtime.pending w
     = [ FsUtils.move "/repo/posts/a.md" "/repo/drafts/a.md" ]
  /\ map (fun c => (Fs.lookup ["repo"; "posts"; "a.md"] (Runtime.tree c),
                    Fs.lookup ["repo"; "drafts"; "a.md"] (Runtime.tree c)))
         (Runtime.commits (Runtime.git w))
     = [ (Some (Fs.File (Fs.Text "new")), None) ]
  /\ Runtime.commits (Runtime.git after) = Runtime.commits (Runtime.git w)
  /\ Fs.lookup ["repo"; "posts"; "a.md"] (Runtime.files after) = None
  /\ Fs.lookup ["repo"; "drafts"; "a.md"] (Runtime.files after)
     = Some (Fs.File (Fs.Text "new"))
  /\ Runtime.responses raced
     = [ {| status := 200; json := LocalGit.message "entry persisted" |} ]
  /\ Runtime.log raced
     = [ (Runtime.EAcquire, true); (Runtime.EBranchLocal, true);
         (Runtime.EBranchLocal, true);
         (Runtime.EMkdir "/repo/posts", true);
         (Runtime.EWriteFile "/repo/posts/a.md", true);
         (Runtime.EMkdir "/repo/drafts", true);
         (Runtime.EAdd, true);
         (Runtime.ERename "/repo/posts/a.md" "/repo/drafts/a.md", true);
         (Runtime.ECommit "rename a", true);
         (Runtime.EReaddir "/repo/posts", true);
         (Runtime.ECheckout "main", true); (Runtime.ERelease, true) ]
  /\ map (fun c => (Fs.lookup ["repo"; "posts"; "a.md"] (Runtime.tree c),
                    Fs.lookup ["repo"; "drafts"; "a.md"] (Runtime.tree c)))
         (Runtime.commits (Runtime.git raced))
     = [ (Some (Fs.File (Fs.Text "new")), None) ]
  /\ Fs.lookup ["repo"; "drafts"; "a.md"] (Runtime.files raced)
     = Some (Fs.File (Fs.Text "new")).
Proof. cbn zeta. conjuncts; vm_compute; reflexivity. Qed.

(* ===================================================================== *)
(** ** The listing *)
(* ===================================================================== *)

(** C6, as the code has it.  [listRepoFiles] reads one directory: for a
    positive depth it lists the entries of the folder itself, files and
    directories alike, and descends into none; for a depth of zero or
    less it lists nothing and reads nothing.  Of the entries it keeps
    exactly those whose path, joined to the folder, ends with the
    extension, which for the empty extension is every entry, and gives
    each relative to the repository root.  A directory that cannot be
    read gives the empty list, not a failure. *)
Theorem listRepoFiles_lists_one_level
        (env : Runtime.Env) (repoPath folder extension : string) (depth : Z)
        (w : Runtime.World) :
  let dir := NodePath.join2 repoPath folder in
  let keep := fun d => JsString.endsWith (NodePath.join2 dir (Fs.name d)) extension in
  let item := fun d =>
    {| FsUtils.file :=
         Some (JsString.slice (NodePath.join2 dir (Fs.name d))
                              (JsString.len repoPath + 1) None);
       FsUtils.isDirectory := Fs.isDirectory d |} in
  Runtime.run env (FsUtils.listRepoFiles repoPath folder extension depth) w
  = (if (depth <=? 0)%Z then (Ok [], w)
     else match Runtime.performFs env (Fs.Readdir dir) (Runtime.runScheduled env w) with
          | (Ok dirents, w1) => (Ok (map item (filter keep dirents)), w1)
          | (Thrown _, w1) => (Ok [], w1)
          end)
  /\ (forall d, JsString.endsWith (NodePath.join2 dir (Fs.name d)) "" = true).
Proof.
  cbn zeta. split.
  - unfold FsUtils.listRepoFiles, FsUtils.listFiles. rewrite run_bind.
    destruct (depth <=? 0)%Z; [reflexivity|].
    rewrite run_tryCatch, run_bind, run_call.
    destruct (Runtime.performFs env _ _) as [[dirents|e] w1]; [|reflexivity].
    cbn [Runtime.run]. unfold Runtime.ret. f_equal. f_equal.
    induction dirents as [|d ds IH]; [reflexivity|].
    cbn [map filter]. rewrite hasFile_matching.
    set (res := NodePath.join2 (NodePath.join2 repoPath folder) (Fs.name d)) in *.
    destruct (JsString.endsWith res extension) eqn:E; [|exact IH].
    cbn [map]. rewrite IH. f_equal.
    unfold FsUtils.matching. cbn [filter FsUtils.file FsUtils.isDirectory].
    rewrite E. reflexivity.
  - intros d. apply endsWith_empty.
Qed.

(** C6, as stated, fails for a depth of two: the file [posts/sub/c.md],
    two levels under [posts], belongs to the recursive enumeration of the
    specification, and [listRepoFiles] does not list it. *)
Lemma listRepoFiles_is_not_recursive :
  let listed :=
    match fst (Runtime.run Samples.quiet
                 (FsUtils.listRepoFiles Samples.repoPath "posts" ".md" 2)
                 Samples.world) with
    | Ok items => map FsUtils.file items
    | Thrown _ => []
    end in
  Claimed.listFiles Samples.tree "/repo/posts" ".md" 2
  = [ "/repo/posts/a.md"; "/repo/posts/sub/c.md" ]
  /\ listed = [ Some "posts/a.md" ]
  /\ ~ In (Some "posts/sub/c.md") listed.
Proof.
  cbn zeta. conjuncts; try (vm_compute; reflexivity).
  vm_compute. intros [H|[]]. discriminate.
Qed.

(* ===================================================================== *)
(** ** Unknown actions *)
(* ===================================================================== *)

(** C8, as the code has it.  A request whose action is not one of the
    supported names is answered 422 by the validator, with Joi's message
    that the action must be one of the supported names; the middleware
    does not run, so the lock is not acquired and nothing else of the
    server changes. *)
Theorem unknown_action_rejected_by_validator
        (env : Runtime.Env) (repoPath : string) (fields : list (string * Json))
        (a : Json) (w : Runtime.World) :
  JsonOps.assoc "action" fields = Some a ->
  Joi.isAllowed a Validator.allowedActions = false ->
  Route.post env repoPath (Some (JObj fields)) w
  = (Ok tt,
     Runtime.addResponse
       {| status := 422;
          json := LocalGit.error (Joi.msgOnly (Some "action") Validator.allowedActions) |}
       w).
Proof.
  intros Ha Hn. unfold Route.post, Validator.joi, Validator.schemaValidate.
  assert (E : Joi.validate true (Validator.getSchema repoPath) [] None (Some (JObj fields))
              = Some (Joi.msgOnly (Some "action") Validator.allowedActions)).
  { unfold Validator.getSchema, Validator.defaultSchema, Joi.object.
    apply validate_object_first_key.
    - discriminate.
    - rewrite Ha. apply validate_action, Hn. }
  rewrite E. reflexivity.
Qed.

Lemma unknown_action_rejected_by_validator_witness :
  JsonOps.assoc "action" [("action", JStr "frobnicate")] = Some (JStr "frobnicate")
  /\ Joi.isAllowed (JStr "frobnicate") Validator.allowedActions = false
  /\ Route.post Samples.quiet Samples.repoPath
                (Some (JObj [("action", JStr "frobnicate")])) Samples.world
     = (Ok tt,
        Runtime.addResponse
          {| status := 422;
             json := LocalGit.error (Joi.msgOnly (Some "action") Validator.allowedActions) |}
          Samples.world).
Proof.
  split; [reflexivity|]. split; [reflexivity|].
  apply (unknown_action_rejected_by_validator Samples.quiet Samples.repoPath
           [("action", JStr "frobnicate")] (JStr "frobnicate") Samples.world);
    reflexivity.
Defined.

(** C8, as stated, fails: the message that answers the action
    [frobnicate] is the validator's, which is not an "Unknown action"
    message; the dispatcher, whose default case has that message, does
    not run. *)
Lemma unknown_action_message_is_not_the_dispatchers :
  let w := snd (Route.post Samples.quiet Samples.repoPath
                           (Some (JObj [("action", JStr "frobnicate")]))
                           Samples.world) in
  Runtime.responses w
  = [ {| status := 422;
         json := LocalGit.error
                   (Joi.msgOnly (Some "action") Validator.allowedActions) |} ]
  /\ JsString.startsWith (Joi.msgOnly (Some "action") Validator.allowedActions)
                         "Unknown action" = false
  /\ Runtime.log w = [].
Proof. cbn zeta. conjuncts; vm_compute; reflexivity. Qed.

(* ===================================================================== *)
(** ** The renames *)
(* ===================================================================== *)


(* ===================================================================== *)
(** ** Witnesses *)
(* ===================================================================== *)

Lemma empty_content_passes_empty_raw_fails_witness :
  Asset.content Samples.emptyAsset = ""
  /\ Asset.encoding Samples.emptyAsset = "base64"
  /\ Asset.path Samples.emptyAsset <> ""
  /\ Joi.resolvesUnder Samples.repoPath (Asset.path Samples.emptyAsset) = true
  /\ DataFile.raw Samples.emptyDocument = ""
  /\ "main" <> ""
  /\ "add" <> ""
  /\ Validator.joi (Validator.getSchema Samples.repoPath)
                   (Route.persistMediaRequest "main" Samples.emptyAsset "add")
     = Validator.Next.
Proof.
  assert (H1 : Asset.path Samples.emptyAsset <> "") by discriminate.
  assert (H2 : "main" <> "") by discriminate.
  assert (H3 : "add" <> "") by discriminate.
  split; [reflexivity|]. split; [reflexivity|]. split; [exact H1|].
  split; [reflexivity|]. split; [reflexivity|]. split; [exact H2|].
  split; [exact H3|].
  apply (empty_content_passes_empty_raw_fails true Samples.repoPath "main" "add"
           Samples.emptyAsset Samples.emptyDocument [] [] None
           eq_refl eq_refl H1 eq_refl eq_refl H2 H3).
Defined.


Lemma lock_released_on_every_path_witness :
  (Runtime.lockCount Samples.world = 0
   /\ Runtime.lockCount
        (snd (LocalGit.localGitMiddleware Samples.commitFails Samples.repoPath
                Samples.persistOnDraft Samples.world)) = 0)
  /\ (Runtime.lockCount Samples.busy <> 0
      /\ Runtime.lockCount
           (snd (LocalGit.localGitMiddleware Samples.commitFails Samples.repoPath
                   Samples.persistOnDraft Samples.busy))
         = Runtime.lockCount Samples.busy).
Proof.
  assert (Hbusy : Runtime.lockCount Samples.busy <> 0) by discriminate.
  split.
  - split; [reflexivity|].
    exact (proj1 (proj1 (lock_released_on_every_path Samples.commitFails
                           Samples.repoPath Samples.persistOnDraft Samples.world)
                        eq_refl)).
  - split; [exact Hbusy|].
    exact (proj1 (proj2 (lock_released_on_every_path Samples.commitFails
                           Samples.repoPath Samples.persistOnDraft Samples.busy)
                        Hbusy)).
Defined.

(* ===================================================================== *)
(** ** Labels, branches and content keys *)
(* ===================================================================== *)

Section KeyFacts.
Import JsString APIUtils.

Lemma prefix_app (s t : string) : String.prefix s (s ++ t) = true.
Proof.
  induction s as [|a s IH]; cbn; [now destruct t|].
  destruct (ascii_dec a a) as [_|H]; [exact IH | contradiction].
Qed.

(** [s.slice(n)] of a string that begins with [n] characters [p]. *)
Lemma slice_after_prefix (p s : string) : slice (p ++ s) (len p) None = s.
Proof.
  unfold slice, clamp, len. rewrite length_app.
  destruct (Z.ltb_spec (Z.of_nat (String.length p)) 0); [lia|].
  rewrite Z.min_l by lia. rewrite Nat2Z.id.
  replace (Z.to_nat _) with (String.length s) by lia.
  rewrite substring_app_right. apply substring_all.
Qed.

Lemma substring_zero_length (n : nat) (s : string) : String.substring n 0 s = "".
Proof.
  revert n. induction s as [|a s IH]; intros [|n]; cbn; try reflexivity. apply IH.
Qed.

(** [s.slice(n)] where [s] has no more than [n] characters. *)
Lemma slice_past_end (s : string) (n : nat) :
  (String.length s <= n)%nat -> slice s (Z.of_nat n) None = "".
Proof.
  intros H. unfold slice, clamp, len.
  destruct (Z.ltb_spec (Z.of_nat n) 0); [lia|].
  rewrite Z.min_r by lia. rewrite Z.sub_diag. apply substring_zero_length.
Qed.

End KeyFacts.

(** X1.  The branch of a content key gives the content key back: for
    every key, [contentKeyFromBranch] undoes [branchFromContentKey]. *)
Theorem contentKeyFromBranch_branchFromContentKey (contentKey : string) :
  APIUtils.contentKeyFromBranch (APIUtils.branchFromContentKey contentKey)
  = contentKey.
Proof.
  unfold APIUtils.contentKeyFromBranch, APIUtils.branchFromContentKey.
  change (APIUtils.CMS_BRANCH_PREFIX ++ "/" ++ contentKey)
    with ((APIUtils.CMS_BRANCH_PREFIX ++ "/") ++ contentKey).
  apply slice_after_prefix.
Qed.

(** X2.  The label of a status is a CMS label and gives the status back,
    for every status and every prefix, the default prefix of an undefined
    [labelPrefix] included. *)
Theorem labelToStatus_statusToLabel (status : string) (labelPrefix : option string) :
  APIUtils.labelToStatus (APIUtils.statusToLabel status labelPrefix) labelPrefix
  = status
  /\ APIUtils.isCMSLabel (APIUtils.statusToLabel status labelPrefix) labelPrefix
     = true.
Proof.
  unfold APIUtils.labelToStatus, APIUtils.statusToLabel, APIUtils.isCMSLabel,
    APIUtils.nullish at 1, JsString.startsWith.
  split; [apply slice_after_prefix | apply prefix_app].
Qed.

(** X3.  A label no longer than the prefix has the empty status: the
    ['draft'] of [labelToStatus] is not what it answers, since [slice]
    gives a string for every label. *)
Theorem labelToStatus_of_short_label (label : string) (labelPrefix : option string) :
  (String.length label <= String.length (APIUtils.getLabelPrefix labelPrefix))%nat ->
  APIUtils.labelToStatus label labelPrefix = "".
Proof.
  intros H. unfold APIUtils.labelToStatus, APIUtils.nullish at 1, JsString.len.
  now apply slice_past_end.
Qed.

Lemma labelToStatus_of_short_label_witness :
  APIUtils.labelToStatus "static-cms/" None = "".
Proof.
  apply (labelToStatus_of_short_label "static-cms/" None). vm_compute. lia.
Defined.

(** X4.  A content key without a slash is not split: [indexOf] answers
    [-1], so the collection is the key without its last character and the
    slug is the whole key. *)
Theorem parseContentKey_without_separator (contentKey : string) :
  JsString.includes contentKey "/" = false ->
  APIUtils.parseContentKey contentKey
  = {| APIUtils.collection :=
         String.substring 0 (String.length contentKey - 1) contentKey;
       APIUtils.slug := contentKey |}.
Proof.
  unfold JsString.includes, JsString.indexOf. intros H. apply Z.leb_gt in H.
  assert (E : JsString.indexOf_from contentKey "/" 0 = (-1)%Z).
  { destruct (indexOf_from_shift contentKey "/" 0) as [[E _] | [_ E]]; [exact E | lia]. }
  unfold APIUtils.parseContentKey, JsString.indexOf. rewrite E.
  unfold JsString.slice, JsString.clamp, JsString.len.
  change (-1 + 1)%Z with 0%Z.
  change (0 <? 0)%Z with false. change (-1 <? 0)%Z with true. cbv iota.
  rewrite Z.min_l by lia. rewrite Z.sub_0_r. cbn [Z.to_nat].
  replace (Z.to_nat (Z.of_nat (String.length contentKey) - 0))
    with (String.length contentKey) by lia.
  replace (Z.to_nat (Z.max (Z.of_nat (String.length contentKey) + -1) 0))
    with (String.length contentKey - 1)%nat by lia.
  now rewrite substring_all.
Qed.

Lemma parseContentKey_without_separator_witness :
  APIUtils.parseContentKey "posts"
  = {| APIUtils.collection := "post"; APIUtils.slug := "posts" |}.
Proof.
  apply (parseContentKey_without_separator "posts"). vm_compute. reflexivity.
Defined.

(* ===================================================================== *)
(** ** The working tree *)
(* ===================================================================== *)

Section TreeFacts.
Import JsonOps Fs.

Lemma assoc_setEntry (k : string) (c : Node) (es : list (string * Node)) :
  assoc k (setEntry k c es) = Some c.
Proof.
  induction es as [|[k' c'] es IH]; cbn.
  - now rewrite String.eqb_refl.
  - destruct (String.eqb k k') eqn:E; cbn; rewrite ?String.eqb_refl, ?E; auto.
Qed.

Lemma assoc_removeEntry (k : string) (es : list (string * Node)) :
  assoc k (removeEntry k es) = None.
Proof.
  unfold removeEntry. induction es as [|[k' c'] es IH]; cbn; [reflexivity|].
  destruct (String.eqb k k') eqn:E; cbn; rewrite ?E; exact IH.
Qed.

(** What [insert] has put at a location is found there. *)
Lemma insert_lookup (what : string) (segs : list string) (new n n' : Node) :
  insert what segs new n = Ok n' -> lookup segs n' = Some new.
Proof.
  revert n n'. induction segs as [|s rest IH]; intros n n' H.
  - cbn in H. injection H as <-. reflexivity.
  - destruct n as [c|r es]; [discriminate|]. cbn [insert] in H.
    destruct rest as [|s' rest'].
    + injection H as <-. cbn. now rewrite assoc_setEntry.
    + destruct (assoc s es) as [c|]; [|discriminate].
      destruct (insert what (s' :: rest') new c) as [c'|e] eqn:E; [|discriminate].
      injection H as <-. cbn [lookup]. rewrite assoc_setEntry. now apply (IH c).
Qed.

(** What [remove] has taken out was at the location, and is found there
    no longer. *)
Lemma remove_lookup (what : string) (segs : list string) (n x n' : Node) :
  remove what segs n = Ok (x, n') ->
  lookup segs n = Some x /\ lookup segs n' = None.
Proof.
  revert n n'. induction segs as [|s rest IH]; intros n n' H; [discriminate|].
  destruct n as [c|r es]; [discriminate|]. cbn [remove] in H. cbn [lookup].
  destruct (assoc s es) as [c|] eqn:A; [|discriminate].
  destruct rest as [|s' rest'].
  - injection H as <- <-. cbn. now rewrite assoc_removeEntry.
  - destruct (remove what (s' :: rest') c) as [[x' c']|e] eqn:E; [|discriminate].
    injection H as <- <-. rewrite assoc_setEntry. now apply IH.
Qed.

Lemma writeFile_lookup (path : string) (content : Content) (root root' : Node) :
  writeFile path content root = Ok root' ->
  lookup (NodePath.location path) root' = Some (File content).
Proof.
  unfold writeFile. intros H.
  destruct (lookup (NodePath.location path) root) as [[c|r es]|];
    try discriminate; eapply insert_lookup; exact H.
Qed.

Lemma stat_file_lookup (segs : list string) (n : Node) (c : Content) :
  stat segs n = IsFile c -> lookup segs n = Some (File c).
Proof.
  revert n. induction segs as [|s rest IH]; intros n H.
  - destruct n; [|discriminate]. cbn in H. now injection H as ->.
  - destruct n as [c'|r es]; [discriminate|]. cbn in *.
    destruct (assoc s es); [now apply IH | discriminate].
Qed.

Lemma unlink_lookup (path : string) (root root' : Node) :
  unlink path root = Ok root' ->
  (exists c, lookup (NodePath.location path) root = Some (File c))
  /\ lookup (NodePath.location path) root' = None.
Proof.
  unfold unlink. intros H.
  destruct (stat (NodePath.location path) root) as [| |c|d] eqn:L;
    try discriminate.
  destruct (remove _ _ root) as [[x r']|e] eqn:E; [|discriminate].
  injection H as <-. apply remove_lookup in E. apply stat_file_lookup in L.
  split; [now exists c | apply E].
Qed.

End TreeFacts.

(** X5.  [deleteFile] never rejects: the rejection of [unlink] is caught,
    so the caller is not told whether there was a file.  Either the
    working tree is as it was, or the path named a file and names nothing
    afterwards. *)
Theorem deleteFile_never_throws
        (env : Runtime.Env) (repoPath filePath : string) (w : Runtime.World) :
  let path := NodePath.join2 repoPath filePath in
  let before := Runtime.files (Runtime.runScheduled env w) in
  let done := Runtime.run env (FsUtils.deleteFile repoPath filePath) w in
  fst done = Ok tt
  /\ (Runtime.files (snd done) = before
      \/ (exists c, Fs.lookup (NodePath.location path) before = Some (Fs.File c))
         /\ Fs.lookup (NodePath.location path) (Runtime.files (snd done)) = None).
Proof.
  cbn zeta. unfold FsUtils.deleteFile, Io.call. cbn [Io.tryCatch Runtime.run].
  unfold Runtime.performFs.
  destruct (Runtime.fault env _ _); [split; [reflexivity | now left]|].
  cbn [Fs.perform Runtime.eventOf].
  destruct (Fs.unlink _ _) as [root'|e] eqn:E; cbn.
  - split; [reflexivity|]. right. exact (unlink_lookup _ _ _ E).
  - split; [reflexivity | now left].
Qed.

(** X6.  When [writeFile] returns, the file is in the working tree with
    the content given, whatever the unawaited functions did meanwhile:
    the write is its last call. *)
Theorem writeFile_then_lookup
        (env : Runtime.Env) (filePath : string) (content : Fs.Content)
        (w : Runtime.World) :
  let done := Runtime.run env (FsUtils.writeFile filePath content) w in
  fst done = Ok tt ->
  Fs.lookup (NodePath.location filePath) (Runtime.files (snd done))
  = Some (Fs.File content).
Proof.
  cbn zeta. unfold FsUtils.writeFile. rewrite run_bind, run_call.
  destruct (Runtime.performFs env (Fs.Mkdir _) _) as [[u|e] w1]; [|discriminate].
  rewrite run_call. unfold Runtime.performFs.
  destruct (Runtime.fault env _ _); [discriminate|].
  cbn [Fs.perform Runtime.eventOf].
  destruct (Fs.writeFile _ _ _) as [root'|e] eqn:E; cbn; [|discriminate].
  intros _. exact (writeFile_lookup _ _ _ _ E).
Qed.

Lemma writeFile_then_lookup_witness :
  Fs.lookup ["repo"; "notes"; "new"; "n.md"]
    (Runtime.files
       (snd (Runtime.run Samples.quiet
               (FsUtils.writeFile "/repo/notes/new/n.md" (Fs.Text "n"))
               Samples.world)))
  = Some (Fs.File (Fs.Text "n")).
Proof.
  apply (writeFile_then_lookup Samples.quiet "/repo/notes/new/n.md" (Fs.Text "n")
           Samples.world).
  vm_compute. reflexivity.
Defined.

(* ===================================================================== *)
(** ** What the calls of a request leave as it was *)
(* ===================================================================== *)

Section Frame.
Import Runtime.
Variable env : Env.
Context {X : Type} (proj : World -> X).
Hypothesis proj_record : forall e ok w, proj (record e ok w) = proj w.
Hypothesis proj_setFiles : forall root w, proj (setFiles root w) = proj w.
Hypothesis proj_setPending : forall ps w, proj (setPending ps w) = proj w.

Lemma keeps_refl (w : World) : keeps proj w w.
Proof. reflexivity. Qed.

Lemma keeps_trans (w1 w2 w3 : World) :
  keeps proj w1 w2 -> keeps proj w2 w3 -> keeps proj w1 w3.
Proof. unfold keeps. congruence. Qed.

Lemma performFs_keeps {R : Type} (op : Fs.Op R) (w : World) :
  keeps proj w (snd (performFs env op w)).
Proof.
  unfold keeps, performFs. destruct (fault env (eventOf op) (now w)); cbn.
  - apply proj_record.
  - destruct (Fs.perform op (files w)) as [[r|m] root]; cbn.
    + now rewrite proj_record, proj_setFiles.
    + apply proj_record.
Qed.

Lemma stepPending_keeps (i : nat) (w : World) : keeps proj w (stepPending env i w).
Proof.
  unfold keeps, stepPending.
  destruct (nth_error (pending w) i) as [[u|e|Y op k]|]; try reflexivity.
  - apply proj_setPending.
  - now rewrite proj_record, proj_setPending.
  - pose proof (performFs_keeps op w) as H. unfold keeps in H.
    destruct (performFs env op w) as [r w']; cbn in H.
    destruct (k r); rewrite ?proj_record, proj_setPending; exact H.
Qed.

Lemma runScheduled_keeps (w : World) : keeps proj w (runScheduled env w).
Proof.
  unfold runScheduled. generalize (schedule env (now w)) as l.
  intros l; revert w; induction l as [|i l IH]; intros w; cbn.
  - reflexivity.
  - eapply keeps_trans; [apply stepPending_keeps | apply IH].
Qed.

Lemma keeps_await {A : Type} (call : World -> Result A * World) :
  (forall w, keeps proj w (snd (call w))) -> Respects (keeps proj) (await env call).
Proof.
  intros H w. unfold await.
  eapply keeps_trans; [apply runScheduled_keeps | apply H].
Qed.

Lemma keeps_run {A : Type} (f : Io.t A) : Respects (keeps proj) (run env f).
Proof.
  induction f as [a|e|Y op k IH]; cbn [run]; try (intros w; reflexivity).
  intros w.
  pose proof (performFs_keeps op (runScheduled env w)) as H.
  destruct (performFs env op (runScheduled env w)) as [r w']; cbn in H.
  eapply keeps_trans; [apply runScheduled_keeps|].
  eapply keeps_trans; [exact H | apply IH].
Qed.

Lemma keeps_detach (f : Io.t unit) : Respects (keeps proj) (detach f).
Proof. intros w. apply proj_setPending. Qed.

Lemma keeps_readCall (e : Event) (read : Fs.Node -> Result Json) :
  Respects (keeps proj) (readCall env e read).
Proof.
  apply keeps_await. intros w.
  destruct (fault env e (now w)); [apply proj_record|].
  destruct (read (files w)); apply proj_record.
Qed.

Lemma keeps_gitCall {A : Type} (e : Event) (refused : Git -> option string)
      (result : Git -> A) (after : World -> Git) :
  (forall w, proj (setGit (after w) w) = proj w) ->
  Respects (keeps proj) (gitCall env e refused result after).
Proof.
  intros H. apply keeps_await. intros w.
  destruct (fault env e (now w)); [apply proj_record|].
  destruct (refused (git w)); [apply proj_record|].
  unfold keeps. cbn [snd]. now rewrite proj_record.
Qed.

Lemma keeps_acquire (e : string) :
  (forall n w, proj (setLockCount n w) = proj w) ->
  Respects (keeps proj) (acquire env e).
Proof.
  intros H. apply keeps_await. intros w.
  destruct (lockCount w); unfold keeps; cbn [snd]; now rewrite proj_record.
Qed.

Lemma keeps_release :
  (forall n w, proj (setLockCount n w) = proj w) ->
  Respects (keeps proj) release.
Proof. intros H w. unfold keeps, release. cbn [snd]. now rewrite proj_record. Qed.

Lemma keeps_bind {A B : Type} (m : M A) (f : A -> M B) :
  Respects (keeps proj) m -> (forall a, Respects (keeps proj) (f a)) ->
  Respects (keeps proj) (bind m f).
Proof. apply respects_bind, keeps_trans. Qed.

Lemma keeps_tryFinally {A : Type} (body : M A) (cleanup : M unit) :
  Respects (keeps proj) body -> Respects (keeps proj) cleanup ->
  Respects (keeps proj) (tryFinally body cleanup).
Proof. apply respects_tryFinally, keeps_trans. Qed.

Lemma keeps_forEach {A : Type} (f : A -> M unit) (l : list A) :
  (forall a, Respects (keeps proj) (f a)) -> Respects (keeps proj) (LocalGit.forEach f l).
Proof. apply respects_forEach; [exact keeps_refl | exact keeps_trans]. Qed.

(** Where reading the branches and checking one out do not show in
    [proj]. *)
Hypothesis proj_branchLocal : forall w, proj (setGit (git w) w) = proj w.
Hypothesis proj_checkout :
  forall b staged w,
    proj (setGit (setIndex staged (setCurrent b (git w))) w) = proj w.

Lemma keeps_branchLocal : Respects (keeps proj) (branchLocal env).
Proof. now apply keeps_gitCall. Qed.

Lemma keeps_checkout (b : string) : Respects (keeps proj) (checkout env b).
Proof.
  intros w. eapply keeps_trans; [apply runScheduled_keeps|].
  destruct (checkout_cases env b w) as [[m E] | [root [staged [_ [_ E]]]]];
    rewrite E; unfold keeps; cbn [snd]; rewrite proj_record; [reflexivity|].
  now rewrite proj_setFiles, proj_checkout.
Qed.

Lemma keeps_getCurrentBranch : Respects (keeps proj) (LocalGit.getCurrentBranch env).
Proof.
  unfold LocalGit.getCurrentBranch. apply keeps_bind.
  - apply keeps_branchLocal.
  - intros a w. reflexivity.
Qed.

Lemma keeps_isBranchExists (b : string) :
  Respects (keeps proj) (LocalGit.isBranchExists env b).
Proof.
  unfold LocalGit.isBranchExists. apply keeps_bind.
  - apply keeps_branchLocal.
  - intros a w. reflexivity.
Qed.

Lemma keeps_runOnBranch {A : Type} (branch : string) (func : M A) :
  Respects (keeps proj) func ->
  Respects (keeps proj) (LocalGit.runOnBranch env branch func).
Proof.
  intros Hf. unfold LocalGit.runOnBranch.
  apply keeps_bind; [apply keeps_getCurrentBranch|]. intros c.
  apply keeps_tryFinally; [|apply keeps_checkout].
  apply keeps_bind.
  - destruct (negb (String.eqb c branch)); [apply keeps_checkout|].
    intros w. reflexivity.
  - intros _. apply keeps_bind; [exact Hf|]. intros r w. reflexivity.
Qed.

(** Where no change of the repository shows in [proj]. *)
Hypothesis proj_setGit : forall g w, proj (setGit g w) = proj w.

Lemma keeps_commit (m : string) : Respects (keeps proj) (LocalGit.commit env m).
Proof.
  unfold LocalGit.commit. apply keeps_bind; [|intros _];
    apply keeps_gitCall; intros w; apply proj_setGit.
Qed.

Lemma keeps_commitEntry (repoPath : string) (dataFiles : list DataFile.t)
      (assets : list Asset.t) (m : string) :
  Respects (keeps proj) (LocalGit.commitEntry env repoPath dataFiles assets m).
Proof.
  unfold LocalGit.commitEntry.
  apply keeps_bind; [apply keeps_run|]. intros _.
  apply keeps_bind; [apply keeps_run|]. intros _.
  apply keeps_bind; [|intros _; apply keeps_commit].
  destruct (forallb LocalGit.hasNewPath dataFiles).
  - apply keeps_forEach. intros d. apply keeps_detach.
  - intros w. reflexivity.
Qed.

End Frame.

(** Goals of the form [Respects (keeps proj) m], for the calls that
    leave [proj] as it was. *)
Ltac framing :=
  repeat match goal with
    | |- Respects _ (Runtime.bind _ _) => apply keeps_bind; [ | intros ? ]
    | |- Respects _ (LocalGit.runOnBranch _ _ _) => apply keeps_runOnBranch
    | |- Respects _ (LocalGit.commitEntry _ _ _ _ _) => apply keeps_commitEntry
    | |- Respects _ (LocalGit.commit _ _) => apply keeps_commit
    | |- Respects _ (LocalGit.isBranchExists _ _) => apply keeps_isBranchExists
    | |- Respects _ (Runtime.run _ _) => apply keeps_run
    | |- Respects _ (Runtime.readCall _ _ _) => apply keeps_readCall
    | |- Respects _ (Runtime.acquire _ _) => apply keeps_acquire
    | |- Respects _ (LocalGit.liftResult _) =>
        apply respects_liftResult; intros ?; reflexivity
    | |- Respects _ (match ?x with _ => _ end) => destruct x
    | |- Respects _ (Runtime.ret _) => intros ?; reflexivity
    | |- Respects _ (Runtime.throw _) => intros ?; reflexivity
    | |- forall _ _, _ => solve [intros; reflexivity]
    | |- forall _, _ = _ => solve [intros; reflexivity]
    end.

(* ===================================================================== *)
(** ** One answer to every request *)
(* ===================================================================== *)

Section Answering.
Import Runtime.
Variable env : Env.

Lemma answers_respond (code : nat) (x : option Json) :
  code = 200 \/ code = 422 -> Answers (respond code x).
Proof.
  intros H w. cbn. eexists. split; [reflexivity|]. split; [reflexivity | exact H].
Qed.

Lemma answers_throw {A : Type} (e : string) : Answers (@throw A e).
Proof. intros w. reflexivity. Qed.

Lemma answers_bind {A B : Type} (m : M A) (f : A -> M B) :
  Respects (keeps told) m -> (forall a, Answers (f a)) -> Answers (bind m f).
Proof.
  intros Hm Hf w. unfold bind. specialize (Hm w).
  destruct (m w) as [[a|e] w1]; cbn in Hm; [|exact Hm].
  specialize (Hf a w1). unfold keeps, told in Hm. injection Hm as Hr Hl.
  destruct (f a w1) as [[b|e] w2].
  - destruct Hf as [x [H1 [H2 H3]]]. exists x. now rewrite H1, H2, Hr, Hl.
  - unfold told in *. congruence.
Qed.

Lemma answers_dispatch (repoPath action branch : string) (payload : Payload) :
  Answers (LocalGit.dispatch env repoPath action branch payload).
Proof.
  unfold LocalGit.dispatch, LocalGit.castError.
  repeat match goal with
         | |- Answers (if ?c then _ else _) => destruct c
         end;
    try (apply answers_respond; auto; fail);
    destruct payload; try apply answers_throw;
    (apply answers_bind;
     [ framing
     | intros ?; first [ apply answers_respond; now left
                       | apply answers_bind;
                         [ framing | intros ?; apply answers_respond; now left ] ] ]).
Qed.

Lemma answers_handle (repoPath : string) (body : Body) :
  Answers (LocalGit.handle env repoPath body).
Proof.
  unfold LocalGit.handle.
  destruct (String.eqb (action body) "info"); [apply answers_respond; now left|].
  destruct (params body) as [ps|]; [|apply answers_throw].
  apply answers_bind; [framing|]. intros found.
  destruct (negb found); [apply answers_respond; now right | apply answers_dispatch].
Qed.

End Answering.

(** X7.  Every request is answered exactly once, whatever fails and
    whatever the unawaited functions do: with 200 or 422 and nothing
    given to the logger, or with 500 and the error "Unknown error" after
    one message was given to the logger. *)
Theorem request_answered_once
        (env : Runtime.Env) (repoPath : string) (body : Body) (w : Runtime.World) :
  let w' := snd (LocalGit.localGitMiddleware env repoPath body w) in
  exists x,
    Runtime.responses w' = (Runtime.responses w ++ [x])%list
    /\ ((status x = 200 \/ status x = 422) /\ Runtime.logged w' = Runtime.logged w
        \/ x = {| status := 500; json := LocalGit.error "Unknown error" |}
           /\ exists message, Runtime.logged w' = (Runtime.logged w ++ [message])%list).
Proof.
  cbn zeta. unfold LocalGit.localGitMiddleware.
  assert (Ha : Respects (keeps told) (Runtime.acquire env "Request timed out"))
    by framing.
  specialize (Ha w). unfold keeps, told in Ha.
  destruct (Runtime.acquire env "Request timed out" w) as [[u|e] w1]; cbn in Ha;
    injection Ha as Hr Hl.
  - unfold Runtime.tryFinally, Runtime.tryCatch.
    pose proof (answers_handle env repoPath body w1) as Hh.
    destruct (LocalGit.handle env repoPath body w1) as [[v|e] w2].
    + destruct Hh as [x [H1 [H2 H3]]]. exists x. cbn.
      rewrite H1, H2, Hr, Hl. split; [reflexivity | left; now split].
    + unfold told in Hh. injection Hh as H1 H2. cbn.
      eexists. rewrite H1, H2, Hr, Hl. split; [reflexivity|]. right.
      split; [reflexivity | now exists e].
  - cbn. eexists. rewrite Hr, Hl. split; [reflexivity|]. right.
    split; [reflexivity | now exists e].
Qed.

(* ===================================================================== *)
(** ** What the validator lets through *)
(* ===================================================================== *)

Section SchemaFacts.
Import JsonOps.

(** [when]: the schema of the first case of the [switch] whose [is]
    equals the value referred to, else [otherwise]. *)
Lemma validate_when (au : bool) (ref : string) (switch : list (string * Joi.Schema))
      (otherwise : Joi.Schema) (parent : list (string * Json)) (l : Joi.Label)
      (v : option Json) :
  Joi.validate au (Joi.JoiWhen ref switch otherwise) parent l v
  = match assoc ref parent with
    | Some (JStr a) =>
        match assoc a switch with
        | Some thenSchema => Joi.validate au thenSchema parent l v
        | None => Joi.validate au otherwise parent l v
        end
    | _ => Joi.validate au otherwise parent l v
    end.
Proof.
  cbn [Joi.validate].
  induction switch as [|[expected thenSchema] rest IH].
  - destruct (assoc ref parent) as [[]|]; reflexivity.
  - destruct (assoc ref parent) as [[| | |a| |]|] eqn:E; try exact IH.
    cbn [assoc]. destruct (String.eqb a expected); [reflexivity | exact IH].
Qed.

(** With [allowUnknown], an object is validated key by key, in the order
    of the schema, and then against its exclusive peers. *)
Lemma validate_object_cons (p : Joi.Presence) (k : string) (sk : Joi.Schema)
      (ks : list (string * Joi.Schema)) (peers : list string)
      (parent fields : list (string * Json)) (l : Joi.Label) :
  p <> Joi.forbidden ->
  Joi.validate true (Joi.JoiObject p ((k, sk) :: ks) peers) parent l (Some (JObj fields))
  = match Joi.validate true sk fields (Joi.child l k) (assoc k fields) with
    | Some err => Some err
    | None => Joi.validate true (Joi.JoiObject p ks peers) parent l (Some (JObj fields))
    end.
Proof.
  intros Hp. destruct p; try contradiction; cbn [Joi.validate Joi.presence];
    destruct (Joi.validate true sk fields (Joi.child l k) (assoc k fields));
    reflexivity.
Qed.

Lemma validate_object_nil (p : Joi.Presence)
      (parent fields : list (string * Json)) (l : Joi.Label) :
  p <> Joi.forbidden ->
  Joi.validate true (Joi.JoiObject p [] []) parent l (Some (JObj fields)) = None.
Proof. intros Hp. destruct p; try contradiction; reflexivity. Qed.

(** A body whose action is one of the supported names is judged by its
    parameters. *)
Lemma validate_body (repoPath a : string) (fields : list (string * Json)) :
  assoc "action" fields = Some (JStr a) ->
  mem a Validator.allowedActions = true ->
  Joi.validate true (Validator.getSchema repoPath) [] None (Some (JObj fields))
  = Joi.validate true (Validator.params (Validator.pathTraversal repoPath)) fields
                 (Some "params") (assoc "params" fields).
Proof.
  intros Ha Hm. unfold Validator.getSchema, Validator.defaultSchema, Joi.object.
  rewrite validate_object_cons by discriminate. rewrite Ha.
  replace (Joi.validate true (Joi.setRequired (Joi.valid Validator.allowedActions))
             fields (Joi.child None "action") (Some (JStr a))) with (@None string).
  2:{ cbn [Joi.validate Joi.setRequired Joi.withPresence Joi.valid Joi.presence
           Joi.isAllowed]. now rewrite Hm. }
  rewrite validate_object_cons by discriminate.
  rewrite validate_object_nil by discriminate.
  change (Joi.child None "params") with (Some "params").
  now destruct (Joi.validate true _ fields (Some "params") (assoc "params" fields)).
Qed.

Lemma joi_of_validate (schema : Joi.Schema) (body : option Json) :
  Validator.joi schema body
  = match Joi.validate true schema [] None body with
    | Some message =>
        Validator.Responded
          {| status := 422; json := Some (JObj [("error", JStr message)]) |}
    | None => Validator.Next
    end.
Proof.
  unfold Validator.joi, Validator.schemaValidate.
  destruct (Joi.validate true schema [] None body) as [message|]; [|reflexivity].
  cbn. reflexivity.
Qed.

End SchemaFacts.

Ltac pick_case :=
  match goal with
  | |- context [JsonOps.assoc ?a ?sw] =>
      match sw with
      | cons _ _ =>
          let r := eval vm_compute in (JsonOps.assoc a sw) in
          change (JsonOps.assoc a sw) with r
      end
  end.

(** X8.  For every action but [info] and [entriesByFiles], a body without
    [params] is answered 422 by the validator: the parameters are
    required. *)
Theorem params_required (repoPath a : string) (fields : list (string * Json)) :
  In a [ "entriesByFolder"; "getEntry"; "persistEntry"; "getMedia";
         "getMediaFile"; "persistMedia"; "deleteFile"; "deleteFiles";
         "getDeployPreview" ] ->
  JsonOps.assoc "action" fields = Some (JStr a) ->
  JsonOps.assoc "params" fields = None ->
  Validator.joi (Validator.getSchema repoPath) (Some (JObj fields))
  = Validator.Responded
      {| status := 422;
         json := LocalGit.error (Joi.msgRequired (Some "params")) |}.
Proof.
  intros Hin Ha Hp. rewrite joi_of_validate.
  rewrite (validate_body repoPath a fields Ha).
  2:{ cbn in Hin. repeat destruct Hin as [<-|Hin]; try reflexivity. contradiction. }
  unfold Validator.params. rewrite validate_when, Ha, Hp.
  cbn in Hin. repeat destruct Hin as [<-|Hin]; try contradiction;
    pick_case; reflexivity.
Qed.

Lemma params_required_witness :
  Validator.joi (Validator.getSchema "/repo")
                (Some (JObj [("action", JStr "getEntry")]))
  = Validator.Responded
      {| status := 422;
         json := LocalGit.error (Joi.msgRequired (Some "params")) |}.
Proof.
  apply (params_required "/repo" "getEntry" [("action", JStr "getEntry")]).
  - cbn. tauto.
  - reflexivity.
  - reflexivity.
Defined.

(** X9.  Every action but [info] needs a branch: parameters without
    [branch] are answered 422 by the validator, before any other
    parameter is looked at. *)
Theorem branch_required (repoPath a : string) (fields ps : list (string * Json)) :
  In a [ "entriesByFolder"; "entriesByFiles"; "getEntry"; "persistEntry";
         "getMedia"; "getMediaFile"; "persistMedia"; "deleteFile";
         "deleteFiles"; "getDeployPreview" ] ->
  JsonOps.assoc "action" fields = Some (JStr a) ->
  JsonOps.assoc "params" fields = Some (JObj ps) ->
  JsonOps.assoc "branch" ps = None ->
  Validator.joi (Validator.getSchema repoPath) (Some (JObj fields))
  = Validator.Responded
      {| status := 422;
         json := LocalGit.error (Joi.msgRequired (Some "params.branch")) |}.
Proof.
  intros Hin Ha Hp Hb. rewrite joi_of_validate.
  rewrite (validate_body repoPath a fields Ha).
  2:{ cbn in Hin. repeat destruct Hin as [<-|Hin]; try reflexivity. contradiction. }
  unfold Validator.params. rewrite validate_when, Ha, Hp.
  cbn in Hin. repeat destruct Hin as [<-|Hin]; try contradiction;
    pick_case; cbv iota;
    (rewrite (validate_object_first_key true _ "branch" _ _ _ fields ps (Some "params")
                (Joi.msgRequired (Some "params.branch")));
     [ reflexivity | discriminate | rewrite Hb; reflexivity ]).
Qed.

Lemma branch_required_witness :
  Validator.joi (Validator.getSchema "/repo")
                (Route.request "getMedia" [("mediaFolder", JStr "img")])
  = Validator.Responded
      {| status := 422;
         json := LocalGit.error (Joi.msgRequired (Some "params.branch")) |}.
Proof.
  apply (branch_required "/repo" "getMedia"
           [("action", JStr "getMedia"); ("params", JObj [("mediaFolder", JStr "img")])]
           [("mediaFolder", JStr "img")]).
  - cbn. tauto.
  - reflexivity.
  - reflexivity.
  - reflexivity.
Defined.

(** X10.  A path that resolves outside the repository is refused wherever
    an action takes one at the top of its parameters: the folder of
    [entriesByFolder], the path of [getEntry], [getMediaFile] and
    [deleteFile], the media folder of [getMedia].  The answer is 422 and
    names the parameter. *)
Theorem path_outside_rejected
        (repoPath a key b value : string) (fields ps : list (string * Json)) :
  In (a, key) [ ("entriesByFolder", "folder"); ("getEntry", "path");
                ("getMedia", "mediaFolder"); ("getMediaFile", "path");
                ("deleteFile", "path") ] ->
  JsonOps.assoc "action" fields = Some (JStr a) ->
  JsonOps.assoc "params" fields = Some (JObj ps) ->
  JsonOps.assoc "branch" ps = Some (JStr b) -> b <> "" ->
  JsonOps.assoc key ps = Some (JStr value) -> value <> "" ->
  Joi.resolvesUnder repoPath value = false ->
  Validator.joi (Validator.getSchema repoPath) (Some (JObj fields))
  = Validator.Responded
      {| status := 422;
         json := LocalGit.error (Joi.msgPathInvalid (Some ("params." ++ key))) |}.
Proof.
  intros Hin Ha Hp Hb Hbne Hk Hvne Hout. rewrite joi_of_validate.
  apply eqb_neq_false in Hbne, Hvne.
  rewrite (validate_body repoPath a fields Ha).
  2:{ cbn in Hin. repeat destruct Hin as [E|Hin]; try contradiction;
        injection E as <- _; reflexivity. }
  unfold Validator.params. rewrite validate_when, Ha, Hp.
  cbn in Hin. repeat destruct Hin as [E|Hin]; try contradiction;
    injection E as <- <-; pick_case; cbv iota;
    rewrite validate_object_cons by discriminate;
    rewrite Hb, validate_requiredString, Hbne;
    rewrite validate_object_cons by discriminate;
    rewrite Hk, validate_path by discriminate;
    rewrite Hvne, Hout; reflexivity.
Qed.

Lemma path_outside_rejected_witness :
  Validator.joi (Validator.getSchema "Users/user/documents/code/repo")
                (Route.getEntryRequest "master" "../")
  = Validator.Responded
      {| status := 422;
         json := LocalGit.error (Joi.msgPathInvalid (Some "params.path")) |}.
Proof.
  apply (path_outside_rejected "Users/user/documents/code/repo" "getEntry" "path"
           "master" "../"
           [("action", JStr "getEntry");
            ("params", JObj [("branch", JStr "master"); ("path", JStr "../")])]
           [("branch", JStr "master"); ("path", JStr "../")]).
  - cbn. tauto.
  - reflexivity.
  - reflexivity.
  - reflexivity.
  - discriminate.
  - reflexivity.
  - discriminate.
  - vm_compute. reflexivity.
Defined.

(** X11.  [getEntry], [getMedia] and [getMediaFile] take a branch and one
    path: with both non-empty and the path passing the containment
    check, the validator hands the request on, whatever else the body
    holds. *)
Theorem path_inside_accepted
        (repoPath a key b value : string) (fields ps : list (string * Json)) :
  In (a, key) [ ("getEntry", "path"); ("getMedia", "mediaFolder");
                ("getMediaFile", "path") ] ->
  JsonOps.assoc "action" fields = Some (JStr a) ->
  JsonOps.assoc "params" fields = Some (JObj ps) ->
  JsonOps.assoc "branch" ps = Some (JStr b) -> b <> "" ->
  JsonOps.assoc key ps = Some (JStr value) -> value <> "" ->
  Joi.resolvesUnder repoPath value = true ->
  Validator.joi (Validator.getSchema repoPath) (Some (JObj fields)) = Validator.Next.
Proof.
  intros Hin Ha Hp Hb Hbne Hk Hvne Hin'. rewrite joi_of_validate.
  apply eqb_neq_false in Hbne, Hvne.
  rewrite (validate_body repoPath a fields Ha).
  2:{ cbn in Hin. repeat destruct Hin as [E|Hin]; try contradiction;
        injection E as <- _; reflexivity. }
  unfold Validator.params. rewrite validate_when, Ha, Hp.
  cbn in Hin. repeat destruct Hin as [E|Hin]; try contradiction;
    injection E as <- <-; pick_case; cbv iota;
    rewrite validate_object_cons by discriminate;
    rewrite Hb, validate_requiredString, Hbne;
    rewrite validate_object_cons by discriminate;
    rewrite Hk, validate_path by discriminate;
    rewrite Hvne, Hin';
    rewrite validate_object_nil by discriminate; reflexivity.
Qed.

Lemma path_inside_accepted_witness :
  Validator.joi (Validator.getSchema "Users/user/documents/code/repo")
                (Route.getMediaRequest "master" "static/images")
  = Validator.Next.
Proof.
  apply (path_inside_accepted "Users/user/documents/code/repo" "getMedia" "mediaFolder"
           "master" "static/images"
           [("action", JStr "getMedia");
            ("params", JObj [("branch", JStr "master");
                             ("mediaFolder", JStr "static/images")])]
           [("branch", JStr "master"); ("mediaFolder", JStr "static/images")]).
  - cbn. tauto.
  - reflexivity.
  - reflexivity.
  - reflexivity.
  - discriminate.
  - reflexivity.
  - discriminate.
  - vm_compute. reflexivity.
Defined.

Section RouteFacts.
Import Runtime.
Variable env : Env.

Lemma runScheduled_git (w : World) : git (runScheduled env w) = git w.
Proof. apply (runScheduled_keeps env git); intros; reflexivity. Qed.

Lemma runScheduled_told (w : World) : told (runScheduled env w) = told w.
Proof. apply (runScheduled_keeps env told); intros; reflexivity. Qed.

Lemma runScheduled_responses (w : World) :
  responses (runScheduled env w) = responses w.
Proof. apply (runScheduled_keeps env responses); intros; reflexivity. Qed.

End RouteFacts.

(** X12.  The [info] probe is answered whatever its parameters: the
    validator lets any [params] through, also none, and on a server whose
    lock is free the middleware answers with the name of the repository
    directory and the backend type, without a call to git. *)
Theorem info_answered_whatever_the_params
        (env : Runtime.Env) (repoPath : string) (fields : list (string * Json))
        (w : Runtime.World) :
  JsonOps.assoc "action" fields = Some (JStr "info") ->
  Runtime.lockCount w = 0 ->
  let w' := snd (Route.post env repoPath (Some (JObj fields)) w) in
  Runtime.responses w'
  = (Runtime.responses w
     ++ [ {| status := 200;
             json := Some (JObj [ ("repo", JStr (NodePath.basename repoPath));
                                  ("type", JStr "local_git") ]) |} ])%list
  /\ Runtime.git w' = Runtime.git w
  /\ Runtime.lockCount w' = 0.
Proof.
  intros Ha H0. cbn zeta. unfold Route.post. rewrite joi_of_validate.
  rewrite (validate_body repoPath "info" fields Ha) by reflexivity.
  unfold Validator.params. rewrite validate_when, Ha. pick_case. cbv iota.
  replace (Joi.validate true (Joi.JoiAny Joi.optional [] false) fields (Some "params")
             (JsonOps.assoc "params" fields)) with (@None string)
    by (destruct (JsonOps.assoc "params" fields) as [[]|]; reflexivity).
  unfold LocalGit.localGitMiddleware. rewrite acquire_eq. cbn zeta.
  rewrite runScheduled_lockCount, H0.
  unfold Runtime.tryFinally, Runtime.tryCatch, LocalGit.handle, Route.bodyOf, Route.str.
  cbn [action]. rewrite Ha. cbn.
  pose proof (runScheduled_told env w) as Ht. unfold told in Ht.
  injection Ht as Hr _. rewrite Hr, runScheduled_git. repeat split.
Qed.

Lemma info_answered_whatever_the_params_witness :
  Runtime.responses
    (snd (Route.post Samples.quiet Samples.repoPath
            (Some (JObj [("action", JStr "info"); ("params", JNum 7)]))
            Samples.world))
  = [ {| status := 200;
         json := Some (JObj [ ("repo", JStr "repo"); ("type", JStr "local_git") ]) |} ].
Proof.
  exact (proj1 (info_answered_whatever_the_params Samples.quiet Samples.repoPath
                  [("action", JStr "info"); ("params", JNum 7)] Samples.world
                  eq_refl eq_refl)).
Defined.

(** X13.  The parameters of [entriesByFiles] are not required: a body
    without [params] passes the validator, and the middleware, which
    reads the branch from them, throws and answers 500 without a call to
    git. *)
Theorem entriesByFiles_without_params
        (env : Runtime.Env) (repoPath : string) (fields : list (string * Json))
        (w : Runtime.World) :
  JsonOps.assoc "action" fields = Some (JStr "entriesByFiles") ->
  JsonOps.assoc "params" fields = None ->
  Runtime.lockCount w = 0 ->
  let w' := snd (Route.post env repoPath (Some (JObj fields)) w) in
  Validator.joi (Validator.getSchema repoPath) (Some (JObj fields)) = Validator.Next
  /\ Runtime.responses w'
     = (Runtime.responses w
        ++ [ {| status := 500; json := LocalGit.error "Unknown error" |} ])%list
  /\ Runtime.git w' = Runtime.git w
  /\ Runtime.lockCount w' = 0.
Proof.
  intros Ha Hp H0. cbn zeta.
  assert (Hv : Validator.joi (Validator.getSchema repoPath) (Some (JObj fields))
               = Validator.Next).
  { rewrite joi_of_validate.
    rewrite (validate_body repoPath "entriesByFiles" fields Ha) by reflexivity.
    unfold Validator.params. rewrite validate_when, Ha, Hp. pick_case. reflexivity. }
  split; [exact Hv|]. unfold Route.post. rewrite Hv.
  unfold LocalGit.localGitMiddleware. rewrite acquire_eq. cbn zeta.
  rewrite runScheduled_lockCount, H0.
  unfold Runtime.tryFinally, Runtime.tryCatch, LocalGit.handle, Route.bodyOf, Route.str.
  cbn [action params]. rewrite Ha, Hp. cbn.
  pose proof (runScheduled_told env w) as Ht. unfold told in Ht.
  injection Ht as Hr _. rewrite Hr, runScheduled_git. repeat split.
Qed.

Lemma entriesByFiles_without_params_witness :
  Runtime.responses
    (snd (Route.post Samples.quiet Samples.repoPath
            (Some (JObj [("action", JStr "entriesByFiles")])) Samples.world))
  = [ {| status := 500; json := LocalGit.error "Unknown error" |} ].
Proof.
  exact (proj1 (proj2 (entriesByFiles_without_params Samples.quiet Samples.repoPath
                         [("action", JStr "entriesByFiles")] Samples.world
                         eq_refl eq_refl eq_refl))).
Defined.

(* ===================================================================== *)
(** ** The branch guard *)
(* ===================================================================== *)

Section BranchGuard.
Import Runtime.
Variable env : Env.

Lemma runScheduled_current (w : World) :
  current (git (runScheduled env w)) = current (git w).
Proof. now rewrite runScheduled_git. Qed.

(** [getCurrentBranch], call by call. *)
Lemma getCurrentBranch_eq (w : World) :
  LocalGit.getCurrentBranch env w
  = let w0 := runScheduled env w in
    if fault env EBranchLocal (now w0)
    then (Thrown (injected EBranchLocal), record EBranchLocal false w0)
    else (Ok (current (git w)), record EBranchLocal true w0).
Proof.
  unfold LocalGit.getCurrentBranch, bind, branchLocal, gitCall, await, ret. cbn zeta.
  destruct (fault env EBranchLocal (now (runScheduled env w))); [reflexivity|].
  cbn. f_equal. now rewrite runScheduled_git.
Qed.

(** [isBranchExists], call by call. *)
Lemma isBranchExists_eq (b : string) (w : World) :
  LocalGit.isBranchExists env b w
  = let w0 := runScheduled env w in
    if fault env EBranchLocal (now w0)
    then (Thrown (injected EBranchLocal), record EBranchLocal false w0)
    else (Ok (JsonOps.mem b (all (git w))), record EBranchLocal true w0).
Proof.
  unfold LocalGit.isBranchExists, bind, branchLocal, gitCall, await, ret. cbn zeta.
  destruct (fault env EBranchLocal (now (runScheduled env w))); [reflexivity|].
  cbn. f_equal. now rewrite runScheduled_git.
Qed.

Lemma runOnBranch_eq {A : Type} (branch : string) (func : M A) (w : World) :
  LocalGit.runOnBranch env branch func w
  = match LocalGit.getCurrentBranch env w with
    | (Ok c, w1) =>
        let (r, w2) :=
          bind (if negb (String.eqb c branch) then checkout env branch else ret tt)
               (fun _ => func) w1 in
        match checkout env c w2 with
        | (Ok _, w3) => (r, w3)
        | (Thrown e, w3) => (Thrown e, w3)
        end
    | (Thrown e, w1) => (Thrown e, w1)
    end.
Proof.
  unfold LocalGit.runOnBranch. unfold bind at 1.
  destruct (LocalGit.getCurrentBranch env w) as [[c|e] w1]; [|reflexivity].
  unfold tryFinally, bind, ret.
  destruct (if negb (String.eqb c branch) then checkout env branch
            else fun w0 => (Ok tt, w0)) as [[u|e] w2]; [|reflexivity].
  destruct (func w2) as [[a|e] w3]; reflexivity.
Qed.

End BranchGuard.

(** X14.  [runOnBranch] runs [func] on the target branch only: a function
    that agrees with [func] wherever the repository is on that branch
    gives the same outcome and the same process.  When the checkout of
    the target fails, [func] is not run. *)
Theorem runOnBranch_runs_on_target
        (env : Runtime.Env) (A : Type) (branch : string) (func func' : Runtime.M A)
        (w : Runtime.World) :
  (forall w0, Runtime.current (Runtime.git w0) = branch -> func w0 = func' w0) ->
  LocalGit.runOnBranch env branch func w = LocalGit.runOnBranch env branch func' w.
Proof.
  intros H. rewrite !runOnBranch_eq, getCurrentBranch_eq. cbn zeta.
  destruct (Runtime.fault env Runtime.EBranchLocal _); [reflexivity|].
  set (w1 := Runtime.record Runtime.EBranchLocal true (Runtime.runScheduled env w)).
  assert (Hc : Runtime.current (Runtime.git w1) = Runtime.current (Runtime.git w))
    by (unfold w1; cbn; apply runScheduled_current).
  replace (Runtime.bind
             (if negb (Runtime.current (Runtime.git w) =? branch)
              then Runtime.checkout env branch else Runtime.ret tt)
             (fun _ => func) w1)
    with (Runtime.bind
            (if negb (Runtime.current (Runtime.git w) =? branch)
             then Runtime.checkout env branch else Runtime.ret tt)
            (fun _ => func') w1); [reflexivity|].
  unfold Runtime.bind.
  destruct (String.eqb_spec (Runtime.current (Runtime.git w)) branch) as [Heq|Hne]; cbn [negb].
  - unfold Runtime.ret. symmetry. apply H. congruence.
  - rewrite checkout_eq. cbn zeta.
    destruct (Runtime.fault env (Runtime.ECheckout branch) _); [reflexivity|].
    destruct (JsonOps.mem branch _); [|reflexivity].
    destruct (Runtime.switch _ _ branch) as [[root staged]|m]; [|reflexivity].
    symmetry. now apply H.
Qed.

Lemma runOnBranch_runs_on_target_witness :
  LocalGit.runOnBranch Samples.quiet "draft" (Runtime.ret 1) Samples.world
  = LocalGit.runOnBranch Samples.quiet "draft"
      (fun w0 => if String.eqb (Runtime.current (Runtime.git w0)) "draft"
                 then Runtime.ret 1 w0 else Runtime.throw "elsewhere" w0)
      Samples.world.
Proof.
  apply (runOnBranch_runs_on_target Samples.quiet nat "draft").
  intros w0 H. rewrite H. reflexivity.
Defined.




(** X17.  A request for a branch the repository does not have is answered
    422, with the name of the branch in the message, once the branches
    have been read: nothing is checked out, and the repository and the
    lock are as they were. *)
Theorem unknown_branch_refused
        (env : Runtime.Env) (repoPath : string) (body : Body) (ps : Params)
        (w : Runtime.World) :
  action body <> "info" ->
  params body = Some ps ->
  JsonOps.mem (branch ps) (Runtime.all (Runtime.git w)) = false ->
  Runtime.lockCount w = 0 ->
  (forall t, Runtime.fault env Runtime.EBranchLocal t = false) ->
  let w' := snd (LocalGit.localGitMiddleware env repoPath body w) in
  Runtime.responses w'
  = (Runtime.responses w
     ++ [ {| status := 422;
             json := LocalGit.error
                       ("Default branch '" ++ branch ps ++ "' doesn't exist") |} ])%list
  /\ Runtime.git w' = Runtime.git w
  /\ Runtime.lockCount w' = 0.
Proof.
  intros Ha Hp Hb H0 Hf. cbn zeta.
  unfold LocalGit.localGitMiddleware. rewrite acquire_eq. cbn zeta.
  rewrite runScheduled_lockCount, H0.
  unfold Runtime.tryFinally, Runtime.tryCatch, LocalGit.handle.
  rewrite (eqb_neq_false _ _ Ha), Hp. unfold Runtime.bind.
  rewrite isBranchExists_eq. cbn zeta. rewrite Hf.
  cbn [Runtime.git Runtime.record Runtime.setLockCount Runtime.all].
  rewrite (runScheduled_git env w), Hb. cbn.
  rewrite !runScheduled_git. cbn. rewrite runScheduled_git.
  pose proof (runScheduled_told env
                (Runtime.record Runtime.EAcquire true
                   (Runtime.setLockCount 1 (Runtime.runScheduled env w)))) as H1.
  unfold told in H1. injection H1 as Hr _. rewrite Hr. cbn.
  pose proof (runScheduled_told env w) as H2.
  unfold told in H2. injection H2 as Hr2 _. rewrite Hr2. repeat split.
  now rewrite runScheduled_lockCount.
Qed.

Lemma unknown_branch_refused_witness :
  Runtime.responses
    (snd (LocalGit.localGitMiddleware Samples.eager Samples.repoPath
            {| action := "getEntry";
               params := Some {| branch := "gone"; payload := GetEntryParams "posts/a.md" |} |}
            Samples.world))
  = [ {| status := 422;
         json := LocalGit.error "Default branch 'gone' doesn't exist" |} ].
Proof.
  refine (proj1 (unknown_branch_refused Samples.eager Samples.repoPath
                   {| action := "getEntry";
                      params := Some {| branch := "gone";
                                        payload := GetEntryParams "posts/a.md" |} |}
                   {| branch := "gone"; payload := GetEntryParams "posts/a.md" |}
                   Samples.world _ eq_refl eq_refl eq_refl (fun _ => eq_refl))).
  discriminate.
Defined.

(* ===================================================================== *)
(** ** The log of a request *)
(* ===================================================================== *)

Section Growing.
Import Runtime.
Variable env : Env.

Lemma grows_await {A : Type} (call : World -> Result A * World) :
  (forall w, grows w (snd (call w))) -> Respects grows (await env call).
Proof.
  intros H w. unfold await.
  eapply grows_trans; [apply runScheduled_grows | apply H].
Qed.

Lemma grows_gitCall {A : Type} (e : Event) (refused : Git -> option string)
      (result : Git -> A) (after : World -> Git) :
  Respects grows (gitCall env e refused result after).
Proof.
  apply grows_await. intros w.
  destruct (fault env e (now w)); [apply grows_record|].
  destruct (refused (git w)); [apply grows_record|].
  exists [(e, true)]. reflexivity.
Qed.

Lemma grows_checkout (b : string) : Respects grows (checkout env b).
Proof.
  intros w. eapply grows_trans; [apply (runScheduled_grows env)|].
  destruct (checkout_cases env b w) as [[m E] | [root [staged [_ [_ E]]]]];
    rewrite E; cbn [snd]; [apply grows_record|].
  exists [(ECheckout b, true)]. reflexivity.
Qed.

Lemma grows_readCall (e : Event) (read : Fs.Node -> Result Json) :
  Respects grows (readCall env e read).
Proof.
  apply grows_await. intros w.
  destruct (fault env e (now w)); [apply grows_record|].
  destruct (read (files w)); apply grows_record.
Qed.

Lemma grows_acquire (e : string) : Respects grows (acquire env e).
Proof.
  apply grows_await. intros w. destruct (lockCount w); [|apply grows_record].
  exists [(EAcquire, true)]. reflexivity.
Qed.

Lemma grows_release : Respects grows release.
Proof. intros w. exists [(ERelease, true)]. reflexivity. Qed.

Lemma grows_run {A : Type} (f : Io.t A) : Respects grows (run env f).
Proof. intros w. apply run_grows. Qed.

Lemma grows_bind {A B : Type} (m : M A) (f : A -> M B) :
  Respects grows m -> (forall a, Respects grows (f a)) -> Respects grows (bind m f).
Proof. apply respects_bind, grows_trans. Qed.

Lemma grows_forEach {A : Type} (f : A -> M unit) (l : list A) :
  (forall a, Respects grows (f a)) -> Respects grows (LocalGit.forEach f l).
Proof. apply respects_forEach; [exact grows_refl | exact grows_trans]. Qed.

Lemma grows_commit (m : string) : Respects grows (LocalGit.commit env m).
Proof.
  unfold LocalGit.commit. apply grows_bind; [|intros _]; apply grows_gitCall.
Qed.

Lemma grows_commitEntry (repoPath : string) (dataFiles : list DataFile.t)
      (assets : list Asset.t) (m : string) :
  Respects grows (LocalGit.commitEntry env repoPath dataFiles assets m).
Proof.
  unfold LocalGit.commitEntry.
  apply grows_bind; [apply grows_run|]. intros _.
  apply grows_bind; [apply grows_run|]. intros _.
  apply grows_bind; [|intros _; apply grows_commit].
  destruct (forallb LocalGit.hasNewPath dataFiles).
  - apply grows_forEach. intros d w. now apply grows_same_log.
  - intros w. apply grows_refl.
Qed.

Lemma grows_getCurrentBranch : Respects grows (LocalGit.getCurrentBranch env).
Proof.
  unfold LocalGit.getCurrentBranch. apply grows_bind; [apply grows_gitCall|].
  intros a w. apply grows_refl.
Qed.

Lemma grows_isBranchExists (b : string) :
  Respects grows (LocalGit.isBranchExists env b).
Proof.
  unfold LocalGit.isBranchExists. apply grows_bind; [apply grows_gitCall|].
  intros a w. apply grows_refl.
Qed.

End Growing.

(** Goals of the form [Respects grows m]. *)
Ltac growing :=
  repeat match goal with
    | |- Respects _ (Runtime.bind _ _) => apply grows_bind; [ | intros ? ]
    | |- Respects _ (LocalGit.commitEntry _ _ _ _ _) => apply grows_commitEntry
    | |- Respects _ (LocalGit.commit _ _) => apply grows_commit
    | |- Respects _ (LocalGit.isBranchExists _ _) => apply grows_isBranchExists
    | |- Respects _ (Runtime.run _ _) => apply grows_run
    | |- Respects _ (Runtime.readCall _ _ _) => apply grows_readCall
    | |- Respects _ (LocalGit.liftResult _) =>
        apply respects_liftResult; exact grows_refl
    | |- Respects _ (match ?x with _ => _ end) => destruct x
    | |- Respects _ (Runtime.respond _ _) => intros ?; now apply grows_same_log
    | |- Respects _ (Runtime.logError _) => intros ?; now apply grows_same_log
    | |- Respects _ (Runtime.ret _) => intros ?; apply grows_refl
    | |- Respects _ (Runtime.throw _) => intros ?; apply grows_refl
    | |- Respects _ LocalGit.castError => intros ?; apply grows_refl
    end.

(* ===================================================================== *)
(** ** The branch after a request *)
(* ===================================================================== *)

Section Restoring.
Import Runtime.
Variable env : Env.

Lemma restoreFailed_after (home : string) (w w1 w' : World) :
  grows w w1 -> restoreFailed home w1 w' -> restoreFailed home w w'.
Proof.
  intros [pre Hpre] [added [Hadd Hin]]. unfold grownBy in *.
  exists (pre ++ added)%list. split.
  - unfold grownBy. now rewrite Hadd, Hpre, app_assoc.
  - apply in_or_app. now right.
Qed.

Lemma restoreFailed_before (home : string) (w w1 w' : World) :
  restoreFailed home w w1 -> grows w1 w' -> restoreFailed home w w'.
Proof.
  intros [added [Hadd Hin]] [post Hpost]. unfold grownBy in *.
  exists (added ++ post)%list. split.
  - unfold grownBy. now rewrite Hpost, Hadd, app_assoc.
  - apply in_or_app. now left.
Qed.

Lemma unchanged_current (w w' : World) :
  unchanged w w' -> current (git w') = current (git w).
Proof. unfold unchanged, observed. congruence. Qed.

(** A computation that does not check anything out. *)
Lemma restores_plain {A : Type} (b : string) (m : M A) :
  Stable m -> Respects grows m -> Restores b m.
Proof.
  intros Hs Hg w. split; [apply Hg|]. left. apply unchanged_current, Hs.
Qed.

Lemma restores_pre {A B : Type} (b : string) (m : M A) (f : A -> M B) :
  Stable m -> Respects grows m -> (forall a, Restores b (f a)) ->
  Restores b (bind m f).
Proof.
  intros Hs Hg Hf w. unfold bind. specialize (Hs w). specialize (Hg w).
  apply unchanged_current in Hs.
  destruct (m w) as [[a|e] w1]; cbn [fst snd] in *.
  - destruct (Hf a w1) as [G [H|[He [Hb Hr]]]].
    + split; [eapply grows_trans; eassumption|]. left. congruence.
    + split; [eapply grows_trans; eassumption|]. right.
      split; [exact He|]. split; [exact Hb|]. rewrite <- Hs.
      eapply restoreFailed_after; eassumption.
  - split; [exact Hg | now left].
Qed.

Lemma restores_post {A B : Type} (b : string) (m : M A) (f : A -> M B) :
  Restores b m -> (forall a, Stable (f a)) -> (forall a, Respects grows (f a)) ->
  Restores b (bind m f).
Proof.
  intros Hm Hs Hg w. unfold bind. destruct (Hm w) as [G H].
  destruct (m w) as [[a|e] w1]; cbn [fst snd] in *.
  - specialize (Hs a w1). specialize (Hg a w1). apply unchanged_current in Hs.
    split; [eapply grows_trans; eassumption|].
    destruct H as [H|[[e He] _]]; [left; congruence | discriminate].
  - split; [exact G|]. destruct H as [H|[_ H]]; [now left | right].
    split; [now exists e | exact H].
Qed.

(** The branch guard: the branch found at entry is checked out at the
    end, and where that fails the repository is where the first
    checkout has put it. *)
Lemma restores_runOnBranch {A : Type} (b : string) (func : M A) :
  Stable func -> Respects grows func ->
  Restores b (LocalGit.runOnBranch env b func).
Proof.
  intros Hs Hg w. rewrite runOnBranch_eq, getCurrentBranch_eq. cbn zeta.
  pose proof (runScheduled_grows env w) as G0.
  pose proof (runScheduled_current env w) as C0.
  destruct (fault env EBranchLocal _); cbn [fst snd].
  { split; [eapply grows_trans; [exact G0 | apply grows_record]|]. left. exact C0. }
  set (home := current (git w)) in *.
  set (w1 := record EBranchLocal true (runScheduled env w)).
  assert (G1 : grows w w1)
    by (eapply grows_trans; [exact G0 | apply grows_record]).
  assert (C1 : current (git w1) = home) by exact C0.
  (* the body of the [try] *)
  assert (Hbody :
    let done := bind (if negb (home =? b) then checkout env b else ret tt)
                     (fun _ => func) w1 in
    grows w1 (snd done)
    /\ (current (git (snd done)) = home \/ current (git (snd done)) = b)).
  { cbn zeta. unfold bind.
    destruct (String.eqb_spec home b) as [Heq|Hne]; cbn [negb].
    - unfold ret. specialize (Hs w1). specialize (Hg w1).
      apply unchanged_current in Hs.
      destruct (func w1) as [r w2]; cbn [snd] in *. split; [exact Hg|].
      left. congruence.
    - pose proof (grows_checkout env b w1) as G2.
      destruct (checkout_cases env b w1) as [[m E] | [root [staged [_ [_ E]]]]];
        rewrite E in G2 |- *; cbn [snd] in G2 |- *.
      + split; [exact G2|]. left. cbn. rewrite runScheduled_current. exact C1.
      + match goal with |- context [func ?x] => set (w2 := x) in * end.
        specialize (Hs w2). specialize (Hg w2). apply unchanged_current in Hs.
        destruct (func w2) as [r w3]; cbn [snd] in *.
        split; [eapply grows_trans; eassumption|]. right. rewrite Hs. reflexivity. }
  cbn zeta in Hbody. destruct (bind _ _ w1) as [r w2]. cbn [snd] in Hbody.
  destruct Hbody as [G2 C2].
  (* the [finally] *)
  pose proof (grows_checkout env home w2) as G3.
  destruct (checkout_cases env home w2) as [[m E] | [root [staged [_ [_ E]]]]];
    rewrite E in G3 |- *; cbn [fst snd] in G3 |- *.
  - split; [eapply grows_trans; [exact G1 | eapply grows_trans; eassumption]|].
    assert (Hc : current (git (record (ECheckout home) false (runScheduled env w2)))
                 = current (git w2))
      by (cbn; apply runScheduled_current).
    destruct C2 as [C2|C2]; [left; congruence | right].
    split; [now exists m|]. split; [congruence|].
    eapply restoreFailed_after; [eapply grows_trans; [exact G1 | exact G2]|].
    destruct (runScheduled_grows env w2) as [pre Hpre]. unfold grownBy in Hpre.
    exists (pre ++ [(ECheckout home, false)])%list. split.
    + unfold grownBy. cbn. now rewrite Hpre, app_assoc.
    + apply in_or_app. right. now left.
  - split; [eapply grows_trans; [exact G1 | eapply grows_trans; eassumption]|].
    left. destruct r; reflexivity.
Qed.

Ltac restoring b :=
  apply restores_post;
  [ apply restores_runOnBranch; [ solve [auto 8 with stable] | growing ]
  | intros ?; solve [auto 8 with stable]
  | intros ?; growing ].

Lemma restores_dispatch (repoPath action branch : string) (payload : Payload) :
  Restores branch (LocalGit.dispatch env repoPath action branch payload).
Proof.
  unfold LocalGit.dispatch.
  repeat match goal with
         | |- Restores _ (if ?c then _ else _) => destruct c
         end;
    try (apply restores_plain; [auto with stable | growing]; fail);
    destruct payload;
    try (apply restores_plain; [apply stable_castError | growing]; fail);
    try (restoring branch; fail).
  destruct dataFiles as [given|]; [|destruct entry as [legacy|]]; restoring branch.
Qed.

(** The body of the [try] block. *)
Lemma handle_restores (repoPath : string) (body : Body) (w : World) :
  let done := LocalGit.handle env repoPath body w in
  grows w (snd done)
  /\ (current (git (snd done)) = current (git w)
      \/ exists e ps,
           fst done = Thrown e
           /\ params body = Some ps
           /\ current (git (snd done)) = branch ps
           /\ restoreFailed (current (git w)) w (snd done)).
Proof.
  cbn zeta. unfold LocalGit.handle.
  destruct (String.eqb (action body) "info").
  { split; [now apply grows_same_log | now left]. }
  destruct (params body) as [ps|].
  2:{ split; [apply grows_refl | now left]. }
  assert (H : Restores (branch ps)
                (bind (LocalGit.isBranchExists env (branch ps))
                      (fun branchExists =>
                         if negb branchExists
                         then respond 422
                                (LocalGit.error
                                   ("Default branch '" ++ branch ps ++ "' doesn't exist"))
                         else LocalGit.dispatch env repoPath (action body)
                                (branch ps) (payload ps)))).
  { apply restores_pre; [auto with stable | apply grows_isBranchExists|].
    intros found. destruct (negb found); [|apply restores_dispatch].
    apply restores_plain; [auto with stable | growing]. }
  destruct (H w) as [G [Hc|[[e He] [Hb Hr]]]].
  - split; [exact G | now left].
  - split; [exact G|]. right. now exists e, ps.
Qed.

End Restoring.

(** C1.  Whatever the action and however its handler ends, the branch
    the repository is on after the request is the branch it was on
    before it, unless the checkout of that branch in the [finally] of
    [runOnBranch] fails.  Then the repository stays on the branch of the
    request and the request is answered 500.  This holds whatever fails
    and whatever the unawaited functions do, and for the [info] probe as
    well, which never touches the repository. *)
Theorem branch_restored_unless_checkout_fails
        (env : Runtime.Env) (repoPath : string) (body : Body) (w : Runtime.World) :
  let home := Runtime.current (Runtime.git w) in
  let w' := snd (LocalGit.localGitMiddleware env repoPath body w) in
  Runtime.current (Runtime.git w') = home
  \/ exists ps added,
       params body = Some ps
       /\ Runtime.current (Runtime.git w') = branch ps
       /\ Runtime.log w' = (Runtime.log w ++ added)%list
       /\ In (Runtime.ECheckout home, false) added
       /\ Runtime.responses w'
          = (Runtime.responses w
             ++ [ {| status := 500; json := LocalGit.error "Unknown error" |} ])%list.
Proof.
  cbn zeta. unfold LocalGit.localGitMiddleware.
  pose proof (grows_acquire env "Request timed out" w) as G1.
  assert (K1 : keeps (fun w0 => (Runtime.current (Runtime.git w0), Runtime.responses w0))
                 w (snd (Runtime.acquire env "Request timed out" w)))
    by (apply keeps_acquire; intros; reflexivity).
  unfold keeps in K1.
  destruct (Runtime.acquire env "Request timed out" w) as [[u|e] w1];
    cbn [snd] in G1, K1; injection K1 as C1 R1.
  2:{ left. cbn. exact C1. }
  unfold Runtime.tryFinally, Runtime.tryCatch.
  pose proof (handle_restores env repoPath body w1) as H. cbn zeta in H.
  pose proof (answers_handle env repoPath body w1) as Ha.
  destruct (LocalGit.handle env repoPath body w1) as [[v|e] w2]; cbn [fst snd] in H.
  - left. destruct H as [_ [H|[e [ps [He _]]]]]; [|discriminate]. cbn. congruence.
  - destruct H as [G2 [H|[e' [ps [_ [Hp [Hb Hr]]]]]]]; [left; cbn; congruence|].
    right. exists ps.
    destruct G1 as [pre Hpre]. destruct Hr as [added [Hadd Hin]].
    unfold grownBy in Hpre, Hadd. unfold told in Ha. injection Ha as Hresp _.
    exists (pre ++ added ++ [(Runtime.ERelease, true)])%list. cbn.
    split; [exact Hp|]. split; [exact Hb|]. split.
    + now rewrite Hadd, Hpre, <- !app_assoc.
    + split; [|now rewrite Hresp, R1].
      apply in_or_app. right. apply in_or_app. left. now rewrite <- C1.
Qed.

(** The proviso is needed, and no call has to be made to fail for it.
    The branches [main] and [draft] hold different texts of
    [posts/a.md], and [main] is checked out.  A [persistEntry] for
    [draft] writes the file and then fails on an asset whose path is a
    directory.  Git will not check [main] out over the change: the
    repository stays on [draft], with the change in the working tree,
    and the answer is 500. *)
Lemma branch_not_restored_over_local_changes :
  let w := snd (LocalGit.localGitMiddleware Samples.quiet Samples.repoPath
                  Samples.persistMisplaced Samples.parted) in
  Runtime.current (Runtime.git Samples.parted) = "main"
  /\ Runtime.current (Runtime.git w) = "draft"
  /\ Runtime.log w
     = [ (Runtime.EAcquire, true);
         (Runtime.EBranchLocal, true);
         (Runtime.EBranchLocal, true);
         (Runtime.ECheckout "draft", true);
         (Runtime.EMkdir "/repo/posts", true);
         (Runtime.EWriteFile "/repo/posts/a.md", true);
         (Runtime.EMkdir "/repo", true);
         (Runtime.EWriteFile "/repo/img", false);
         (Runtime.ECheckout "main", false);
         (Runtime.ERelease, true) ]
  /\ Fs.fileAt ["repo"; "posts"; "a.md"] (Runtime.files w) = Some (Fs.Text "new")
  /\ Runtime.responses w
     = [ {| status := 500; json := LocalGit.error "Unknown error" |} ]
  /\ Runtime.lockCount w = 0.
Proof. cbn zeta. conjuncts; vm_compute; reflexivity. Qed.

(* ===================================================================== *)
(** ** Requests that only read *)
(* ===================================================================== *)

Section Idle.
Import Runtime.
Variable env : Env.

Variable b : string.

Lemma undisturbed_refl (w : World) : undisturbed b w w.
Proof. intros H _. now repeat split. Qed.

Lemma undisturbed_trans (w1 w2 w3 : World) :
  undisturbed b w1 w2 -> undisturbed b w2 w3 -> undisturbed b w1 w3.
Proof.
  intros H12 H23 H1 C1. destruct (H12 H1 C1) as [H2 [F2 G2]].
  destruct (H23 H2) as [H3 [F3 G3]]; [congruence|].
  repeat split; congruence.
Qed.

Lemma undisturbed_same (w w' : World) :
  pending w' = pending w -> files w' = files w -> git w' = git w ->
  undisturbed b w w'.
Proof. intros Hp Hf Hg H _. repeat split; congruence. Qed.

Lemma undisturbed_await {A : Type} (call : World -> Result A * World) :
  (forall w, current (git w) = b ->
             pending (snd (call w)) = pending w
             /\ files (snd (call w)) = files w
             /\ git (snd (call w)) = git w) ->
  Respects (undisturbed b) (await env call).
Proof.
  intros H w Hw Hc. unfold await. rewrite (runScheduled_idle env w Hw).
  destruct (H w Hc) as [Hp [Hf Hg]]. repeat split; congruence.
Qed.

Lemma undisturbed_branchLocal : Respects (undisturbed b) (branchLocal env).
Proof.
  apply undisturbed_await. intros w _.
  destruct (fault env EBranchLocal (now w)); now repeat split.
Qed.

Lemma undisturbed_readCall (e : Event) (read : Fs.Node -> Result Json) :
  Respects (undisturbed b) (readCall env e read).
Proof.
  apply undisturbed_await. intros w _.
  destruct (fault env e (now w)); [now repeat split|].
  destruct (read (files w)); now repeat split.
Qed.

Lemma undisturbed_acquire (e : string) : Respects (undisturbed b) (acquire env e).
Proof.
  apply undisturbed_await. intros w _. destruct (lockCount w); now repeat split.
Qed.

(** Checking out the branch the repository is on: whether git does it
    or fails, nothing has changed. *)
Lemma undisturbed_checkout : Respects (undisturbed b) (checkout env b).
Proof.
  apply undisturbed_await. intros w Hc. cbv beta zeta.
  destruct (fault env (ECheckout b) (now w)); [now repeat split|].
  destruct (negb (JsonOps.mem b (all (git w)))); [now repeat split|].
  rewrite <- Hc, switch_same. cbn. repeat split.
  apply setIndex_setCurrent_same.
Qed.

Lemma undisturbed_run {A : Type} (f : Io.t A) :
  Reads f -> Respects (undisturbed b) (run env f).
Proof.
  induction 1 as [a|e|dir k Hk IH]; cbn [run]; try (intros w; apply undisturbed_refl).
  intros w Hw Hc. rewrite (runScheduled_idle env w Hw).
  assert (step : forall r w1, pending w1 = [] -> files w1 = files w -> git w1 = git w ->
                 pending (snd (run env (k r) w1)) = []
                 /\ files (snd (run env (k r) w1)) = files w
                 /\ git (snd (run env (k r) w1)) = git w).
  { intros r w1 P F G. destruct (IH r w1 P) as [P' [F' G']]; [congruence|].
    repeat split; congruence. }
  unfold performFs. destruct (fault env _ _); [now apply step|].
  cbn [Fs.perform]. destruct (Fs.readdir dir (files w)) as [ds|m]; now apply step.
Qed.

Lemma undisturbed_bind {A B : Type} (m : M A) (f : A -> M B) :
  Respects (undisturbed b) m -> (forall a, Respects (undisturbed b) (f a)) ->
  Respects (undisturbed b) (bind m f).
Proof. apply respects_bind, undisturbed_trans. Qed.

(** [runOnBranch] for the branch the repository is on checks nothing out
    before [func] and the same branch after it. *)
Lemma undisturbed_runOnBranch {A : Type} (func : M A) :
  Respects (undisturbed b) func ->
  Respects (undisturbed b) (LocalGit.runOnBranch env b func).
Proof.
  intros Hf w Hw Hc. rewrite runOnBranch_eq, getCurrentBranch_eq. cbn zeta.
  rewrite (runScheduled_idle env w Hw).
  destruct (fault env EBranchLocal (now w)); [now repeat split|].
  rewrite Hc, String.eqb_refl. cbn [negb]. unfold bind, ret.
  set (w1 := record EBranchLocal true w).
  assert (H1 : pending w1 = [] /\ current (git w1) = b) by (now split).
  destruct H1 as [P1 C1]. specialize (Hf w1 P1 C1).
  destruct (func w1) as [r w2]. cbn [snd] in Hf. destruct Hf as [P2 [F2 G2]].
  assert (C2 : current (git w2) = b) by (rewrite G2; exact C1).
  pose proof (undisturbed_checkout w2 P2 C2) as H3.
  assert (F1 : files w1 = files w) by reflexivity.
  assert (G1 : git w1 = git w) by reflexivity.
  destruct (checkout env b w2) as [[u|e] w3]; cbn [snd] in H3 |- *;
    destruct H3 as [P3 [F3 G3]]; repeat split; congruence.
Qed.

Lemma reads_listRepoFiles (repoPath folder extension : string) (depth : Z) :
  Reads (FsUtils.listRepoFiles repoPath folder extension depth).
Proof.
  unfold FsUtils.listRepoFiles, FsUtils.listFiles.
  destruct (depth <=? 0)%Z; cbn; [constructor|].
  constructor. intros [ds|e]; constructor.
Qed.

End Idle.

(** Goals of the form [Respects undisturbed m], for the calls that do
    not write. *)
Ltac idling :=
  repeat match goal with
    | |- Respects _ (Runtime.bind _ _) => apply undisturbed_bind; [ | intros ? ]
    | |- Respects _ (LocalGit.runOnBranch _ _ _) => apply undisturbed_runOnBranch
    | |- Respects _ (Runtime.run _ (FsUtils.listRepoFiles _ _ _ _)) =>
        apply undisturbed_run, reads_listRepoFiles
    | |- Respects _ (Runtime.readCall _ _ _) => apply undisturbed_readCall
    | |- Respects _ (LocalGit.liftResult _) =>
        apply respects_liftResult; apply undisturbed_refl
    | |- Respects _ (Runtime.respond _ _) =>
        intros ?; apply undisturbed_same; reflexivity
    | |- Respects _ (Runtime.ret _) => intros ?; apply undisturbed_refl
    | |- Respects _ (Runtime.throw _) => intros ?; apply undisturbed_refl
    | |- Respects _ LocalGit.castError => intros ?; apply undisturbed_refl
    end.

Section Reading.
Import Runtime.
Variable env : Env.

Lemma history_frame :
  (forall e ok w, history (record e ok w) = history w)
  /\ (forall root w, history (setFiles root w) = history w)
  /\ (forall ps w, history (setPending ps w) = history w).
Proof. repeat split. Qed.

Lemma dispatch_reads (repoPath action branch : string) (payload : Payload) :
  ~ In action writeActions ->
  Respects (keeps history) (LocalGit.dispatch env repoPath action branch payload)
  /\ Respects (undisturbed branch)
       (LocalGit.dispatch env repoPath action branch payload).
Proof.
  intros Hn. unfold LocalGit.dispatch, LocalGit.castError.
  repeat match goal with
         | |- context [if String.eqb action ?s then _ else _] =>
             destruct (String.eqb_spec action s) as [->|?]
         end;
    try (exfalso; apply Hn; cbn; tauto);
    (split; [ destruct payload; framing; intros ?; reflexivity
            | destruct payload; idling ]).
Qed.

Lemma handle_reads (repoPath : string) (body : Body) :
  ~ In (action body) writeActions ->
  Respects (keeps history) (LocalGit.handle env repoPath body)
  /\ (forall b, (forall ps, params body = Some ps -> branch ps = b) ->
                Respects (undisturbed b) (LocalGit.handle env repoPath body)).
Proof.
  intros Hn. unfold LocalGit.handle.
  destruct (String.eqb (action body) "info").
  { split; [intros w; reflexivity|]. intros b _ w. now apply undisturbed_same. }
  destruct (params body) as [ps|].
  2:{ split; [intros w; reflexivity|]. intros b _ w. apply undisturbed_refl. }
  destruct (dispatch_reads repoPath (action body) (branch ps) (payload ps) Hn) as [H1 H2].
  split.
  - apply keeps_bind; [framing|]. intros found.
    destruct (negb found); [intros w; reflexivity | exact H1].
  - intros b Hb. rewrite <- (Hb ps eq_refl). apply undisturbed_bind.
    + unfold LocalGit.isBranchExists. apply undisturbed_bind;
        [apply undisturbed_branchLocal | intros a w; apply undisturbed_refl].
    + intros found. destruct (negb found); [|exact H2].
      intros w. now apply undisturbed_same.
Qed.

End Reading.

(** X18.  A request for an action that does not write makes no commit
    and moves no branch: the tips of the branches and the commits are as
    they were.  This holds for the actions that read, for an action the
    dispatcher does not know, and for a request that does not get the
    lock.  On a server with no unawaited function running, a request for
    the branch the repository is on starts none and leaves the working
    tree and the repository, the index included, as they were: nothing
    is checked out before the action, and the checkout after it is of
    the same branch. *)
Theorem reading_requests_write_nothing
        (env : Runtime.Env) (repoPath : string) (body : Body) (w : Runtime.World) :
  ~ In (action body) writeActions ->
  let w' := snd (LocalGit.localGitMiddleware env repoPath body w) in
  history w' = history w
  /\ (Runtime.pending w = [] ->
      (forall ps, params body = Some ps ->
                  branch ps = Runtime.current (Runtime.git w)) ->
      Runtime.pending w' = []
      /\ Runtime.files w' = Runtime.files w
      /\ Runtime.git w' = Runtime.git w).
Proof.
  intros Hn. cbn zeta.
  destruct (handle_reads env repoPath body Hn) as [H1 H2].
  assert (Hk : Respects (keeps history)
                 (Runtime.tryCatch (LocalGit.handle env repoPath body) LocalGit.onError)).
  { apply respects_tryCatch; [apply keeps_trans | exact H1 |].
    intros e w0. reflexivity. }
  unfold LocalGit.localGitMiddleware.
  assert (Ha : keeps history w (snd (Runtime.acquire env "Request timed out" w)))
    by (apply keeps_acquire; intros; reflexivity).
  pose proof (undisturbed_acquire env (Runtime.current (Runtime.git w))
                "Request timed out" w) as Hb.
  destruct (Runtime.acquire env "Request timed out" w) as [[u|e] w1]; cbn in Ha, Hb.
  - unfold Runtime.tryFinally. specialize (Hk w1).
    destruct (Runtime.tryCatch _ _ w1) as [r w2] eqn:E. cbn in Hk |- *.
    split.
    + unfold keeps in *. change (history w2 = history w). congruence.
    + intros Hw Hps. destruct (Hb Hw eq_refl) as [P1 [F1 G1]].
      assert (Hu : Respects (undisturbed (Runtime.current (Runtime.git w)))
                     (Runtime.tryCatch (LocalGit.handle env repoPath body)
                                       LocalGit.onError)).
      { apply respects_tryCatch; [apply undisturbed_trans | exact (H2 _ Hps) |].
        intros e w0. now apply undisturbed_same. }
      specialize (Hu w1 P1). rewrite E in Hu. cbn [snd] in Hu.
      destruct Hu as [P2 [F2 G2]]; [now rewrite G1|].
      repeat split; congruence.
  - cbn. split; [exact Ha|]. intros Hw _. now apply Hb.
Qed.

Lemma reading_requests_write_nothing_witness :
  let w' := snd (LocalGit.localGitMiddleware Samples.quiet Samples.repoPath
                   {| action := "getMedia";
                      params := Some {| branch := "main";
                                        payload := GetMediaParams "img" |} |}
                   Samples.world) in
  history w' = history Samples.world
  /\ Runtime.pending w' = []
  /\ Runtime.files w' = Runtime.files Samples.world
  /\ Runtime.git w' = Runtime.git Samples.world.
Proof.
  assert (Hn : ~ In "getMedia" writeActions).
  { cbn. intros [H|[H|[H|[H|[]]]]]; discriminate. }
  pose proof (reading_requests_write_nothing Samples.quiet Samples.repoPath
                {| action := "getMedia";
                   params := Some {| branch := "main";
                                     payload := GetMediaParams "img" |} |}
                Samples.world Hn) as [H1 H2].
  split; [exact H1|]. apply H2; [reflexivity|].
  intros ps Hps. injection Hps as <-. reflexivity.
Defined.

(* ===================================================================== *)
(** ** The commits of a request *)
(* ===================================================================== *)

Section Accounting.
Import Runtime.
Variable env : Env.

Lemma committed_ext (b m : string) (w1 w2 w w' : World) :
  commitsOf w1 = commitsOf w -> commitsOf w' = commitsOf w2 ->
  committed b m w1 w2 -> committed b m w w'.
Proof. intros H1 H2 [tree H]. exists tree. congruence. Qed.

Lemma accounted_ext (body : Body) (w1 w2 w w' : World) :
  commitsOf w1 = commitsOf w -> commitsOf w' = commitsOf w2 ->
  accounted body w1 w2 -> accounted body w w'.
Proof.
  intros H1 H2 [ps [m [Hp [Hm Hc]]]]. exists ps, m.
  repeat split; try assumption. eapply committed_ext; eassumption.
Qed.

Lemma runScheduled_commitsOf (w : World) : commitsOf (runScheduled env w) = commitsOf w.
Proof. unfold commitsOf. now rewrite runScheduled_git. Qed.

Lemma commits_commit (b m : string) : Commits b m (LocalGit.commit env m).
Proof.
  intros w Hc. unfold LocalGit.commit, bind, add, gitCommit, gitCall, await.
  destruct (fault env EAdd _).
  { left. apply runScheduled_commitsOf. }
  match goal with
  | |- context [runScheduled env ?x] =>
      match x with record _ _ _ => set (w1 := x) end
  end.
  assert (Hg : git (runScheduled env w1) = git w1) by apply runScheduled_git.
  assert (H1 : commitsOf w1 = commitsOf w)
    by (unfold w1, commitsOf; cbn; now rewrite runScheduled_git).
  assert (H2 : current (git w1) = b)
    by (unfold w1; cbn; now rewrite runScheduled_git).
  destruct (fault env (ECommit m) _).
  - left. cbn [snd]. unfold commitsOf in *. cbn. now rewrite Hg.
  - cbn [snd]. unfold committed, commitsOf in *.
    cbn [git record setGit]. rewrite Hg, <- H1, <- H2.
    destruct (commits_commitStaged m (git w1)) as [E|E]; rewrite E;
      [now left | right; eexists; reflexivity].
Qed.

Lemma commits_pre {A B : Type} (b m : string) (pre : M A) (f : A -> M B) :
  Stable pre -> Respects (keeps commitsOf) pre ->
  (forall a, Commits b m (f a)) -> Commits b m (bind pre f).
Proof.
  intros Hs Hk Hf w Hc. unfold bind. specialize (Hs w). specialize (Hk w).
  destruct (pre w) as [[a|e] w1]; cbn [snd] in Hs, Hk |- *.
  - unfold unchanged, observed in Hs. injection Hs as _ Hcur _.
    destruct (Hf a w1 (eq_trans Hcur Hc)) as [H|H].
    + left. unfold keeps in Hk. congruence.
    + right. eapply committed_ext; [exact Hk | reflexivity | exact H].
  - left. exact Hk.
Qed.

Lemma commits_post {A B : Type} (b m : string) (f : M A) (g : A -> M B) :
  Commits b m f -> (forall a, Respects (keeps commitsOf) (g a)) ->
  Commits b m (bind f g).
Proof.
  intros Hf Hg w Hc. unfold bind. specialize (Hf w Hc).
  destruct (f w) as [[a|e] w1]; cbn [snd] in Hf |- *; [|exact Hf].
  specialize (Hg a w1). unfold keeps in Hg.
  destruct Hf as [H|H]; [left; congruence | right].
  eapply committed_ext; [reflexivity | exact Hg | exact H].
Qed.

Lemma commits_commitEntry (b repoPath : string) (dataFiles : list DataFile.t)
      (assets : list Asset.t) (m : string) :
  Commits b m (LocalGit.commitEntry env repoPath dataFiles assets m).
Proof.
  unfold LocalGit.commitEntry.
  apply commits_pre; [auto with stable | framing | intros _].
  apply commits_pre; [auto with stable | framing | intros _].
  apply commits_pre; [ | | intros _; apply commits_commit].
  - destruct (forallb LocalGit.hasNewPath dataFiles); auto with stable.
  - destruct (forallb LocalGit.hasNewPath dataFiles).
    + apply keeps_forEach. intros d w. reflexivity.
    + intros w. reflexivity.
Qed.

(** The branch guard around a function that commits. *)
Lemma runOnBranch_commits {A : Type} (b m : string) (func : M A) (w : World) :
  Commits b m func ->
  commitsOf (snd (LocalGit.runOnBranch env b func w)) = commitsOf w
  \/ committed b m w (snd (LocalGit.runOnBranch env b func w)).
Proof.
  intros Hf. rewrite runOnBranch_eq, getCurrentBranch_eq. cbn zeta.
  destruct (fault env EBranchLocal _).
  { left. apply runScheduled_commitsOf. }
  set (w1 := record EBranchLocal true (runScheduled env w)).
  assert (H1 : commitsOf w1 = commitsOf w) by apply runScheduled_commitsOf.
  assert (Hc : current (git w1) = current (git w))
    by (unfold w1; cbn; apply runScheduled_current).
  assert (Hbody :
    let done := bind (if negb (current (git w) =? b) then checkout env b else ret tt)
                     (fun _ => func) w1 in
    commitsOf (snd done) = commitsOf w \/ committed b m w (snd done)).
  { cbn zeta. unfold bind.
    destruct (String.eqb_spec (current (git w)) b) as [Heq|Hne]; cbn [negb].
    - unfold ret. destruct (Hf w1 (eq_trans Hc Heq)) as [H|H].
      + left. destruct (func w1); cbn [snd] in *. congruence.
      + right. destruct (func w1); cbn [snd] in *.
        eapply committed_ext; [exact H1 | reflexivity | exact H].
    - assert (H2 : commitsOf (runScheduled env w1) = commitsOf w)
        by (rewrite runScheduled_commitsOf; exact H1).
      destruct (checkout_cases env b w1) as [[e E] | [root [staged [_ [_ E]]]]];
        rewrite E; [left; exact H2|].
      match goal with |- context [func ?x] => set (w2 := x) end.
      assert (H3 : commitsOf w2 = commitsOf w) by exact H2.
      destruct (Hf w2 eq_refl) as [H|H].
      + left. destruct (func w2); cbn [snd] in *. congruence.
      + right. destruct (func w2); cbn [snd] in *.
        eapply committed_ext; [exact H3 | reflexivity | exact H]. }
  cbn zeta in Hbody. destruct (bind _ _ w1) as [r w2]. cbn [snd] in Hbody.
  assert (Hk : keeps commitsOf w2 (snd (checkout env (current (git w)) w2)))
    by (apply keeps_checkout; intros; reflexivity).
  unfold keeps in Hk.
  destruct (checkout env (current (git w)) w2) as [[u|e] w3]; cbn [snd] in Hk |- *;
    (destruct Hbody as [Hb|Hb]; [left; congruence | right];
     eapply committed_ext; [reflexivity | exact Hk | exact Hb]).
Qed.

(** A writing action served: at most one commit, and one answer if the
    branch guard returns. *)
Lemma serve_write {A : Type} (b m : string) (func : M A) (answer : A -> option Json)
      (w : World) :
  Commits b m func -> Respects (keeps told) func ->
  let done := bind (LocalGit.runOnBranch env b func)
                   (fun a => respond 200 (answer a)) w in
  match fst done with
  | Ok _ => exists x, responses (snd done) = (responses w ++ [x])%list
  | Thrown _ => responses (snd done) = responses w
  end
  /\ (commitsOf (snd done) = commitsOf w \/ committed b m w (snd done)).
Proof.
  intros Hc Ht. cbn zeta. unfold bind.
  pose proof (runOnBranch_commits b m func w Hc) as H1.
  assert (H2 : keeps told w (snd (LocalGit.runOnBranch env b func w)))
    by (apply keeps_runOnBranch; try (intros; reflexivity); exact Ht).
  destruct (LocalGit.runOnBranch env b func w) as [[a|e] w1]; cbn [fst snd] in *;
    unfold keeps, told in H2; injection H2 as Hr _.
  - split; [cbn; eexists; rewrite Hr; reflexivity|].
    destruct H1 as [H1|H1]; [now left | right].
    eapply committed_ext; [reflexivity | | exact H1]. reflexivity.
  - split; assumption.
Qed.

Lemma dispatch_writes (repoPath action b : string) (payload : Payload) (w : World) :
  In action writeActions ->
  let done := LocalGit.dispatch env repoPath action b payload w in
  match fst done with
  | Ok _ => exists x, responses (snd done) = (responses w ++ [x])%list
  | Thrown _ => responses (snd done) = responses w
  end
  /\ (commitsOf (snd done) = commitsOf w
      \/ exists m, commitMessageOf payload = Some m /\ committed b m w (snd done)).
Proof.
  assert (Hserve : forall (A : Type) (m : string) (func : M A) (answer : A -> option Json),
             commitMessageOf payload = Some m ->
             Commits b m func -> Respects (keeps told) func ->
             let done := bind (LocalGit.runOnBranch env b func)
                              (fun a => respond 200 (answer a)) w in
             match fst done with
             | Ok _ => exists x, responses (snd done) = (responses w ++ [x])%list
             | Thrown _ => responses (snd done) = responses w
             end
             /\ (commitsOf (snd done) = commitsOf w
                 \/ exists m, commitMessageOf payload = Some m
                              /\ committed b m w (snd done))).
  { intros A m func answer Hm Hc Ht.
    destruct (serve_write b m func answer w Hc Ht) as [H1 H2].
    split; [exact H1|]. destruct H2 as [H2|H2]; [now left | right; now exists m]. }
  intros Hin. cbn in Hin.
  destruct Hin as [<-|[<-|[<-|[<-|[]]]]]; unfold LocalGit.dispatch; cbn [String.eqb Ascii.eqb Bool.eqb];
    destruct payload; try (cbn; split; [reflexivity | now left]).
  - (* persistEntry *)
    destruct dataFiles as [given|]; [|destruct entry as [legacy|]].
    + apply (Hserve unit commitMessage0); [reflexivity | apply commits_commitEntry | framing].
    + apply (Hserve unit commitMessage0); [reflexivity | apply commits_commitEntry | framing].
    + apply (Hserve unit commitMessage0); [reflexivity | | framing].
      intros w0 _. now left.
  - (* persistMedia *)
    apply (Hserve Json commitMessage0 _ (fun file => Some file)); [reflexivity | | framing].
    apply commits_pre; [auto with stable | framing | intros _].
    apply commits_post; [apply commits_commit | intros _; framing].
  - (* deleteFile *)
    apply (Hserve unit commitMessage0); [reflexivity | | framing].
    apply commits_pre; [auto with stable | framing | intros _; apply commits_commit].
  - (* deleteFiles *)
    apply (Hserve unit commitMessage0); [reflexivity | | framing].
    apply commits_pre; [auto with stable | framing | intros _; apply commits_commit].
Qed.

End Accounting.

Section Requests.
Import Runtime.
Variable env : Env.

Lemma history_commitsOf (w w' : World) : history w' = history w -> commitsOf w' = commitsOf w.
Proof. unfold history, commitsOf. congruence. Qed.

Lemma handle_accounts (repoPath : string) (body : Body) (w : World) :
  let done := LocalGit.handle env repoPath body w in
  match fst done with
  | Ok _ => exists x, responses (snd done) = (responses w ++ [x])%list
  | Thrown _ => responses (snd done) = responses w
  end
  /\ (commitsOf (snd done) = commitsOf w \/ accounted body w (snd done)).
Proof.
  cbn zeta. destruct (in_dec string_dec (action body) writeActions) as [Hin|Hn].
  - unfold LocalGit.handle.
    assert (Hi : String.eqb (action body) "info" = false).
    { cbn in Hin. destruct Hin as [<-|[<-|[<-|[<-|[]]]]]; reflexivity. }
    rewrite Hi. destruct (params body) as [ps|] eqn:Hp.
    2:{ cbn. split; [reflexivity | now left]. }
    unfold bind.
    assert (H1 : keeps told w (snd (LocalGit.isBranchExists env (branch ps) w)))
      by (apply keeps_isBranchExists; intros; reflexivity).
    assert (H2 : keeps commitsOf w (snd (LocalGit.isBranchExists env (branch ps) w)))
      by (apply keeps_isBranchExists; intros; reflexivity).
    destruct (LocalGit.isBranchExists env (branch ps) w) as [[found|e] w1];
      cbn [fst snd] in *; unfold keeps, told in H1; injection H1 as Hr _.
    2:{ split; [exact Hr | now left]. }
    destruct found; cbn [negb].
    + destruct (dispatch_writes env repoPath (action body) (branch ps) (payload ps)
                  w1 Hin) as [Hx Hc].
      cbn zeta in Hx, Hc. split.
      * destruct (fst (LocalGit.dispatch _ _ _ _ _ _)); [|congruence].
        destruct Hx as [x Hx]. exists x. now rewrite Hx, Hr.
      * destruct Hc as [Hc|[m [Hm Hc]]]; [left; unfold keeps in H2; congruence | right].
        exists ps, m. repeat split; try assumption.
        eapply committed_ext; [exact H2 | reflexivity | exact Hc].
    + cbn. split; [eexists; rewrite Hr; reflexivity | now left].
  - destruct (handle_reads env repoPath body Hn) as [Hh _].
    specialize (Hh w). apply history_commitsOf in Hh.
    pose proof (answers_handle env repoPath body w) as Ha.
    destruct (LocalGit.handle env repoPath body w) as [[u|e] w1]; cbn [fst snd] in *.
    + destruct Ha as [x [Hx _]]. split; [now exists x | now left].
    + unfold told in Ha. injection Ha as Hx _. split; [exact Hx | now left].
Qed.

(** The request, from the lock to its release. *)
Lemma request_accounts (repoPath : string) (body : Body) (w : World) :
  let w' := snd (LocalGit.localGitMiddleware env repoPath body w) in
  exists x,
    responses w' = (responses w ++ [x])%list
    /\ (commitsOf w' = commitsOf w \/ accounted body w w').
Proof.
  cbn zeta. unfold LocalGit.localGitMiddleware.
  assert (H1 : keeps told w (snd (acquire env "Request timed out" w)))
    by (apply keeps_acquire; intros; reflexivity).
  assert (H2 : keeps commitsOf w (snd (acquire env "Request timed out" w)))
    by (apply keeps_acquire; intros; reflexivity).
  destruct (acquire env "Request timed out" w) as [[u|e] w1]; cbn in H1, H2;
    unfold told in H1; injection H1 as Hr _.
  - unfold tryFinally, tryCatch.
    destruct (handle_accounts repoPath body w1) as [Hx Hc]. cbn zeta in Hx, Hc.
    destruct (LocalGit.handle env repoPath body w1) as [[v|e] w2]; cbn [fst snd] in *.
    + destruct Hx as [x Hx]. exists x. cbn. rewrite Hx, Hr.
      split; [reflexivity|].
      destruct Hc as [Hc|Hc]; [left; unfold keeps, commitsOf in *; cbn; congruence | right].
      eapply accounted_ext; [exact H2 | | exact Hc]. reflexivity.
    + cbn. eexists. rewrite Hx, Hr. split; [reflexivity|].
      destruct Hc as [Hc|Hc]; [left; unfold keeps, commitsOf in *; cbn; congruence | right].
      eapply accounted_ext; [exact H2 | | exact Hc]. reflexivity.
  - cbn. eexists. rewrite Hr. split; [reflexivity | now left].
Qed.

End Requests.

(** X19.  A request makes at most one commit, and where it makes one the
    commit is on the branch of its parameters and carries their commit
    message.  This holds whatever fails and whatever the unawaited
    functions do. *)
Theorem request_commits_at_most_once
        (env : Runtime.Env) (repoPath : string) (body : Body) (w : Runtime.World) :
  let w' := snd (LocalGit.localGitMiddleware env repoPath body w) in
  commitsOf w' = commitsOf w
  \/ exists ps m tree,
       params body = Some ps
       /\ commitMessageOf (payload ps) = Some m
       /\ commitsOf w'
          = (commitsOf w
             ++ [ {| Runtime.onBranch := branch ps; Runtime.commitMessage := m;
                     Runtime.tree := tree |} ])%list.
Proof.
  cbn zeta. destruct (request_accounts env repoPath body w) as [x [_ H]].
  destruct H as [H|[ps [m [Hp [Hm [tree Hc]]]]]]; [now left | right].
  now exists ps, m, tree.
Qed.

Section Saving.
Import Runtime.
Variable env : Env.

Lemma saved_after (m : string) (w w1 w' : World) :
  grows w w1 -> saved m w1 w' -> saved m w w'.
Proof.
  intros [pre Hpre] [added [Hadd [Ha Hc]]]. unfold grownBy in *.
  exists (pre ++ added)%list. repeat split.
  - unfold grownBy. now rewrite Hadd, Hpre, app_assoc.
  - apply in_or_app. now right.
  - apply in_or_app. now right.
Qed.

Lemma saved_before (m : string) (w w1 w' : World) :
  saved m w w1 -> grows w1 w' -> saved m w w'.
Proof.
  intros [added [Hadd [Ha Hc]]] [post Hpost]. unfold grownBy in *.
  exists (added ++ post)%list. repeat split.
  - unfold grownBy. now rewrite Hpost, Hadd, app_assoc.
  - apply in_or_app. now left.
  - apply in_or_app. now left.
Qed.

Lemma saves_commit (m : string) : Saves m (LocalGit.commit env m).
Proof.
  intros w. unfold LocalGit.commit, bind, add, gitCommit, gitCall, await.
  destruct (runScheduled_grows env w) as [pre Hpre]. unfold grownBy in Hpre.
  destruct (fault env EAdd _); [exact I|].
  match goal with
  | |- context [runScheduled env ?x] =>
      match x with record _ _ _ => set (w1 := x) end
  end.
  assert (H1 : log w1 = (log w ++ pre ++ [(EAdd, true)])%list)
    by (unfold w1; cbn; now rewrite Hpre, app_assoc).
  destruct (runScheduled_grows env w1) as [mid Hmid]. unfold grownBy in Hmid.
  destruct (fault env (ECommit m) _); [exact I|].
  exists ((pre ++ [(EAdd, true)]) ++ mid ++ [(ECommit m, true)])%list. repeat split.
  - unfold grownBy. cbn. now rewrite Hmid, H1, <- !app_assoc.
  - apply in_or_app. left. apply in_or_app. right. now left.
  - apply in_or_app. right. apply in_or_app. right. now left.
Qed.

Lemma saves_pre {A B : Type} (m : string) (pre : M A) (f : A -> M B) :
  Respects grows pre -> (forall a, Saves m (f a)) -> Saves m (bind pre f).
Proof.
  intros Hg Hf w. unfold bind. specialize (Hg w).
  destruct (pre w) as [[a|e] w1]; cbn [snd] in Hg; [|exact I].
  specialize (Hf a w1). destruct (f a w1) as [[r|e] w2]; [|exact I].
  eapply saved_after; eassumption.
Qed.

Lemma saves_post {A B : Type} (m : string) (f : M A) (g : A -> M B) :
  Saves m f -> (forall a, Respects grows (g a)) -> Saves m (bind f g).
Proof.
  intros Hf Hg w. unfold bind. specialize (Hf w).
  destruct (f w) as [[a|e] w1]; [|exact I].
  specialize (Hg a w1). destruct (g a w1) as [[r|e] w2]; [|exact I].
  eapply saved_before; eassumption.
Qed.

Lemma saves_commitEntry (repoPath : string) (dataFiles : list DataFile.t)
      (assets : list Asset.t) (m : string) :
  Saves m (LocalGit.commitEntry env repoPath dataFiles assets m).
Proof.
  unfold LocalGit.commitEntry.
  apply saves_pre; [growing | intros _].
  apply saves_pre; [growing | intros _].
  apply saves_pre; [|intros _; apply saves_commit].
  destruct (forallb LocalGit.hasNewPath dataFiles).
  - apply grows_forEach. intros d w. now apply grows_same_log.
  - intros w. apply grows_refl.
Qed.

(** The branch guard returns what [func] returned, after it. *)
Lemma saves_runOnBranch {A : Type} (b m : string) (func : M A) :
  Saves m func -> Saves m (LocalGit.runOnBranch env b func).
Proof.
  intros Hf w. rewrite runOnBranch_eq.
  pose proof (grows_getCurrentBranch env w) as G1.
  destruct (LocalGit.getCurrentBranch env w) as [[c|e] w1]; cbn [snd] in G1; [|exact I].
  assert (Hbody :
    match bind (if negb (c =? b) then checkout env b else ret tt) (fun _ => func) w1 with
    | (Ok _, w2) => saved m w1 w2
    | (Thrown _, _) => True
    end).
  { apply (saves_pre m); [|intros _; exact Hf].
    destruct (negb (c =? b)); [apply grows_checkout | intros w0; apply grows_refl]. }
  destruct (bind _ _ w1) as [[a|e] w2].
  - pose proof (grows_checkout env c w2) as G3.
    destruct (checkout env c w2) as [[u|e] w3]; [|exact I]. cbn [snd] in G3.
    eapply saved_after; [exact G1|]. eapply saved_before; eassumption.
  - destruct (checkout env c w2) as [[u|e'] w3]; exact I.
Qed.

Lemma dispatch_saves (repoPath action b : string) (payload : Payload) (w : World) :
  In action writeActions ->
  match LocalGit.dispatch env repoPath action b payload w with
  | (Ok _, w') => exists m, commitMessageOf payload = Some m /\ saved m w w'
  | (Thrown _, _) => True
  end.
Proof.
  assert (Hserve : forall (A : Type) (m : string) (func : M A) (answer : A -> option Json),
             commitMessageOf payload = Some m -> Saves m func ->
             match bind (LocalGit.runOnBranch env b func)
                        (fun a => respond 200 (answer a)) w with
             | (Ok _, w') => exists m, commitMessageOf payload = Some m /\ saved m w w'
             | (Thrown _, _) => True
             end).
  { intros A m func answer Hm Hf.
    assert (H : Saves m (bind (LocalGit.runOnBranch env b func)
                              (fun a => respond 200 (answer a)))).
    { apply saves_post; [now apply saves_runOnBranch|].
      intros a w0. now apply grows_same_log. }
    specialize (H w). destruct (bind _ _ w) as [[u|e] w']; [|exact I]. now exists m. }
  intros Hin. cbn in Hin.
  destruct Hin as [<-|[<-|[<-|[<-|[]]]]]; unfold LocalGit.dispatch; cbn [String.eqb Ascii.eqb Bool.eqb];
    destruct payload; try exact I.
  - (* persistEntry *)
    destruct dataFiles as [given|]; [|destruct entry as [legacy|]].
    + apply (Hserve unit commitMessage0); [reflexivity | apply saves_commitEntry].
    + apply (Hserve unit commitMessage0); [reflexivity | apply saves_commitEntry].
    + apply (Hserve unit commitMessage0); [reflexivity|]. intros w0. exact I.
  - (* persistMedia *)
    apply (Hserve Json commitMessage0 _ (fun file => Some file)); [reflexivity|].
    apply saves_pre; [growing | intros _].
    apply saves_post; [apply saves_commit | intros _; growing].
  - (* deleteFile *)
    apply (Hserve unit commitMessage0); [reflexivity|].
    apply saves_pre; [growing | intros _; apply saves_commit].
  - (* deleteFiles *)
    apply (Hserve unit commitMessage0); [reflexivity|].
    apply saves_pre; [growing | intros _; apply saves_commit].
Qed.

(** When the body of the [try] block returns for a writing action, it
    has answered 422 for a branch that is not there, or the dispatcher
    has returned. *)
Lemma handle_saves (repoPath : string) (body : Body) (w : World) :
  In (action body) writeActions ->
  match LocalGit.handle env repoPath body w with
  | (Ok _, w') =>
      (exists x, responses w' = (responses w ++ [x])%list /\ status x = 422)
      \/ (exists ps m, params body = Some ps
                       /\ commitMessageOf (payload ps) = Some m
                       /\ saved m w w')
  | (Thrown _, _) => True
  end.
Proof.
  intros Hin. unfold LocalGit.handle.
  assert (Hi : String.eqb (action body) "info" = false).
  { cbn in Hin. destruct Hin as [<-|[<-|[<-|[<-|[]]]]]; reflexivity. }
  rewrite Hi. destruct (params body) as [ps|] eqn:Hp; [|exact I].
  unfold bind.
  assert (H1 : keeps told w (snd (LocalGit.isBranchExists env (branch ps) w)))
    by (apply keeps_isBranchExists; intros; reflexivity).
  pose proof (grows_isBranchExists env (branch ps) w) as G1.
  destruct (LocalGit.isBranchExists env (branch ps) w) as [[found|e] w1];
    cbn [fst snd] in *; unfold keeps, told in H1; injection H1 as Hr _; [|exact I].
  destruct found; cbn [negb].
  - pose proof (dispatch_saves repoPath (action body) (branch ps) (payload ps) w1 Hin) as H.
    destruct (LocalGit.dispatch _ _ _ _ _ _) as [[u|e] w2]; [|exact I].
    destruct H as [m [Hm Hs]]. right. exists ps, m. repeat split; try assumption.
    eapply saved_after; eassumption.
  - left. cbn. eexists. rewrite Hr. split; reflexivity.
Qed.

End Saving.

(** X20.  The answer 200 to a writing action means that git was told to
    commit and did not fail: for a [persistEntry], [persistMedia],
    [deleteFile] or [deleteFiles] request that is answered 200, the
    calls of the request include a [git add] and a [git commit] with the
    commit message of its parameters, both carried out.  Whether a
    commit was made is another matter: with nothing staged git makes
    none and reports no error. *)
Theorem success_means_commit_called
        (env : Runtime.Env) (repoPath : string) (body : Body) (w : Runtime.World)
        (x : Response) :
  In (action body) writeActions ->
  Runtime.responses (snd (LocalGit.localGitMiddleware env repoPath body w))
  = (Runtime.responses w ++ [x])%list ->
  status x = 200 ->
  exists ps m added,
    params body = Some ps
    /\ commitMessageOf (payload ps) = Some m
    /\ Runtime.log (snd (LocalGit.localGitMiddleware env repoPath body w))
       = (Runtime.log w ++ added)%list
    /\ In (Runtime.EAdd, true) added
    /\ In (Runtime.ECommit m, true) added.
Proof.
  intros Hin Hx H200. revert Hx. unfold LocalGit.localGitMiddleware.
  assert (H1 : keeps told w (snd (Runtime.acquire env "Request timed out" w)))
    by (apply keeps_acquire; intros; reflexivity).
  pose proof (grows_acquire env "Request timed out" w) as G1.
  destruct (Runtime.acquire env "Request timed out" w) as [[u|e] w1];
    cbn [snd] in H1, G1; unfold keeps, told in H1; injection H1 as Hr _.
  2:{ cbn. rewrite Hr. intros Hx. apply app_inj_tail in Hx. destruct Hx as [_ <-].
      discriminate. }
  unfold Runtime.tryFinally, Runtime.tryCatch.
  pose proof (handle_saves env repoPath body w1 Hin) as H.
  pose proof (answers_handle env repoPath body w1) as Ha.
  destruct (LocalGit.handle env repoPath body w1) as [[v|e] w2].
  - cbn. intros Hx. destruct H as [[x' [Hx' H422]] | [ps [m [Hp [Hm Hs]]]]].
    + rewrite Hx', Hr in Hx. apply app_inj_tail in Hx. destruct Hx as [_ ->].
      rewrite H200 in H422. discriminate.
    + assert (Hs' : saved m w (Runtime.record Runtime.ERelease true
                                 (Runtime.setLockCount (pred (Runtime.lockCount w2)) w2))).
      { eapply saved_after; [exact G1|]. eapply saved_before; [exact Hs|].
        exists [(Runtime.ERelease, true)]. reflexivity. }
      destruct Hs' as [added [Hadd [Hi1 Hi2]]]. now exists ps, m, added.
  - cbn. unfold told in Ha. injection Ha as Hresp _. rewrite Hresp, Hr.
    intros Hx. apply app_inj_tail in Hx. destruct Hx as [_ <-]. discriminate.
Qed.

Lemma success_means_commit_called_witness :
  exists ps m added,
    params {| action := "deleteFile";
              params := Some {| branch := "draft";
                                payload := DeleteFileParams "posts/a.md" "rm" |} |}
    = Some ps
    /\ commitMessageOf (payload ps) = Some m
    /\ Runtime.log
         (snd (LocalGit.localGitMiddleware Samples.quiet Samples.repoPath
                 {| action := "deleteFile";
                    params := Some {| branch := "draft";
                                      payload := DeleteFileParams "posts/a.md" "rm" |} |}
                 Samples.world))
       = (Runtime.log Samples.world ++ added)%list
    /\ In (Runtime.EAdd, true) added
    /\ In (Runtime.ECommit m, true) added.
Proof.
  apply (success_means_commit_called Samples.quiet Samples.repoPath
           {| action := "deleteFile";
              params := Some {| branch := "draft";
                                payload := DeleteFileParams "posts/a.md" "rm" |} |}
           Samples.world
           {| status := 200; json := LocalGit.message "deleted file posts/a.md" |}).
  - cbn. tauto.
  - vm_compute. reflexivity.
  - reflexivity.
Defined.

(* ===================================================================== *)
(** ** Deleting *)
(* ===================================================================== *)

Section Deleting.
Import Runtime.
Variable env : Env.
Hypothesis git_works : gitWorks env.

Lemma run_deleteFile_returns (repoPath filePath : string) (w : World) :
  fst (run env (FsUtils.deleteFile repoPath filePath) w) = Ok tt.
Proof.
  unfold FsUtils.deleteFile. rewrite run_tryCatch, run_call.
  destruct (performFs env _ _) as [[[]|e] w1]; reflexivity.
Qed.

Lemma run_all_deleteFile_returns (repoPath : string) (paths : list string) (w : World) :
  exists done,
    fst (run env (Io.all (map (fun filePath => FsUtils.deleteFile repoPath filePath)
                              paths)) w)
    = Ok done.
Proof.
  revert w. induction paths as [|p paths IH]; intros w; cbn [map].
  - exists []. reflexivity.
  - rewrite run_all_cons.
    pose proof (run_deleteFile_returns repoPath p w) as Hp.
    destruct (run env (FsUtils.deleteFile repoPath p) w) as [r w1]. cbn in Hp. subst r.
    destruct (IH w1) as [done Hd].
    destruct (run env (Io.all _) w1) as [rs w2]. cbn in Hd. subst rs.
    eexists. reflexivity.
Qed.

Lemma commit_returns (m : string) (w : World) :
  fst (LocalGit.commit env m w) = Ok tt.
Proof.
  unfold LocalGit.commit, bind, add, gitCommit, gitCall, await.
  rewrite (git_works EAdd) by reflexivity.
  rewrite (git_works (ECommit m)) by reflexivity. reflexivity.
Qed.

(** With git at work, the branch guard for the branch the repository is
    on returns what [func] returns: nothing is checked out before
    [func], and the checkout of the same branch after it changes
    nothing. *)
Lemma runOnBranch_returns {A : Type} (branch : string) (func : M A) (w : World) :
  JsonOps.mem branch (all (git w)) = true ->
  current (git w) = branch ->
  Stable func ->
  (forall w0, exists a, fst (func w0) = Ok a) ->
  exists a, fst (LocalGit.runOnBranch env branch func w) = Ok a.
Proof.
  intros Hb Hc Hs Hr. rewrite runOnBranch_eq, getCurrentBranch_eq. cbn zeta.
  rewrite (git_works EBranchLocal) by reflexivity.
  set (w1 := record EBranchLocal true (runScheduled env w)).
  assert (Ho1 : observed w1 = observed w)
    by (unfold w1; apply (runScheduled_unchanged env w)).
  rewrite Hc, String.eqb_refl. cbn [negb]. unfold bind, ret.
  destruct (Hr w1) as [a Ha]. specialize (Hs w1).
  destruct (func w1) as [r w2]. cbn [fst snd] in Ha, Hs. subst r.
  assert (Ho2 : observed (runScheduled env w2) = observed w).
  { rewrite <- Ho1, <- Hs. apply (runScheduled_unchanged env w2). }
  unfold observed in Ho2. injection Ho2 as _ Hc2 Ha2.
  rewrite checkout_eq. cbn zeta.
  rewrite (git_works (ECheckout branch)) by reflexivity.
  rewrite Ha2, Hb. rewrite <- Hc, <- Hc2, switch_same. now exists a.
Qed.

(** A request whose guarded function returns is answered with what the
    handler makes of the result. *)
Lemma served {A : Type} (repoPath : string) (body : Body) (ps : Params)
      (func : M A) (answer : A -> option Json) (w : World) :
  String.eqb (action body) "info" = false ->
  params body = Some ps ->
  LocalGit.dispatch env repoPath (action body) (branch ps) (payload ps)
  = bind (LocalGit.runOnBranch env (branch ps) func)
         (fun a => respond 200 (answer a)) ->
  lockCount w = 0 ->
  JsonOps.mem (branch ps) (all (git w)) = true ->
  current (git w) = branch ps ->
  Stable func -> Respects (keeps told) func ->
  (forall w0, exists a, fst (func w0) = Ok a) ->
  exists a,
    responses (snd (LocalGit.localGitMiddleware env repoPath body w))
    = (responses w ++ [ {| status := 200; json := answer a |} ])%list.
Proof.
  intros Hi Hp Hd H0 Hb Hc Hs Ht Hr.
  unfold LocalGit.localGitMiddleware. rewrite acquire_eq. cbn zeta.
  rewrite runScheduled_lockCount, H0.
  set (w1 := record EAcquire true (setLockCount 1 (runScheduled env w))).
  assert (Hg1 : git w1 = git w) by (unfold w1; cbn; apply runScheduled_git).
  assert (Hr1 : responses w1 = responses w).
  { unfold w1. cbn. apply runScheduled_responses. }
  unfold tryFinally, tryCatch, LocalGit.handle. rewrite Hi, Hp. unfold bind at 1.
  rewrite isBranchExists_eq. cbn zeta. rewrite (git_works EBranchLocal) by reflexivity.
  rewrite Hg1, Hb. cbn [negb].
  set (w2 := record EBranchLocal true (runScheduled env w1)).
  assert (Hg2 : git w2 = git w) by (unfold w2; cbn; now rewrite runScheduled_git).
  assert (Hr2 : responses w2 = responses w).
  { change (responses (runScheduled env w1) = responses w).
    now rewrite runScheduled_responses. }
  rewrite Hd. unfold bind.
  destruct (runOnBranch_returns (branch ps) func w2) as [a Ha];
    try assumption; try (rewrite Hg2; assumption).
  assert (Hk : keeps told w2 (snd (LocalGit.runOnBranch env (branch ps) func w2)))
    by (apply keeps_runOnBranch; try (intros; reflexivity); exact Ht).
  destruct (LocalGit.runOnBranch env (branch ps) func w2) as [r w3].
  cbn [fst snd] in Ha, Hk. subst r. unfold keeps, told in Hk.
  assert (Hr3 : responses w3 = responses w2) by congruence.
  exists a. cbn [snd fst release respond record addResponse setLockCount responses].
  now rewrite Hr3, Hr2.
Qed.

End Deleting.

(** X21.  With git at work, [deleteFile] for the branch the repository
    is on is answered 200 whether the file was there or not and whether
    [unlink] failed or not: the rejection of [unlink] is dropped, and
    the branch guard has nothing to check out that git could refuse.
    This holds on a free server, whatever the unawaited functions do. *)
Theorem deleteFile_answers_200_without_file
        (env : Runtime.Env) (repoPath b filePath m : string) (w : Runtime.World) :
  gitWorks env ->
  Runtime.lockCount w = 0 ->
  JsonOps.mem b (Runtime.all (Runtime.git w)) = true ->
  Runtime.current (Runtime.git w) = b ->
  let body := {| action := "deleteFile";
                 params := Some {| branch := b;
                                   payload := DeleteFileParams filePath m |} |} in
  let w' := snd (LocalGit.localGitMiddleware env repoPath body w) in
  Runtime.responses w'
  = (Runtime.responses w
     ++ [ {| status := 200;
             json := LocalGit.message ("deleted file " ++ filePath) |} ])%list.
Proof.
  intros Hg H0 Hb Hc. cbn zeta.
  set (body := {| action := "deleteFile";
                  params := Some {| branch := b;
                                    payload := DeleteFileParams filePath m |} |}).
  destruct (served env Hg repoPath body
              {| branch := b; payload := DeleteFileParams filePath m |}
              (Runtime.bind (Runtime.run env (FsUtils.deleteFile repoPath filePath))
                            (fun _ => LocalGit.commit env m))
              (fun _ => LocalGit.message ("deleted file " ++ filePath)) w)
    as [a Hr]; try assumption; try reflexivity.
  - auto with stable.
  - framing.
  - intros w0. unfold Runtime.bind.
    pose proof (run_deleteFile_returns env repoPath filePath w0) as H.
    destruct (Runtime.run env _ w0) as [r w1]. cbn in H. subst r.
    exists tt. apply commit_returns, Hg.
Qed.

Lemma deleteFile_answers_200_without_file_witness :
  Runtime.responses
    (snd (LocalGit.localGitMiddleware Samples.quiet Samples.repoPath
            {| action := "deleteFile";
               params := Some {| branch := "main";
                                 payload := DeleteFileParams "posts/none.md" "rm" |} |}
            Samples.world))
  = [ {| status := 200; json := LocalGit.message "deleted file posts/none.md" |} ].
Proof.
  refine (deleteFile_answers_200_without_file Samples.quiet Samples.repoPath "main"
            "posts/none.md" "rm" Samples.world _ eq_refl eq_refl eq_refl).
  intros e t _. reflexivity.
Defined.

(** X22.  With git at work, [deleteFiles] for the branch the repository
    is on is answered 200 for every list of paths, whichever of them
    name a file: the rejections of [unlink] are dropped one by one. *)
Theorem deleteFiles_answers_200_without_files
        (env : Runtime.Env) (repoPath b m : string) (paths : list string)
        (w : Runtime.World) :
  gitWorks env ->
  Runtime.lockCount w = 0 ->
  JsonOps.mem b (Runtime.all (Runtime.git w)) = true ->
  Runtime.current (Runtime.git w) = b ->
  let body := {| action := "deleteFiles";
                 params := Some {| branch := b;
                                   payload := DeleteFilesParams paths m |} |} in
  let w' := snd (LocalGit.localGitMiddleware env repoPath body w) in
  Runtime.responses w'
  = (Runtime.responses w
     ++ [ {| status := 200;
             json := LocalGit.message
                       ("deleted files " ++ JsString.join ", " paths) |} ])%list.
Proof.
  intros Hg H0 Hb Hc. cbn zeta.
  set (body := {| action := "deleteFiles";
                  params := Some {| branch := b;
                                    payload := DeleteFilesParams paths m |} |}).
  destruct (served env Hg repoPath body
              {| branch := b; payload := DeleteFilesParams paths m |}
              (Runtime.bind
                 (Runtime.run env
                    (Io.all (map (fun filePath => FsUtils.deleteFile repoPath filePath)
                                 paths)))
                 (fun _ => LocalGit.commit env m))
              (fun _ => LocalGit.message ("deleted files " ++ JsString.join ", " paths)) w)
    as [a Hr]; try assumption; try reflexivity.
  - auto with stable.
  - framing.
  - intros w0. unfold Runtime.bind.
    destruct (run_all_deleteFile_returns env repoPath paths w0) as [done H].
    destruct (Runtime.run env _ w0) as [r w1]. cbn in H. subst r.
    exists tt. apply commit_returns, Hg.
Qed.

Lemma deleteFiles_answers_200_without_files_witness :
  Runtime.responses
    (snd (LocalGit.localGitMiddleware Samples.quiet Samples.repoPath
            {| action := "deleteFiles";
               params := Some {| branch := "main";
                                 payload := DeleteFilesParams
                                              ["posts/a.md"; "posts/none.md"] "rm" |} |}
            Samples.world))
  = [ {| status := 200;
         json := LocalGit.message "deleted files posts/a.md, posts/none.md" |} ].
Proof.
  refine (deleteFiles_answers_200_without_files Samples.quiet Samples.repoPath "main"
            "rm" ["posts/a.md"; "posts/none.md"] Samples.world _
            eq_refl eq_refl eq_refl).
  intros e t _. reflexivity.
Defined.

(* ===================================================================== *)
(** ** A quiet server, call by call *)
(* ===================================================================== *)

Section Quiet.
Import Runtime.
Variable env : Env.
Hypothesis no_fault : faultless env.

Lemma acquire_quiet (e : string) (w : World) :
  pending w = [] -> lockCount w = 0 ->
  acquire env e w = (Ok tt, record EAcquire true (setLockCount 1 w)).
Proof.
  intros Hp H0. rewrite acquire_eq. cbn zeta.
  rewrite (runScheduled_idle env w Hp), H0. reflexivity.
Qed.

Lemma isBranchExists_quiet (b : string) (w : World) :
  pending w = [] ->
  LocalGit.isBranchExists env b w
  = (Ok (JsonOps.mem b (all (git w))), record EBranchLocal true w).
Proof.
  intros Hp. rewrite isBranchExists_eq. cbn zeta.
  now rewrite (runScheduled_idle env w Hp), no_fault.
Qed.

(** The checkout of the branch the repository is on. *)
Lemma checkout_quiet (b : string) (w : World) :
  pending w = [] -> JsonOps.mem b (all (git w)) = true -> current (git w) = b ->
  checkout env b w = (Ok tt, record (ECheckout b) true w).
Proof.
  intros Hp Hb Hc. rewrite checkout_eq. cbn zeta.
  rewrite (runScheduled_idle env w Hp), no_fault, Hb.
  rewrite <- Hc, switch_same, setIndex_setCurrent_same. now destruct w.
Qed.



Lemma run_writeFile_quiet (filePath : string) (content : Fs.Content)
      (w : World) (made written : Fs.Node) :
  pending w = [] ->
  Fs.mkdir (NodePath.dirname filePath) (files w) = Ok made ->
  Fs.writeFile filePath content made = Ok written ->
  run env (FsUtils.writeFile filePath content) w
  = (Ok tt,
     record (EWriteFile filePath) true
       (setFiles written
          (record (EMkdir (NodePath.dirname filePath)) true (setFiles made w)))).
Proof.
  intros Hp Hm Hw. unfold FsUtils.writeFile. rewrite run_bind, run_call.
  rewrite (runScheduled_idle env w Hp). unfold performFs at 1.
  rewrite no_fault. cbn [Fs.perform]. rewrite Hm. cbn [Fs.unitResult].
  rewrite run_call, runScheduled_idle by exact Hp. unfold performFs.
  rewrite no_fault. cbn [Fs.perform files setFiles record]. rewrite Hw. reflexivity.
Qed.

(** The branch guard for the branch the repository is on, around a
    function whose outcome is known. *)
Lemma runOnBranch_quiet {A : Type} (b : string) (func : M A) (w : World)
      (r : Result A) (w2 : World) :
  pending w = [] ->
  JsonOps.mem b (all (git w)) = true ->
  current (git w) = b ->
  func (record EBranchLocal true w) = (r, w2) ->
  pending w2 = [] -> all (git w2) = all (git w) -> current (git w2) = b ->
  LocalGit.runOnBranch env b func w = (r, record (ECheckout b) true w2).
Proof.
  intros Hp Hb Hc Hf Hp2 Ha2 Hc2. rewrite runOnBranch_eq, getCurrentBranch_eq. cbn zeta.
  rewrite (runScheduled_idle env w Hp), no_fault. unfold bind.
  rewrite Hc, String.eqb_refl. cbn [negb]. unfold ret. rewrite Hf.
  rewrite checkout_quiet; [|exact Hp2|now rewrite Ha2|exact Hc2].
  now destruct r.
Qed.

End Quiet.

Section Media.
Import Runtime.
Variable env : Env.
Hypothesis no_fault : faultless env.


End Media.



(* ===================================================================== *)
(** ** Moving a file and what lies beside it *)
(* ===================================================================== *)

Section Moving.
Import Runtime.
Variable env : Env.

Lemma run_moveFile_logged (from to : string) (w w1 : World) :
  run env (FsUtils.moveFile from to) w = (Ok tt, w1) ->
  exists l1, log w1 = (log w ++ l1 ++ [(ERename from to, true)])%list.
Proof.
  unfold FsUtils.moveFile. rewrite run_bind, run_call.
  destruct (runScheduled_grows env w) as [a1 H1]. unfold grownBy in H1.
  destruct (performFs_log env (Fs.Mkdir (NodePath.dirname to)) (runScheduled env w))
    as [ok [H2 _]].
  destruct (performFs env (Fs.Mkdir (NodePath.dirname to)) (runScheduled env w))
    as [[u|e] wa]; cbn in H2; [|discriminate].
  rewrite run_call.
  destruct (runScheduled_grows env wa) as [a3 H3]. unfold grownBy in H3.
  destruct (performFs_cases env (Fs.Rename from to) (runScheduled env wa))
    as [[r [root E]] | [m E]]; rewrite E; [|discriminate].
  intros H. injection H as _ <-. cbn.
  exists (a1 ++ [(EMkdir (NodePath.dirname to), ok)] ++ a3)%list.
  rewrite H3, H2, H1. now rewrite <- !app_assoc.
Qed.

Lemma run_all_moveFile_logged {X : Type} (from to : X -> string)
      (xs : list X) (w w1 : World) (rs : list unit) :
  run env (Io.all (map (fun x => FsUtils.moveFile (from x) (to x)) xs)) w
  = (Ok rs, w1) ->
  forall x, In x xs ->
    exists l1 l2, log w1 = (log w ++ l1 ++ (ERename (from x) (to x), true) :: l2)%list.
Proof.
  revert w rs. induction xs as [|y xs IH]; intros w rs H x Hin; [contradiction|].
  cbn [map] in H. rewrite run_all_cons in H.
  destruct (run env (FsUtils.moveFile (from y) (to y)) w) as [r wa] eqn:E1.
  destruct (run env (Io.all (map _ xs)) wa) as [rs' w2] eqn:E2.
  destruct r as [[]|e]; [|discriminate]. destruct rs' as [l|e]; [|discriminate].
  injection H as _ <-.
  destruct Hin as [<-|Hin].
  - destruct (run_moveFile_logged _ _ _ _ E1) as [l1 H1].
    pose proof (run_grows env (Io.all (map (fun x => FsUtils.moveFile (from x) (to x)) xs)) wa)
      as [more Hmore].
    rewrite E2 in Hmore. unfold grownBy in Hmore. cbn in Hmore.
    exists l1, more. rewrite Hmore, H1. now rewrite <- !app_assoc.
  - destruct (IH wa l E2 x Hin) as [l1 [l2 H2]].
    pose proof (run_grows env (FsUtils.moveFile (from y) (to y)) w) as [first Hfirst].
    rewrite E1 in Hfirst. unfold grownBy in Hfirst. cbn in Hfirst.
    exists (first ++ l1)%list, l2. rewrite H2, Hfirst. now rewrite <- !app_assoc.
Qed.

(** With the empty extension every entry has its [file], so every entry
    gets its [moveFile]. *)
Lemma moves_of_listing (sourceDir destDir : string) (dirents : list Fs.Dirent) :
  FsUtils.moves sourceDir destDir
    (map (fun dirent =>
            {| FsUtils.file :=
                 FsUtils.matching (NodePath.join2 sourceDir (Fs.name dirent)) "";
               FsUtils.isDirectory := Fs.isDirectory dirent |})
         dirents)
  = Ok (map (fun dirent =>
               FsUtils.moveFile
                 (NodePath.join2 sourceDir (Fs.name dirent))
                 (FsUtils.replaceFirst (NodePath.join2 sourceDir (Fs.name dirent))
                                       sourceDir destDir))
            dirents).
Proof.
  induction dirents as [|d ds IH]; [reflexivity|].
  cbn [map FsUtils.moves FsUtils.file]. unfold FsUtils.matching at 1.
  cbn [filter]. rewrite endsWith_empty. cbn [hd_error]. now rewrite IH.
Qed.

End Moving.

(** X24.  [move] takes along what lies beside the file.  On a quiet server
    (no call fails, no unawaited function is running), when [move]
    returns it has made the directory of the destination and renamed the
    file, and for every entry that the directory of the source then
    holds, file or directory, it has called [rename] with success, from
    the entry to the same path with the directory of the source replaced
    by that of the destination. *)
Theorem move_takes_siblings_along
        (env : Runtime.Env) (from to : string) (w : Runtime.World) :
  let sourceDir := NodePath.dirname from in
  let destDir := NodePath.dirname to in
  let done := Runtime.run env (FsUtils.move from to) w in
  faultless env ->
  Runtime.pending w = [] ->
  fst done = Ok tt ->
  exists made renamed,
    Fs.mkdir destDir (Runtime.files w) = Ok made
    /\ Fs.rename from to made = Ok renamed
    /\ forall dirents dirent,
         Fs.readdir sourceDir renamed = Ok dirents -> In dirent dirents ->
         let entry := NodePath.join2 sourceDir (Fs.name dirent) in
         In (Runtime.ERename entry (FsUtils.replaceFirst entry sourceDir destDir), true)
            (Runtime.log (snd done)).
Proof.
  intros sourceDir destDir done Hn Hp. subst done.
  destruct (Runtime.run env (FsUtils.move from to) w) as [r wF] eqn:E.
  cbn [fst snd]. intros ->.
  unfold FsUtils.move in E.
  rewrite run_bind in E. unfold FsUtils.moveFile at 1 in E.
  rewrite run_bind, !run_call in E.
  rewrite (runScheduled_idle env w Hp) in E. unfold Runtime.performFs at 1 in E.
  rewrite Hn in E. cbn [Fs.perform] in E. fold destDir in E.
  destruct (Fs.mkdir destDir (Runtime.files w)) as [made|e] eqn:Hm;
    cbn [Fs.unitResult] in E; [|discriminate].
  rewrite run_call, runScheduled_idle in E by exact Hp.
  unfold Runtime.performFs at 1 in E.
  rewrite Hn in E. cbn [Fs.perform Runtime.files Runtime.setFiles Runtime.record] in E.
  destruct (Fs.rename from to made) as [renamed|e] eqn:Hr;
    cbn [Fs.unitResult] in E; [|discriminate].
  exists made, renamed. split; [reflexivity|]. split; [exact Hr|].
  intros dirents dirent Hd Hin.
  fold sourceDir in E. rewrite run_bind in E.
  unfold FsUtils.listFiles in E. cbn [Z.leb Z.compare] in E.
  rewrite run_tryCatch, run_bind, run_call in E.
  rewrite runScheduled_idle in E by exact Hp. unfold Runtime.performFs at 1 in E.
  rewrite Hn in E. cbn [Fs.perform Runtime.files Runtime.setFiles Runtime.record] in E.
  rewrite Hd in E.
  cbn [Runtime.run Runtime.ret] in E. cbn zeta in E. rewrite moves_of_listing in E.
  rewrite run_bind in E.
  match type of E with
  | context [Runtime.run env (Io.all ?ps) ?w3] =>
      destruct (Runtime.run env (Io.all ps) w3) as [[rs|e] w4] eqn:E2;
        [|discriminate]
  end.
  cbn [Runtime.run Runtime.ret] in E. injection E as <-.
  destruct (run_all_moveFile_logged env
              (fun d => NodePath.join2 sourceDir (Fs.name d))
              (fun d => FsUtils.replaceFirst (NodePath.join2 sourceDir (Fs.name d))
                                             sourceDir destDir)
              dirents _ w4 rs E2 dirent Hin) as [l1 [l2 Hlog]].
  rewrite Hlog. apply in_or_app. right. apply in_or_app. right. now left.
Qed.

Lemma move_takes_siblings_along_witness :
  exists made renamed,
    Fs.mkdir (NodePath.dirname "/repo/drafts/a.md") (Runtime.files Samples.world) = Ok made
    /\ Fs.rename "/repo/posts/a.md" "/repo/drafts/a.md" made = Ok renamed
    /\ forall dirents dirent,
         Fs.readdir (NodePath.dirname "/repo/posts/a.md") renamed = Ok dirents ->
         In dirent dirents ->
         In (Runtime.ERename
               (NodePath.join2 (NodePath.dirname "/repo/posts/a.md") (Fs.name dirent))
               (FsUtils.replaceFirst
                  (NodePath.join2 (NodePath.dirname "/repo/posts/a.md") (Fs.name dirent))
                  (NodePath.dirname "/repo/posts/a.md")
                  (NodePath.dirname "/repo/drafts/a.md")),
             true)
            (Runtime.log
               (snd (Runtime.run Samples.quiet
                       (FsUtils.move "/repo/posts/a.md" "/repo/drafts/a.md")
                       Samples.world))).
Proof.
  apply (move_takes_siblings_along Samples.quiet "/repo/posts/a.md" "/repo/drafts/a.md"
           Samples.world).
  - intros e t. reflexivity.
  - reflexivity.
  - vm_compute. reflexivity.
Defined.

(* ===================================================================== *)
(** ** Exclusive parameters *)
(* ===================================================================== *)

Section Peers.
Import JsonOps.

(** An object whose keys have all passed is judged by its exclusive
    peers: exactly one of them must be there. *)
Lemma validate_peers (p : Joi.Presence) (peers : list string)
      (parent fields : list (string * Json)) (l : Joi.Label) :
  p <> Joi.forbidden ->
  Joi.validate true (Joi.JoiObject p [] peers) parent l (Some (JObj fields))
  = match peers with
    | [] => None
    | _ =>
        match filter (fun k => hasKey k fields) peers with
        | [] => Some (Joi.msgObjectMissing l peers)
        | [_] => None
        | _ => Some (Joi.msgObjectXor l peers)
        end
    end.
Proof. intros Hp. destruct p; try contradiction; reflexivity. Qed.

End Peers.

(** X25.  [persistEntry] takes either [entry] or [dataFiles]: parameters
    with both, or with neither, are answered 422 by the validator,
    whatever their other fields. *)
Theorem persistEntry_needs_one_of_entry_and_dataFiles
        (repoPath : string) (fields ps : list (string * Json)) :
  JsonOps.assoc "action" fields = Some (JStr "persistEntry") ->
  JsonOps.assoc "params" fields = Some (JObj ps) ->
  JsonOps.hasKey "entry" ps = JsonOps.hasKey "dataFiles" ps ->
  exists message,
    Validator.joi (Validator.getSchema repoPath) (Some (JObj fields))
    = Validator.Responded {| status := 422; json := LocalGit.error message |}.
Proof.
  intros Ha Hp Hk. rewrite joi_of_validate.
  rewrite (validate_body repoPath "persistEntry" fields Ha) by reflexivity.
  unfold Validator.params. rewrite validate_when, Ha, Hp. pick_case. cbv iota.
  repeat (rewrite validate_object_cons by discriminate;
          match goal with
          | |- context [match ?v with Some _ => _ | None => _ end] =>
              match v with
              | Joi.validate _ _ _ _ _ =>
                  destruct v as [err|]; [exists err; reflexivity|]
              end
          end).
  rewrite validate_peers by discriminate. cbn [filter]. rewrite Hk.
  destruct (JsonOps.hasKey "dataFiles" ps); eexists; reflexivity.
Qed.

Lemma persistEntry_needs_one_of_entry_and_dataFiles_witness :
  exists message,
    Validator.joi (Validator.getSchema "/repo")
      (Route.request "persistEntry"
         [ ("branch", JStr "main"); ("assets", JArr []);
           ("options", Route.optionsJson "save") ])
    = Validator.Responded {| status := 422; json := LocalGit.error message |}.
Proof.
  apply (persistEntry_needs_one_of_entry_and_dataFiles "/repo"
           [ ("action", JStr "persistEntry");
             ("params", JObj [ ("branch", JStr "main"); ("assets", JArr []);
                               ("options", Route.optionsJson "save") ]) ]
           [ ("branch", JStr "main"); ("assets", JArr []);
             ("options", Route.optionsJson "save") ]);
    reflexivity.
Defined.

(* ===================================================================== *)
(** ** The media of a folder *)
(* ===================================================================== *)

Section MediaListing.
Import Runtime.
Variable env : Env.
Hypothesis no_fault : faultless env.

(** The listing [getMedia] asks for: one level, every entry. *)
Lemma listRepoFiles_quiet (repoPath mediaFolder : string) (w : World) :
  let dir := NodePath.join2 repoPath mediaFolder in
  pending w = [] ->
  run env (FsUtils.listRepoFiles repoPath mediaFolder "" 1) w
  = match Fs.readdir dir (files w) with
    | Ok dirents =>
        (Ok (map (fun d =>
                    {| FsUtils.file :=
                         Some (JsString.slice (NodePath.join2 dir (Fs.name d))
                                              (JsString.len repoPath + 1) None);
                       FsUtils.isDirectory := Fs.isDirectory d |})
                 dirents),
         record (EReaddir dir) true w)
    | Thrown _ => (Ok [], record (EReaddir dir) false w)
    end.
Proof.
  intros dir Hp. unfold FsUtils.listRepoFiles, FsUtils.listFiles. fold dir.
  rewrite run_bind. cbn [Z.leb Z.compare].
  rewrite run_tryCatch, run_bind, run_call, (runScheduled_idle env w Hp).
  unfold performFs. rewrite no_fault. cbn [Fs.perform eventOf].
  destruct (Fs.readdir dir (files w)) as [dirents|e]; [|reflexivity].
  cbn [run ret]. unfold ret. f_equal. f_equal.
  induction dirents as [|d ds IH]; [reflexivity|].
  cbn [map filter]. rewrite hasFile_matching, endsWith_empty.
  cbn [map]. rewrite IH. f_equal.
  unfold FsUtils.matching. cbn [filter]. rewrite endsWith_empty. reflexivity.
Qed.

Lemma mediaEntries_of_items (repoPath : string) (items : list FsUtils.FsItem) :
  LocalGit.mapThrowing (fun file => LocalGit.mediaEntry repoPath (LocalGit.ListedItem file))
                       items
  = match items with
    | [] => Ok []
    | _ :: _ => Thrown "file.replace is not a function"
    end.
Proof. destruct items; reflexivity. Qed.

End MediaListing.

(** X26.  [getMedia] for the branch the repository is on, on a quiet
    server (no call fails, no unawaited function is running) whose lock
    is free.  For a folder that cannot be read, a missing one included,
    or that holds nothing, the answer is 200 with the empty list: the
    failure of [readdir] is not reported.  For a folder that holds an
    entry, the handler throws on the first item, the answer is 500 and
    the message of the error goes to the logger. *)
Theorem getMedia_of_a_folder
        (env : Runtime.Env) (repoPath b mediaFolder : string) (w : Runtime.World) :
  faultless env ->
  Runtime.pending w = [] ->
  Runtime.lockCount w = 0 ->
  JsonOps.mem b (Runtime.all (Runtime.git w)) = true ->
  Runtime.current (Runtime.git w) = b ->
  let body := {| action := "getMedia";
                 params := Some {| branch := b; payload := GetMediaParams mediaFolder |} |} in
  let w' := snd (LocalGit.localGitMiddleware env repoPath body w) in
  told w'
  = match Fs.readdir (NodePath.join2 repoPath mediaFolder) (Runtime.files w) with
    | Ok (_ :: _) =>
        ((Runtime.responses w
          ++ [ {| status := 500; json := LocalGit.error "Unknown error" |} ])%list,
         (Runtime.logged w ++ [ "file.replace is not a function" ])%list)
    | _ =>
        ((Runtime.responses w
          ++ [ {| status := 200; json := Some (JArr []) |} ])%list,
         Runtime.logged w)
    end.
Proof.
  intros Hn Hp H0 Hb Hc. cbn zeta.
  set (w2 := Runtime.record Runtime.EBranchLocal true
               (Runtime.record Runtime.EAcquire true (Runtime.setLockCount 1 w))).
  set (W0 := Runtime.record Runtime.EBranchLocal true w2).
  assert (Hfunc :
    Runtime.bind (Runtime.run env (FsUtils.listRepoFiles repoPath mediaFolder "" 1))
      (fun files =>
         LocalGit.liftResult
           (LocalGit.mapThrowing
              (fun file => LocalGit.mediaEntry repoPath (LocalGit.ListedItem file))
              files)) W0
    = match Fs.readdir (NodePath.join2 repoPath mediaFolder) (Runtime.files w) with
      | Ok (_ :: _) =>
          (Thrown "file.replace is not a function",
           Runtime.record (Runtime.EReaddir (NodePath.join2 repoPath mediaFolder)) true W0)
      | Ok [] =>
          (Ok [],
           Runtime.record (Runtime.EReaddir (NodePath.join2 repoPath mediaFolder)) true W0)
      | Thrown _ =>
          (Ok [],
           Runtime.record (Runtime.EReaddir (NodePath.join2 repoPath mediaFolder)) false W0)
      end).
  { unfold Runtime.bind.
    rewrite (listRepoFiles_quiet env Hn) by exact Hp.
    cbn zeta. change (Runtime.files W0) with (Runtime.files w).
    destruct (Fs.readdir _ (Runtime.files w)) as [[|d ds]|e]; reflexivity. }
  unfold LocalGit.localGitMiddleware.
  rewrite (acquire_quiet env) by assumption.
  unfold Runtime.tryFinally, Runtime.tryCatch, LocalGit.handle.
  cbn [action params branch payload String.eqb Ascii.eqb Bool.eqb].
  unfold Runtime.bind at 1.
  rewrite (isBranchExists_quiet env Hn) by exact Hp.
  cbn [Runtime.git Runtime.record Runtime.setLockCount Runtime.all]. rewrite Hb.
  cbn [negb]. unfold LocalGit.dispatch. cbn [String.eqb Ascii.eqb Bool.eqb].
  unfold Runtime.bind at 1.
  destruct (Fs.readdir (NodePath.join2 repoPath mediaFolder) (Runtime.files w))
    as [[|d ds]|e] eqn:Hd.
  - rewrite (runOnBranch_quiet env Hn b _ _ (Ok [])
               (Runtime.record (Runtime.EReaddir (NodePath.join2 repoPath mediaFolder))
                               true W0)); try assumption; try exact Hfunc; reflexivity.
  - rewrite (runOnBranch_quiet env Hn b _ _
               (Thrown "file.replace is not a function")
               (Runtime.record (Runtime.EReaddir (NodePath.join2 repoPath mediaFolder))
                               true W0)); try assumption; try exact Hfunc; reflexivity.
  - rewrite (runOnBranch_quiet env Hn b _ _ (Ok [])
               (Runtime.record (Runtime.EReaddir (NodePath.join2 repoPath mediaFolder))
                               false W0)); try assumption; try exact Hfunc; reflexivity.
Qed.

Lemma getMedia_of_a_folder_witness :
  told (snd (LocalGit.localGitMiddleware Samples.quiet Samples.repoPath
               {| action := "getMedia";
                  params := Some {| branch := "main";
                                    payload := GetMediaParams "nowhere" |} |}
               Samples.world))
  = match Fs.readdir (NodePath.join2 Samples.repoPath "nowhere")
                     (Runtime.files Samples.world) with
    | Ok (_ :: _) =>
        ((Runtime.responses Samples.world
          ++ [ {| status := 500; json := LocalGit.error "Unknown error" |} ])%list,
         (Runtime.logged Samples.world
          ++ [ "file.replace is not a function" ])%list)
    | _ =>
        ((Runtime.responses Samples.world
          ++ [ {| status := 200; json := Some (JArr []) |} ])%list,
         Runtime.logged Samples.world)
    end.
Proof.
  apply (getMedia_of_a_folder Samples.quiet Samples.repoPath "main" "nowhere"
           Samples.world).
  - intros e t. reflexivity.
  - reflexivity.
  - reflexivity.
  - reflexivity.
  - reflexivity.
Defined.

(* ===================================================================== *)
(** ** What a rename does to the tree *)
(* ===================================================================== *)

Section RenameFacts.
Import JsonOps Fs.

Lemma assoc_setEntry_other (k k' : string) (c : Node) (es : list (string * Node)) :
  String.eqb k k' = false -> assoc k' (setEntry k c es) = assoc k' es.
Proof.
  intros Hne. assert (Hne' : String.eqb k' k = false)
    by (rewrite String.eqb_sym; exact Hne).
  induction es as [|[k0 c0] es IH]; cbn.
  - now rewrite Hne'.
  - destruct (String.eqb k k0) eqn:E; cbn.
    + apply String.eqb_eq in E. subst k0. now rewrite Hne'.
    + destruct (String.eqb k' k0); [reflexivity | exact IH].
Qed.

Lemma sameLocation_eq (a b : list string) : sameLocation a b = true -> a = b.
Proof.
  unfold sameLocation. revert b. induction a as [|x a IH]; intros [|y b] H;
    cbn in H; try discriminate; try reflexivity.
  apply andb_prop in H. destruct H as [H1 H2].
  apply andb_prop in H1. destruct H1 as [Hxy Hab].
  apply andb_prop in H2. destruct H2 as [_ Hba].
  apply String.eqb_eq in Hxy. subst y. f_equal. apply IH.
  now rewrite Hab, Hba.
Qed.

(** What is put at a location shows at no location apart from it. *)
Lemma insert_lookup_apart (what : string) (dst src : list string) (x n n' : Node) :
  isPrefix dst src = false -> isPrefix src dst = false ->
  insert what dst x n = Ok n' -> lookup src n' = lookup src n.
Proof.
  revert src n n'. induction dst as [|s rest IH]; intros src n n' H1 H2 H;
    [discriminate|].
  destruct src as [|t srest]; [discriminate|].
  destruct n as [c|r es]; [discriminate|]. cbn [insert] in H.
  cbn [isPrefix] in H1, H2.
  destruct rest as [|s' rest'].
  - injection H as <-. cbn [lookup].
    destruct (String.eqb s t) eqn:E; [cbn in H1; discriminate|].
    now rewrite (assoc_setEntry_other s t x es E).
  - destruct (assoc s es) as [c|] eqn:A; [|discriminate].
    destruct (insert what (s' :: rest') x c) as [c'|e] eqn:E; [|discriminate].
    injection H as <-. cbn [lookup].
    destruct (String.eqb s t) eqn:Est.
    + apply String.eqb_eq in Est. subst t. rewrite assoc_setEntry, A.
      rewrite String.eqb_refl in H2. cbn [andb] in H1, H2.
      now apply (IH srest c c').
    + now rewrite (assoc_setEntry_other s t c' es Est).
Qed.

Lemma stat_lookup (segs : list string) (n : Node) :
  match stat segs n with
  | IsFile c => lookup segs n = Some (File c)
  | IsDir d => lookup segs n = Some d
  | Missing | Blocked => lookup segs n = None
  end.
Proof.
  revert n. induction segs as [|s rest IH]; intros n.
  - destruct n; reflexivity.
  - destruct n as [c|r es]; [reflexivity|]. cbn.
    destruct (assoc s es) as [c|]; [apply IH | reflexivity].
Qed.

(** A rename that succeeds: what was at [from] is at [to], and unless
    the two are one location nothing is at [from]. *)
Lemma rename_moves (from to : string) (root root' : Node) :
  rename from to root = Ok root' ->
  exists x,
    lookup (NodePath.location from) root = Some x
    /\ lookup (NodePath.location to) root' = Some x
    /\ (sameLocation (NodePath.location from) (NodePath.location to) = false ->
        lookup (NodePath.location from) root' = None).
Proof.
  unfold rename. set (src := NodePath.location from). set (dst := NodePath.location to).
  intros H.
  assert (Hsrc : exists x, lookup src root = Some x).
  { pose proof (stat_lookup src root) as L.
    destruct (stat src root); try discriminate; eexists; exact L. }
  destruct Hsrc as [x Hx].
  assert (Hgo : stat src root <> Missing /\ stat src root <> Blocked).
  { destruct (stat src root); try discriminate; split; discriminate. }
  destruct (sameLocation src dst) eqn:Esame.
  { assert (root' = root) by (destruct (stat src root); congruence). subst root'.
    apply sameLocation_eq in Esame. exists x. rewrite <- Esame.
    repeat split; [exact Hx | exact Hx | discriminate]. }
  destruct (isPrefix src dst) eqn:E1.
  { destruct (stat src root); discriminate. }
  destruct (isPrefix dst src) eqn:E2.
  { destruct (stat src root); discriminate. }
  assert (Hmove : match remove ("rename '" ++ from ++ "' -> '" ++ to ++ "'") src root with
                  | Ok (y, r1) => insert ("rename '" ++ from ++ "' -> '" ++ to ++ "'") dst y r1
                  | Thrown e => Thrown e
                  end = Ok root').
  { destruct (stat src root) as [| |c|d]; try discriminate;
      destruct (stat dst root) as [| |c'|[c'|r' [|e' es']]];
      try discriminate; exact H. }
  destruct (remove _ src root) as [[y r1]|e] eqn:Er; [|discriminate].
  destruct (remove_lookup _ _ _ _ _ Er) as [Hy Hnone].
  assert (y = x) by congruence. subst y.
  exists x. split; [exact Hx|]. split.
  - eapply insert_lookup. exact Hmove.
  - intros _. rewrite (insert_lookup_apart _ dst src x r1 root' E2 E1 Hmove). exact Hnone.
Qed.

End RenameFacts.

(** C5.  [commitEntry] starts the move of every data file or of none.
    When a data file comes without [newPath], no [move] is started: a
    server without unawaited functions stays without them, and the
    request makes no rename.  When every data file carries [newPath] and
    [commitEntry] returns, a [move] from [path] to [newPath] was started
    for every data file after its content was written, and was not
    awaited: once the unawaited functions have run to their end, the
    log holds the write of the file and, later, the call of [rename] from
    [path] to [newPath], unless the directory of [newPath] could not be
    made, which is where [move] gives up.  The call of [rename] may
    fail, and nothing reports it; where it succeeds, what was at [path]
    is at [newPath] and nothing is at [path].  This holds for every
    environment: every schedule of the unawaited functions and every
    failure of a call. *)
Theorem commitEntry_moves_all_or_none
        (env : Runtime.Env) (repoPath : string) (dataFiles : list DataFile.t)
        (assets : list Asset.t) (commitMessage : string) (w : Runtime.World) :
  let done := LocalGit.commitEntry env repoPath dataFiles assets commitMessage w in
  (forallb LocalGit.hasNewPath dataFiles = false ->
   Runtime.pending w = [] ->
   Runtime.pending (snd done) = []
   /\ exists added, grownBy added w (snd done) /\ noRename added)
  /\ (forallb LocalGit.hasNewPath dataFiles = true ->
      fst done = Ok tt ->
      forall dataFile newPath,
        In dataFile dataFiles -> DataFile.newPath dataFile = Some newPath ->
        let from := NodePath.join2 repoPath (DataFile.path dataFile) in
        let to := NodePath.join2 repoPath newPath in
        let after := Runtime.log (Runtime.settle env (snd done)) in
        writtenThenRenamed from to after
        \/ In (Runtime.EMkdir (NodePath.dirname to), false) after)
  /\ (forall from to w0 w1,
        Runtime.performFs env (Fs.Rename from to) w0 = (Ok tt, w1) ->
        Runtime.log w1 = (Runtime.log w0 ++ [(Runtime.ERename from to, true)])%list
        /\ exists moved,
             Fs.lookup (NodePath.location from) (Runtime.files w0) = Some moved
             /\ Fs.lookup (NodePath.location to) (Runtime.files w1) = Some moved
             /\ (Fs.sameLocation (NodePath.location from) (NodePath.location to) = false ->
                 Fs.lookup (NodePath.location from) (Runtime.files w1) = None)).
Proof.
  cbn zeta. unfold LocalGit.commitEntry. split; [|split].
  - intros Hnone. rewrite Hnone.
    apply (@respects_bind calm calm_trans).
    { intros w0. apply run_calm, renameFree_all, Forall_forall.
      intros p Hp. apply in_map_iff in Hp. destruct Hp as [d [<- _]].
      apply renameFree_writeFile. }
    intros _. apply (@respects_bind calm calm_trans).
    { intros w0. apply run_calm, renameFree_all, Forall_forall.
      intros p Hp. apply in_map_iff in Hp. destruct Hp as [a [<- _]].
      apply renameFree_writeFile. }
    intros _. apply (@respects_bind calm calm_trans).
    { intros w0. apply calm_refl. }
    intros _. apply commit_calm.
  - intros Hall. fold (LocalGit.commitEntry env repoPath dataFiles assets commitMessage).
    rewrite (commitEntry_moving env repoPath dataFiles assets commitMessage w Hall).
    intros Hok dataFile newPath Hin Hnew.
    destruct (Runtime.run env (Io.all (map _ dataFiles)) w) as [[rs1|e1] w1] eqn:E1;
      [|discriminate].
    pose proof (run_grows env (Io.all (map (fun a =>
                  FsUtils.writeFile (NodePath.join2 repoPath (Asset.path a))
                    (Fs.Buffer (Asset.content a) (Asset.encoding a))) assets)) w1)
      as [more Hmore].
    destruct (Runtime.run env (Io.all (map _ assets)) w1) as [[rs2|e2] w2];
      [|discriminate].
    unfold grownBy in Hmore. cbn in Hmore. clear Hok.
    destruct (run_all_writeFile_logged env
                (fun d => NodePath.join2 repoPath (DataFile.path d))
                (fun d => Fs.Text (DataFile.raw d)) dataFiles w w1 rs1 E1 dataFile Hin)
      as [l1 [l2 Hwritten]].
    set (from := NodePath.join2 repoPath (DataFile.path dataFile)) in *.
    set (to := NodePath.join2 repoPath newPath).
    set (w3 := Runtime.setPending _ w2).
    assert (Hflight : inFlight from to (Runtime.log w3) w3).
    { exists []. split; [now rewrite app_nil_r|]. right.
      destruct (nth_error_app_map (LocalGit.moveDataFile repoPath) dataFiles dataFile
                  (Runtime.pending w2) Hin) as [i Hi].
      exists i. eexists. split; [exact Hi|].
      unfold LocalGit.moveDataFile. rewrite Hnew. apply move_aboutToRename. }
    apply (inFlight_commit env from to _ commitMessage) in Hflight.
    apply (inFlight_settle env) in Hflight.
    destruct Hflight as [added [Hlog [[ok Hren] | Hdir]]].
    + left. apply in_split in Hren. destruct Hren as [a1 [a2 ->]].
      exists (Runtime.log w ++ l1)%list, (l2 ++ more ++ a1)%list, a2, ok.
      rewrite Hlog. subst w3. cbn [Runtime.log Runtime.setPending].
      rewrite Hmore, Hwritten.
      repeat (rewrite <- app_assoc || rewrite <- app_comm_cons). reflexivity.
    + right. rewrite Hlog. apply in_or_app. now right.
  - intros from to w0 w1. unfold Runtime.performFs.
    destruct (Runtime.fault env _ _); [discriminate|].
    cbn [Fs.perform Runtime.eventOf].
    destruct (Fs.rename from to (Runtime.files w0)) as [root'|e] eqn:E;
      cbn [Fs.unitResult]; [|discriminate].
    intros H. injection H as <-. split; [reflexivity|].
    exact (rename_moves from to _ _ E).
Qed.

(** That every data file is renamed, as the specification has it, does
    not hold: a rename that cannot be made is not made, and the request
    is not told.  The one
    data file of this [persistEntry] carries a [newPath] that is a
    directory of the repository.  The content is written and committed
    and the request answers 200; the [move], which nothing awaits, makes
    the directory above [newPath] and calls [rename], which fails on the
    directory.  The file stays at [path], the rejection is handled by
    nobody and the logger of the request gets nothing.  No call is made
    to fail, and the order in which the calls are made plays no part:
    the [move] is the only unawaited function. *)
Lemma rename_onto_directory_goes_unreported :
  let w := snd (LocalGit.localGitMiddleware Samples.quiet Samples.repoPath
                  Samples.persistOntoDirectory Samples.world) in
  let after := Runtime.settle Samples.quiet w in
  forallb LocalGit.hasNewPath [Samples.ontoDirectory] = true
  /\ Runtime.responses after
     = [ {| status := 200; json := LocalGit.message "entry persisted" |} ]
  /\ Runtime.pending w = [ FsUtils.move "/repo/posts/a.md" "/repo/img" ]
  /\ Runtime.log after
     = [ (Runtime.EAcquire, true); (Runtime.EBranchLocal, true);
         (Runtime.EBranchLocal, true);
         (Runtime.EMkdir "/repo/posts", true);
         (Runtime.EWriteFile "/repo/posts/a.md", true);
         (Runtime.EAdd, true); (Runtime.ECommit "rename a", true);
         (Runtime.ECheckout "main", true); (Runtime.ERelease, true);
         (Runtime.EMkdir "/repo", true);
         (Runtime.ERename "/repo/posts/a.md" "/repo/img", false);
         (Runtime.EUnhandledRejection
            "EISDIR: illegal operation on a directory, rename '/repo/posts/a.md' -> '/repo/img'",
          false) ]
  /\ Fs.fileAt ["repo"; "posts"; "a.md"] (Runtime.files after) = Some (Fs.Text "new")
  /\ Fs.fileAt ["repo"; "img"] (Runtime.files after) = None
  /\ Runtime.logged after = [].
Proof. cbn zeta. conjuncts; vm_compute; reflexivity. Qed.

(** Nor does it take a rename that cannot be made.  Two data files of
    one directory carry each a [newPath] in a directory of its own.
    When the calls of the first [move] all take effect before those of
    the second, it takes along what lies beside its file, the second
    data file included: [posts/b.md] goes to [drafts/b.md], the second
    [move] finds no file to rename, and nothing is at [archive/b.md]. *)
Example second_move_finds_its_file_taken_along :
  let w := snd (LocalGit.localGitMiddleware Samples.quiet Samples.repoPath
                  Samples.persistBoth Samples.world) in
  let after := Runtime.settle Samples.quiet w in
  Runtime.responses after
  = [ {| status := 200; json := LocalGit.message "entry persisted" |} ]
  /\ Runtime.pending w
     = [ FsUtils.move "/repo/posts/a.md" "/repo/drafts/a.md";
         FsUtils.move "/repo/posts/b.md" "/repo/archive/b.md" ]
  /\ skipn 11 (Runtime.log after)
     = [ (Runtime.EMkdir "/repo/drafts", true);
         (Runtime.ERename "/repo/posts/a.md" "/repo/drafts/a.md", true);
         (Runtime.EReaddir "/repo/posts", true);
         (Runtime.EMkdir "/repo/drafts", true);
         (Runtime.ERename "/repo/posts/sub" "/repo/drafts/sub", true);
         (Runtime.EMkdir "/repo/drafts", true);
         (Runtime.ERename "/repo/posts/b.md" "/repo/drafts/b.md", true);
         (Runtime.EMkdir "/repo/archive", true);
         (Runtime.ERename "/repo/posts/b.md" "/repo/archive/b.md", false);
         (Runtime.EUnhandledRejection
            "ENOENT: no such file or directory, rename '/repo/posts/b.md' -> '/repo/archive/b.md'",
          false) ]
  /\ Fs.fileAt ["repo"; "drafts"; "a.md"] (Runtime.files after) = Some (Fs.Text "new a")
  /\ Fs.fileAt ["repo"; "drafts"; "b.md"] (Runtime.files after) = Some (Fs.Text "new b")
  /\ Fs.fileAt ["repo"; "archive"; "b.md"] (Runtime.files after) = None
  /\ Fs.fileAt ["repo"; "posts"; "b.md"] (Runtime.files after) = None.
Proof. cbn zeta. conjuncts; vm_compute; reflexivity. Qed.

Lemma commitEntry_moves_all_or_none_witness :
  (forallb LocalGit.hasNewPath [Samples.renamed; Samples.emptyDocument] = false
   /\ Runtime.pending Samples.world = []
   /\ Runtime.pending
        (snd (LocalGit.commitEntry Samples.eager Samples.repoPath
                [Samples.renamed; Samples.emptyDocument] [] "add" Samples.world)) = [])
  /\ (forallb LocalGit.hasNewPath [Samples.movedA; Samples.movedB] = true
      /\ fst (LocalGit.commitEntry Samples.eager Samples.repoPath
                [Samples.movedA; Samples.movedB] [] "move both" Samples.world) = Ok tt
      /\ (writtenThenRenamed "/repo/posts/b.md" "/repo/archive/b.md"
            (Runtime.log
               (Runtime.settle Samples.eager
                  (snd (LocalGit.commitEntry Samples.eager Samples.repoPath
                          [Samples.movedA; Samples.movedB] [] "move both"
                          Samples.world))))
          \/ In (Runtime.EMkdir "/repo/archive", false)
               (Runtime.log
                  (Runtime.settle Samples.eager
                     (snd (LocalGit.commitEntry Samples.eager Samples.repoPath
                             [Samples.movedA; Samples.movedB] [] "move both"
                             Samples.world))))))
  /\ (fst (Runtime.performFs Samples.quiet
             (Fs.Rename "/repo/posts/a.md" "/repo/img/a.md") Samples.world) = Ok tt
      /\ exists moved,
           Fs.lookup ["repo"; "posts"; "a.md"] (Runtime.files Samples.world) = Some moved
           /\ Fs.lookup ["repo"; "img"; "a.md"]
                (Runtime.files
                   (snd (Runtime.performFs Samples.quiet
                           (Fs.Rename "/repo/posts/a.md" "/repo/img/a.md")
                           Samples.world)))
              = Some moved
           /\ Fs.lookup ["repo"; "posts"; "a.md"]
                (Runtime.files
                   (snd (Runtime.performFs Samples.quiet
                           (Fs.Rename "/repo/posts/a.md" "/repo/img/a.md")
                           Samples.world)))
              = None).
Proof.
  split; [|split].
  - split; [reflexivity|]. split; [reflexivity|].
    exact (proj1 (proj1 (commitEntry_moves_all_or_none Samples.eager Samples.repoPath
                           [Samples.renamed; Samples.emptyDocument] [] "add"
                           Samples.world)
                        eq_refl eq_refl)).
  - assert (Hok : fst (LocalGit.commitEntry Samples.eager Samples.repoPath
                         [Samples.movedA; Samples.movedB] [] "move both"
                         Samples.world) = Ok tt)
      by (vm_compute; reflexivity).
    split; [reflexivity|]. split; [exact Hok|].
    exact (proj1 (proj2 (commitEntry_moves_all_or_none Samples.eager Samples.repoPath
                           [Samples.movedA; Samples.movedB] [] "move both"
                           Samples.world))
                 eq_refl Hok Samples.movedB "archive/b.md"
                 (or_intror (or_introl eq_refl)) eq_refl).
  - assert (Hok : Runtime.performFs Samples.quiet
                    (Fs.Rename "/repo/posts/a.md" "/repo/img/a.md") Samples.world
                  = (Ok tt,
                     snd (Runtime.performFs Samples.quiet
                            (Fs.Rename "/repo/posts/a.md" "/repo/img/a.md")
                            Samples.world)))
      by (vm_compute; reflexivity).
    split; [vm_compute; reflexivity|].
    destruct (proj2 (proj2 (proj2 (commitEntry_moves_all_or_none Samples.quiet
                                     Samples.repoPath [] [] "" Samples.world))
                           "/repo/posts/a.md" "/repo/img/a.md" Samples.world _ Hok))
      as [moved [H1 [H2 H3]]].
    exists moved. split; [exact H1|]. split; [exact H2|]. apply H3. reflexivity.
Defined.

(* ===================================================================== *)
(** ** The depth of a listing *)
(* ===================================================================== *)




(* ===================================================================== *)
(** ** One data file, moved *)
(* ===================================================================== *)

Section Alone.
Import Runtime.
Variable env : Env.
Hypothesis no_fault : faultless env.

Lemma performFs_pending {R : Type} (op : Fs.Op R) (u : World) :
  pending (snd (performFs env op u)) = pending u.
Proof.
  unfold performFs. destruct (fault env _ _); [reflexivity|].
  destruct (Fs.perform op (files u)) as [[r|e] root]; reflexivity.
Qed.

(** Where no call is made to fail, a call sees the tree and nothing else
    of the process. *)
Lemma performFs_files {R : Type} (op : Fs.Op R) (u u' : World) :
  files u = files u' ->
  fst (performFs env op u) = fst (performFs env op u')
  /\ files (snd (performFs env op u)) = files (snd (performFs env op u')).
Proof.
  intros H. unfold performFs. rewrite !no_fault, H.
  destruct (Fs.perform op (files u')) as [[r|e] root]; split; try reflexivity.
  cbn. exact H.
Qed.

Lemma runToEnd_files (job : Io.t unit) (u u' : World) :
  files u = files u' -> files (runToEnd env job u) = files (runToEnd env job u').
Proof.
  revert u u'. induction job as [a|e|R op k IH]; intros u u' H; cbn [runToEnd].
  - exact H.
  - exact H.
  - destruct (performFs_files op u u' H) as [H1 H2].
    destruct (performFs env op u) as [r u1].
    destruct (performFs env op u') as [r' u1']. cbn [fst snd] in H1, H2. subst r'.
    now apply IH.
Qed.

Lemma runToEnd_pending (job : Io.t unit) (u : World) :
  pending (runToEnd env job u) = pending u.
Proof.
  revert u. induction job as [a|e|R op k IH]; intros u; cbn [runToEnd];
    try reflexivity.
  pose proof (performFs_pending op u) as H.
  destruct (performFs env op u) as [r u1]. cbn [snd] in H. now rewrite IH.
Qed.

(** An awaited function on a process without unawaited ones makes the
    calls it makes when left alone. *)
Lemma run_alone (job : Io.t unit) (u : World) :
  pending u = [] ->
  files (snd (run env job u)) = files (runToEnd env job u)
  /\ pending (snd (run env job u)) = [].
Proof.
  revert u. induction job as [a|e|R op k IH]; intros u Hp; cbn [run runToEnd].
  - now split.
  - now split.
  - rewrite (runScheduled_idle env u Hp).
    pose proof (performFs_pending op u) as H.
    destruct (performFs env op u) as [r u1]. cbn [snd] in H.
    apply IH. congruence.
Qed.

Lemma heading_same (T : Fs.Node) (u u' : World) :
  pending u' = pending u -> files u' = files u -> heading env T u -> heading env T u'.
Proof.
  intros Hp Hf [[P F]|[job [P F]]].
  - left. split; congruence.
  - right. exists job. split; [congruence|].
    rewrite <- F. now apply runToEnd_files.
Qed.

Lemma heading_step (T : Fs.Node) (i : nat) (u : World) :
  heading env T u -> heading env T (stepPending env i u).
Proof.
  intros [[P F]|[job [P F]]]; unfold stepPending; rewrite P.
  - destruct i; cbn [nth_error]; left; now split.
  - destruct i as [|i]; cbn [nth_error].
    2:{ destruct i; cbn [nth_error]; right; now exists job. }
    destruct job as [a|e|R op k]; cbn [replaceNth].
    + left. split; [reflexivity | exact F].
    + left. split; [reflexivity | exact F].
    + cbn [runToEnd] in F.
      pose proof (performFs_pending op u) as Hp.
      destruct (performFs env op u) as [r u1]. cbn [snd] in Hp. rewrite P in Hp.
      rewrite Hp. cbn [replaceNth].
      destruct (k r) as [a|e|R' op' k'] eqn:E.
      * left. split; [reflexivity | exact F].
      * left. split; [reflexivity | exact F].
      * right. eexists. split; [reflexivity|].
        rewrite <- F. now apply runToEnd_files.
Qed.

Lemma heading_runScheduled (T : Fs.Node) (u : World) :
  heading env T u -> heading env T (runScheduled env u).
Proof.
  unfold runScheduled. generalize (schedule env (now u)) as l.
  intros l; revert u; induction l as [|i l IH]; intros u H; cbn.
  - exact H.
  - apply IH, heading_step, H.
Qed.

(** [commit] with git at work: the unawaited function goes on, and
    nobody else touches the tree. *)
Lemma heading_commit (T : Fs.Node) (m : string) (u : World) :
  heading env T u ->
  fst (LocalGit.commit env m u) = Ok tt /\ heading env T (snd (LocalGit.commit env m u)).
Proof.
  intros H. unfold LocalGit.commit, bind, add, gitCommit, gitCall, await.
  rewrite no_fault. cbn match.
  rewrite no_fault. cbn [fst snd]. split; [reflexivity|].
  eapply heading_same; [| |apply heading_runScheduled].
  - reflexivity.
  - reflexivity.
  - eapply heading_same; [| |apply heading_runScheduled, H]; reflexivity.
Qed.

Lemma heading_settle (T : Fs.Node) (u : World) :
  heading env T u -> pending (settle env u) = [] /\ files (settle env u) = T.
Proof.
  intros [[P F]|[job [P F]]]; unfold settle; rewrite P; cbn [fold_left].
  - now split.
  - split; [now rewrite runToEnd_pending|].
    rewrite <- F. now apply runToEnd_files.
Qed.

(** [move] on a process without unawaited functions, where the source
    was alone in its directory. *)
Lemma move_alone (from to : string) (u : World) (made renamed : Fs.Node) :
  pending u = [] ->
  Fs.mkdir (NodePath.dirname to) (files u) = Ok made ->
  Fs.rename from to made = Ok renamed ->
  Fs.readdir (NodePath.dirname from) renamed = Ok [] ->
  files (snd (run env (FsUtils.move from to) u)) = renamed.
Proof.
  intros Hp Hm Hr Hd. unfold FsUtils.move.
  rewrite run_bind. unfold FsUtils.moveFile at 1.
  rewrite run_bind, !run_call.
  rewrite (runScheduled_idle env u Hp). unfold performFs at 1.
  rewrite no_fault. cbn [Fs.perform]. rewrite Hm. cbn [Fs.unitResult].
  rewrite run_call, runScheduled_idle by exact Hp.
  unfold performFs at 1.
  rewrite no_fault. cbn [Fs.perform files setFiles record]. rewrite Hr.
  cbn [Fs.unitResult]. rewrite run_bind.
  unfold FsUtils.listFiles. cbn [Z.leb Z.compare].
  rewrite run_tryCatch, run_bind, run_call.
  rewrite runScheduled_idle by exact Hp. unfold performFs at 1.
  rewrite no_fault. cbn [Fs.perform files setFiles record]. rewrite Hd.
  reflexivity.
Qed.

End Alone.

Section Keeping.
Import JsonOps Fs.

(** Making a directory leaves the files where they are. *)
Lemma mkdirp_keeps_file (what : string) (segs p : list string) (n n' : Node)
      (c : Content) :
  mkdirp what segs n = Ok n' ->
  lookup p n = Some (File c) -> lookup p n' = Some (File c).
Proof.
  revert p n n'. induction segs as [|s rest IH]; intros p n n' H L.
  - destruct n; [discriminate|]. cbn in H. now injection H as <-.
  - destruct n as [c0|r es]; [discriminate|]. cbn [mkdirp] in H. cbv zeta in H.
    destruct (mkdirp what rest
                (match assoc s es with Some c1 => c1 | None => Dir true [] end))
      as [c'|e] eqn:E; [|discriminate].
    injection H as <-.
    destruct p as [|t p']; [discriminate|]. cbn [lookup] in L |- *.
    destruct (String.eqb s t) eqn:Est.
    + apply String.eqb_eq in Est. subst t. rewrite assoc_setEntry.
      destruct (assoc s es) as [c1|]; [|discriminate].
      now apply (IH p' c1 c').
    + now rewrite (assoc_setEntry_other s t c' es Est).
Qed.

End Keeping.

(** X28.  One data file, moved.  On a server where no call fails and no
    unawaited function is running, [commitEntry] for one data file with
    a [newPath] returns, and once its [move] has run to its end the
    working tree is the one in which the content was written at [path],
    the directory of [newPath] made and the file renamed: the content is
    at [newPath].  This is so however the calls of the [move] fall among
    those of the request, when the file was alone in its directory;
    what lies beside it the [move] would take along. *)
Theorem lone_data_file_ends_at_newPath
        (env : Runtime.Env) (repoPath commitMessage newPath : string)
        (dataFile : DataFile.t) (w : Runtime.World)
        (made written readied renamed : Fs.Node) :
  let from := NodePath.join2 repoPath (DataFile.path dataFile) in
  let to := NodePath.join2 repoPath newPath in
  let done := LocalGit.commitEntry env repoPath [dataFile] [] commitMessage w in
  let final := Runtime.settle env (snd done) in
  faultless env ->
  Runtime.pending w = [] ->
  DataFile.newPath dataFile = Some newPath -> newPath <> "" ->
  Fs.mkdir (NodePath.dirname from) (Runtime.files w) = Ok made ->
  Fs.writeFile from (Fs.Text (DataFile.raw dataFile)) made = Ok written ->
  Fs.mkdir (NodePath.dirname to) written = Ok readied ->
  Fs.rename from to readied = Ok renamed ->
  Fs.readdir (NodePath.dirname from) renamed = Ok [] ->
  fst done = Ok tt
  /\ Runtime.pending final = []
  /\ Runtime.files final = renamed
  /\ Fs.lookup (NodePath.location to) renamed
     = Some (Fs.File (Fs.Text (DataFile.raw dataFile))).
Proof.
  intros from to done final Hn Hp Hnew Hne Hm Hw Hm2 Hr Hd. subst done final.
  assert (Hall : forallb LocalGit.hasNewPath [dataFile] = true).
  { cbn. unfold LocalGit.hasNewPath. rewrite Hnew.
    now rewrite (eqb_neq_false _ _ Hne). }
  rewrite (commitEntry_moving env repoPath [dataFile] [] commitMessage w Hall).
  cbn [map]. rewrite run_all_cons.
  fold from.
  rewrite (run_writeFile_quiet env Hn from (Fs.Text (DataFile.raw dataFile)) w
             made written Hp Hm Hw).
  cbn [Io.all Runtime.run Runtime.ret fst snd].
  set (w1 := Runtime.record (Runtime.EWriteFile from) true _).
  unfold Runtime.ret. cbv iota beta.
  set (w3 := Runtime.setPending _ w1).
  assert (Hhead : heading env renamed w3).
  { right. exists (LocalGit.moveDataFile repoPath dataFile). split.
    - unfold w3, w1. cbn. now rewrite Hp.
    - unfold LocalGit.moveDataFile. rewrite Hnew. fold from. fold to.
      rewrite (runToEnd_files env Hn (FsUtils.move from to) w3 w1) by reflexivity.
      assert (P1 : Runtime.pending w1 = []) by exact Hp.
      rewrite <- (proj1 (run_alone env (FsUtils.move from to) w1 P1)).
      apply (move_alone env Hn from to w1 readied renamed P1); assumption. }
  destruct (heading_commit env Hn renamed commitMessage w3 Hhead) as [Hok Hafter].
  split; [exact Hok|].
  destruct (heading_settle env Hn renamed _ Hafter) as [P F].
  split; [exact P|]. split; [exact F|].
  destruct (rename_moves from to readied renamed Hr) as [x [Hx [Hto _]]].
  rewrite Hto. rewrite <- Hx.
  apply (mkdirp_keeps_file _ _ _ written readied _ Hm2).
  exact (writeFile_lookup _ _ _ _ Hw).
Qed.

Lemma lone_data_file_ends_at_newPath_witness :
  Fs.lookup ["repo"; "memo"; "n.md"]
    (Runtime.files
       (Runtime.settle Samples.eager
          (snd (LocalGit.commitEntry Samples.eager Samples.repoPath
                  [ {| DataFile.slug := "n"; DataFile.path := "notes/n.md";
                       DataFile.raw := "note"; DataFile.newPath := Some "memo/n.md" |} ]
                  [] "move n" Samples.world))))
  = Some (Fs.File (Fs.Text "note")).
Proof.
  pose (d := {| DataFile.slug := "n"; DataFile.path := "notes/n.md";
                DataFile.raw := "note"; DataFile.newPath := Some "memo/n.md" |}).
  pose (tree := fun (r : Result Fs.Node) =>
                  match r with Ok t => t | Thrown _ => Samples.tree end).
  pose (made := tree (Fs.mkdir "/repo/notes" Samples.tree)).
  pose (written := tree (Fs.writeFile "/repo/notes/n.md" (Fs.Text "note") made)).
  pose (readied := tree (Fs.mkdir "/repo/memo" written)).
  pose (renamed := tree (Fs.rename "/repo/notes/n.md" "/repo/memo/n.md" readied)).
  assert (Hne : "memo/n.md" <> "") by discriminate.
  assert (Hn : faultless Samples.eager) by (intros e t; reflexivity).
  assert (H1 : Fs.mkdir (NodePath.dirname (NodePath.join2 Samples.repoPath
                                              (DataFile.path d)))
                        (Runtime.files Samples.world) = Ok made)
    by (vm_compute; reflexivity).
  assert (H2 : Fs.writeFile (NodePath.join2 Samples.repoPath (DataFile.path d))
                            (Fs.Text (DataFile.raw d)) made = Ok written)
    by (vm_compute; reflexivity).
  assert (H3 : Fs.mkdir (NodePath.dirname (NodePath.join2 Samples.repoPath "memo/n.md"))
                        written = Ok readied)
    by (vm_compute; reflexivity).
  assert (H4 : Fs.rename (NodePath.join2 Samples.repoPath (DataFile.path d))
                         (NodePath.join2 Samples.repoPath "memo/n.md") readied
               = Ok renamed)
    by (vm_compute; reflexivity).
  assert (H5 : Fs.readdir (NodePath.dirname (NodePath.join2 Samples.repoPath
                                               (DataFile.path d))) renamed = Ok [])
    by (vm_compute; reflexivity).
  destruct (lone_data_file_ends_at_newPath Samples.eager Samples.repoPath "move n"
              "memo/n.md" d Samples.world made written readied renamed
              Hn eq_refl eq_refl Hne H1 H2 H3 H4 H5)
    as [_ [_ [Hfiles Hat]]].
  cbv zeta in Hfiles. fold d. rewrite Hfiles. exact Hat.
Defined.
